(** * registry-center: the in-memory service registry of src/registry.go

    The Go program keeps a map from application keys to [*Application],
    each holding a map from hostnames to [*Instance].  Instances are heap
    objects reached through pointers and their address lists are slices
    over heap arrays, so the embedding threads an explicit store through
    every operation:

    - [objs] is the heap of [Instance] objects, a pointer is an index in it
      (an index outside the heap plays the role of the nil pointer, and
      dereferencing it panics);
    - [arrs] is the heap of backing arrays of [[]string] slices;
    - [apps] is the [apps] map of the [Registry] struct.  An [*Application]
      is reachable from one key only, so applications are stored by value
      and a method with a pointer receiver returns the updated value, which
      its caller stores back under the key it was read from.

    The two [sync.RWMutex] fields and [log.Println] have no counterpart:
    every operation is one atomic step, and the ticker loop [evictTask] is
    an eviction pass that may happen between any two of them.
    [time.Now().UnixNano()] is an explicit argument [now], [rand.Intn]
    draws from an explicit sequence.  Go ranges over a map in an
    unspecified order; the embedding ranges in the order of [map_to_list]
    and no theorem depends on that order. *)

From Stdlib Require Import ZArith NArith Lia Ascii.
From Stdlib Require Import Floats.SpecFloat.
From stdpp Require Import base option list gmap strings fin_maps.

Local Open Scope string_scope.
Local Open Scope Z_scope.
Local Open Scope list_scope.

(** ** Data model *)

(** Pointers are indices in a heap. *)
Abbreviation loc := nat (only parsing).

Record Instance := mkInstance {
  Env : string;
  AppId : string;
  Hostname : string;
  Addrs : loc;
  Version : string;
  Status : N;
  RegTimestamp : Z;
  UpTimestamp : Z;
  RenewTimestamp : Z;
  DirtyTimestamp : Z;
  LatestTimestamp : Z
}.

Record Application := mkApplication {
  appId : string;
  instances : gmap string loc;
  latestTimestamp : Z
}.

Record FetchData := mkFetchData {
  fdInstances : list loc;
  fdLatestTimestamp : Z
}.

Record RequestRegister := mkRequestRegister {
  reqEnv : string;
  reqAppId : string;
  reqHostname : string;
  reqAddrs : loc;
  reqStatus : N;
  reqVersion : string;
  reqLatestTimestamp : Z;
  reqDirtyTimestamp : Z;
  reqReplication : bool
}.

Record State := mkState {
  apps : gmap string Application;
  objs : list Instance;
  arrs : list (list string)
}.

Definition error := string.

Definition ErrAppNotFound : error := "app not found".
Definition ErrInstanceNotFound : error := "instance not found".
Definition ErrNotFresh : error := "latest timestamp is not latest".
Definition ErrNoMatchingInstance : error := "not exist condition instance".

(** Field assignments [x.F = v] on a copy of the struct. *)

Definition set_Addrs (a : loc) (i : Instance) : Instance :=
  mkInstance (Env i) (AppId i) (Hostname i) a (Version i) (Status i)
    (RegTimestamp i) (UpTimestamp i) (RenewTimestamp i) (DirtyTimestamp i)
    (LatestTimestamp i).

Definition set_UpTimestamp (t : Z) (i : Instance) : Instance :=
  mkInstance (Env i) (AppId i) (Hostname i) (Addrs i) (Version i) (Status i)
    (RegTimestamp i) t (RenewTimestamp i) (DirtyTimestamp i)
    (LatestTimestamp i).

Definition set_RenewTimestamp (t : Z) (i : Instance) : Instance :=
  mkInstance (Env i) (AppId i) (Hostname i) (Addrs i) (Version i) (Status i)
    (RegTimestamp i) (UpTimestamp i) t (DirtyTimestamp i)
    (LatestTimestamp i).

Definition set_LatestTimestamp (t : Z) (i : Instance) : Instance :=
  mkInstance (Env i) (AppId i) (Hostname i) (Addrs i) (Version i) (Status i)
    (RegTimestamp i) (UpTimestamp i) (RenewTimestamp i) (DirtyTimestamp i) t.

Definition set_apps (f : gmap string Application → gmap string Application)
    (s : State) : State :=
  mkState (f (apps s)) (objs s) (arrs s).

Definition set_objs (f : list Instance → list Instance) (s : State) : State :=
  mkState (apps s) (f (objs s)) (arrs s).

Definition set_arrs (f : list (list string) → list (list string))
    (s : State) : State :=
  mkState (apps s) (objs s) (f (arrs s)).

(** ** The monad of the operations: state, and a panic that aborts

    A panic unwinds the operation; [Panic s] records the state the
    operation had reached, which is what a recovering caller finds. *)

Inductive outcome (A : Type) : Type :=
  | Done (a : A) (s : State)
  | Panic (s : State).
Arguments Done {A} a s.
Arguments Panic {A} s.

Definition M (A : Type) : Type := State → outcome A.

Global Instance M_ret : MRet M := λ A a s, Done a s.
Global Instance M_bind : MBind M := λ A B f c s,
  match c s with
  | Done a s' => f a s'
  | Panic s' => Panic s'
  end.

Definition panic {A} : M A := λ s, Panic s.
Definition gets {A} (f : State → A) : M A := λ s, Done (f s) s.
Definition modify (f : State → State) : M unit := λ s, Done tt (f s).

(** ** Heap primitives *)

(** [*p] for reading: a nil pointer dereference panics. *)
Definition deref (p : loc) : M Instance := λ s,
  match objs s !! p with
  | Some i => Done i s
  | None => Panic s
  end.

(** [*p = i], or the assignment of one field when [i] differs from [*p]
    in that field only. *)
Definition assign (p : loc) (i : Instance) : M unit := λ s,
  match objs s !! p with
  | Some _ => Done tt (set_objs (λ h, <[p := i]> h) s)
  | None => Panic s
  end.

(** [q := new(Instance); *q = i]. *)
Definition new_Instance (i : Instance) : M loc := λ s,
  Done (length (objs s)) (set_objs (λ h, h ++ [i]) s).

(** The elements of a slice; the nil slice has none. *)
Definition slice_of (s : State) (a : loc) : list string :=
  default [] (arrs s !! a).

(** [make([]string, n)]. *)
Definition make_strings (n : nat) : M loc := λ s,
  Done (length (arrs s)) (set_arrs (λ h, h ++ [replicate n ""]) s).

(** [a[i] = v], which panics when the index is out of range. *)
Definition store_string (a : loc) (i : nat) (v : string) : M unit := λ s,
  if decide (i < length (slice_of s a))%nat
  then Done tt (set_arrs (λ h, <[a := <[i := v]> (slice_of s a)]> h) s)
  else Panic s.

(** ** Application *)

Definition getKey (appid env : string) : string :=
  appid +:+ "-" +:+ env.

Definition NewApplication (appid : string) : Application :=
  mkApplication appid ∅ 0.

Definition upLatestTimestamp (app : Application) (latestTimestamp : Z)
    : Application :=
  mkApplication (appId app) (instances app) latestTimestamp.

Definition set_instances (f : gmap string loc → gmap string loc)
    (app : Application) : Application :=
  mkApplication (appId app) (f (instances app)) (latestTimestamp app).

Definition AddInstance (app : Application) (in_ : loc) (latestTimestamp : Z)
    : M (Application * loc * bool) :=
  i ← deref in_;
  let o := instances app !! Hostname i in
  in' ← match o with
        | Some appIns =>
            a ← deref appIns;
            _ ← assign in_ (set_UpTimestamp (UpTimestamp a) i);
            i1 ← deref in_;
            a1 ← deref appIns;
            mret (if DirtyTimestamp i1 <? DirtyTimestamp a1 then appIns else in_)
        | None => mret in_
        end;
  v ← deref in';
  let app1 := set_instances (λ m, <[Hostname v := in']> m) app in
  let app2 := upLatestTimestamp app1 latestTimestamp in
  returnIns ← new_Instance v;
  mret (app2, returnIns, match o with Some _ => false | None => true end).

(** The loop of [copyInstance]: [for i, addr := range src { dst[i] = addr }]. *)
Fixpoint copy_addrs (dst : loc) (i : nat) (src : list string) : M unit :=
  match src with
  | [] => mret tt
  | addr :: rest => _ ← store_string dst i addr; copy_addrs dst (S i) rest
  end.

Definition copyInstance (src : loc) : M loc :=
  v ← deref src;
  dst ← new_Instance v;
  srcAddrs ← gets (λ s, slice_of s (Addrs v));
  a ← make_strings (length srcAddrs);
  _ ← assign dst (set_Addrs a v);
  _ ← copy_addrs a 0 srcAddrs;
  mret dst.

(** The loop of [GetInstance] over the instances of the application. *)
Fixpoint GetInstance_loop (status : N) (l : list (string * loc))
    (acc : list loc) (exists_ : bool) : M (list loc * bool) :=
  match l with
  | [] => mret (acc, exists_)
  | (_, instance) :: rest =>
      v ← deref instance;
      if (0 <? N.land status (Status v))%N
      then newInstance ← copyInstance instance;
           GetInstance_loop status rest (acc ++ [newInstance]) true
      else GetInstance_loop status rest acc exists_
  end.

Definition GetInstance (app : Application) (status : N) (latestTime : Z)
    : M (option FetchData * option error) :=
  if latestTime >=? latestTimestamp app
  then mret (None, Some ErrNotFresh)
  else
    '(l, exists_) ← GetInstance_loop status (map_to_list (instances app)) [] false;
    if negb exists_
    then mret (None, Some ErrNoMatchingInstance)
    else mret (Some (mkFetchData l (latestTimestamp app)), None).

(** [newInstance := new(Instance)] is allocated where it is filled: until
    then nothing points to it. *)
Definition Application_Cancel (app : Application) (hostname : string)
    (latestTimestamp : Z) : M (Application * option loc * bool * nat) :=
  match instances app !! hostname with
  | None => mret (app, None, false, 0%nat)
  | Some appIn =>
      let app1 := set_instances (λ m, delete hostname m) app in
      v ← deref appIn;
      _ ← assign appIn (set_LatestTimestamp latestTimestamp v);
      let app2 := upLatestTimestamp app1 latestTimestamp in
      v' ← deref appIn;
      newInstance ← new_Instance v';
      mret (app2, Some newInstance, true, size (instances app2))
  end.

Definition Application_Renew (app : Application) (hostname : string)
    (now : Z) : M (option loc * bool) :=
  match instances app !! hostname with
  | None => mret (None, false)
  | Some appIn =>
      v ← deref appIn;
      _ ← assign appIn (set_RenewTimestamp now v);
      c ← copyInstance appIn;
      mret (Some c, true)
  end.

(** The loop of [GetAllInstances]. *)
Fixpoint GetAllInstances_loop (l : list (string * loc)) (rs : list loc)
    : M (list loc) :=
  match l with
  | [] => mret rs
  | (_, instance) :: rest =>
      v ← deref instance;
      newInstance ← new_Instance v;
      GetAllInstances_loop rest (rs ++ [newInstance])
  end.

Definition GetAllInstances (app : Application) : M (list loc) :=
  GetAllInstances_loop (map_to_list (instances app)) [].

(** ** Registry *)

Definition NewRegistry : State := mkState ∅ [] [].

Definition getApplication (appid env : string) : M (option Application) :=
  gets (λ s, apps s !! getKey appid env).

Definition getAllApplications : M (list (string * Application)) :=
  gets (λ s, map_to_list (apps s)).

Definition Register (instance : loc) (latestTimestamp : Z)
    : M (Application * option error) :=
  i ← deref instance;
  let key := getKey (AppId i) (Env i) in
  o ← gets (λ s, apps s !! key);
  let app := match o with
             | Some app => app
             | None => NewApplication (AppId i)
             end in
  '(app', _, isNew) ← AddInstance app instance latestTimestamp;
  _ ← modify (set_apps (λ m, <[key := app']> m));
  mret (app', None).

Definition Fetch (env appid : string) (status : N) (latestTimestamp : Z)
    : M (list loc * option error) :=
  o ← getApplication appid env;
  match o with
  | None => mret ([], Some ErrAppNotFound)
  | Some app =>
      '(c, err) ← GetInstance app status latestTimestamp;
      match c with
      | None => panic
      | Some fd => mret (fdInstances fd, err)
      end
  end.

Definition Cancel (env appid hostname : string) (latestTimestamp : Z)
    : M (option loc * option error) :=
  o ← getApplication appid env;
  match o with
  | None => mret (None, Some ErrAppNotFound)
  | Some app =>
      '(app', instance, ok, insLen) ← Application_Cancel app hostname latestTimestamp;
      _ ← modify (set_apps (λ m, <[getKey appid env := app']> m));
      if negb ok
      then mret (None, Some ErrInstanceNotFound)
      else
        _ ← (if (insLen =? 0)%nat
             then modify (set_apps (λ m, delete (getKey appid env) m))
             else mret tt);
        mret (instance, None)
  end.

Definition Renew (env appid hostname : string) (now : Z)
    : M (option loc * option error) :=
  o ← getApplication appid env;
  match o with
  | None => mret (None, Some ErrAppNotFound)
  | Some app =>
      '(in_, ok) ← Application_Renew app hostname now;
      if negb ok
      then mret (None, Some ErrInstanceNotFound)
      else mret (in_, None)
  end.

(** ** float64 and the eviction cap

    [evictionLimit := registryLen - int(float64(registryLen)*0.85)] is
    computed in binary64.  The operations are those of the IEEE 754
    specification of the Standard Library at precision 53. *)

Definition prec : Z := 53.
Definition emax : Z := 1024.

(** [float64(n)] for an [int]: rounding to nearest, ties to even. *)
Definition float64_of_int (n : Z) : spec_float :=
  binary_normalize prec emax n 0 false.

(** The constant [0.85], correctly rounded to binary64. *)
Definition float64_0_85 : spec_float :=
  SFdiv prec emax (float64_of_int 85) (float64_of_int 100).

(** [int(f)]: truncation toward zero.  Go leaves the conversion of NaN,
    of infinities and of values out of range to the implementation; amd64
    yields the least [int64]. *)
Definition int_of_float64 (f : spec_float) : Z :=
  match f with
  | S754_zero _ => 0
  | S754_finite s m e => cond_Zopp s (Z.shiftl (Zpos m) e)
  | _ => - 2 ^ 63
  end.

Definition evictionLimit (registryLen : Z) : Z :=
  registryLen
  - int_of_float64 (SFmul prec emax (float64_of_int registryLen) float64_0_85).

(** ** The eviction pass *)

(** Subtraction of [int64] values wraps around. *)
Definition wrap64 (z : Z) : Z := (z + 2 ^ 63) mod 2 ^ 64 - 2 ^ 63.

(** [now-instance.RenewTimestamp > int64(90*time.Second)], in nanoseconds. *)
Definition expired (now : Z) (v : Instance) : bool :=
  wrap64 (now - RenewTimestamp v) >? 90 * 1000000000.

(** [rand.Intn(n)]: the [call]-th draw of the pass, reduced below [n];
    it panics when [n <= 0]. *)
Definition Intn (rnd : nat → nat) (call : nat) (n : nat) : M nat :=
  match n with
  | O => panic
  | S _ => mret (rnd call mod n)%nat
  end.

(** [es[i]], which panics when the index is out of range. *)
Definition index (es : list loc) (i : nat) : M loc :=
  match es !! i with
  | Some e => mret e
  | None => panic
  end.

(** [es[i], es[j] = es[j], es[i]]. *)
Definition swap (i j : nat) (es : list loc) : M (list loc) :=
  a ← index es i;
  b ← index es j;
  mret (<[j := a]> (<[i := b]> es)).

(** The inner loop of [evict] over the instances of one application. *)
Fixpoint evict_instances (now : Z) (allInstances : list loc)
    (expiredInstances : list loc) : M (list loc) :=
  match allInstances with
  | [] => mret expiredInstances
  | instance :: rest =>
      v ← deref instance;
      if expired now v
      then evict_instances now rest (expiredInstances ++ [instance])
      else evict_instances now rest expiredInstances
  end.

(** The outer loop of [evict] over the applications. *)
Fixpoint evict_scan (now : Z) (l : list (string * Application))
    (registryLen : nat) (expiredInstances : list loc) : M (nat * list loc) :=
  match l with
  | [] => mret (registryLen, expiredInstances)
  | (_, app) :: rest =>
      allInstances ← GetAllInstances app;
      expiredInstances' ← evict_instances now allInstances expiredInstances;
      evict_scan now rest (registryLen + length allInstances) expiredInstances'
  end.

(** The loop [for i := 0; i < expiredLen; i++], with [n] iterations left.
    The results of the calls of [Cancel], which the source drops, are
    returned so that theorems can speak about them. *)
Fixpoint evict_loop (now : Z) (rnd : nat → nat) (n i : nat)
    (expiredInstances : list loc) : M (list (option loc * option error)) :=
  match n with
  | O => mret []
  | S n' =>
      k ← Intn rnd i (length expiredInstances - i);
      es ← swap i (i + k) expiredInstances;
      expiredInstance ← index es i;
      v ← deref expiredInstance;
      r ← Cancel (Env v) (AppId v) (Hostname v) now;
      rs ← evict_loop now rnd n' (S i) es;
      mret (r :: rs)
  end.

Definition evict (now : Z) (rnd : nat → nat)
    : M (list (option loc * option error)) :=
  l ← getAllApplications;
  '(registryLen, expiredInstances) ← evict_scan now l 0 [];
  let limit := evictionLimit (Z.of_nat registryLen) in
  let expiredLen := Z.of_nat (length expiredInstances) in
  let expiredLen := if expiredLen >? limit then limit else expiredLen in
  if expiredLen =? 0
  then mret []
  else evict_loop now rnd (Z.to_nat expiredLen) 0 expiredInstances.

(** ** Callers *)

Definition NewInstance (req : RequestRegister) (now : Z) : M loc :=
  new_Instance
    (mkInstance (reqEnv req) (reqAppId req) (reqHostname req) (reqAddrs req)
       (reqVersion req) (reqStatus req) now now now now now).

(** A slice literal [[]string{...}]. *)
Definition new_strings (l : list string) : M loc := λ s,
  Done (length (arrs s)) (set_arrs (λ h, h ++ [l]) s).

(** A caller builds [&Instance{...}] over a fresh address list. *)
Definition new_caller_Instance (i : Instance) (addrs : list string) : M loc :=
  a ← new_strings addrs;
  new_Instance (set_Addrs a i).


(** ** Vocabulary of the specification *)

Definition state_of {A} (o : outcome A) : State :=
  match o with
  | Done _ s => s
  | Panic s => s
  end.

(** The application of key [k] stores pointer [l] under hostname [h]. *)
Definition stored (s : State) (k h : string) (l : loc) : Prop :=
  ∃ app, apps s !! k = Some app ∧ instances app !! h = Some l.

(** Well-formed states: every stored pointer is live and points to an
    instance that carries the keys it is stored under, and every address
    list is a live array. *)
Record wf (s : State) : Prop := mk_wf {
  wf_stored : ∀ k h l, stored s k h l →
    ∃ v, objs s !! l = Some v ∧ getKey (AppId v) (Env v) = k ∧ Hostname v = h;
  wf_addrs : ∀ l v, objs s !! l = Some v → (Addrs v < length (arrs s))%nat
}.

(** No application of the map is empty. *)
Definition nonempty (s : State) : Prop :=
  ∀ k app, apps s !! k = Some app → instances app ≠ ∅.

(** What callers do: build an instance, or call one of the operations.
    They do not write to an object after they have registered it. *)
Inductive op : Type :=
  | OpNew (i : Instance) (addrs : list string)
  | OpRegister (instance : loc) (latestTimestamp : Z)
  | OpFetch (env appid : string) (status : N) (latestTimestamp : Z)
  | OpCancel (env appid hostname : string) (latestTimestamp : Z)
  | OpRenew (env appid hostname : string) (now : Z)
  | OpEvict (now : Z) (rnd : nat → nat).

Definition exec (o : op) (s : State) : State :=
  match o with
  | OpNew i addrs => state_of (new_caller_Instance i addrs s)
  | OpRegister p t => state_of (Register p t s)
  | OpFetch env appid status t => state_of (Fetch env appid status t s)
  | OpCancel env appid h t => state_of (Cancel env appid h t s)
  | OpRenew env appid h now => state_of (Renew env appid h now s)
  | OpEvict now rnd => state_of (evict now rnd s)
  end.

Definition run (ops : list op) : State := foldl (λ s o, exec o s) NewRegistry ops.

Inductive reachable : State → Prop :=
  | reachable_init : reachable NewRegistry
  | reachable_step o s : reachable s → reachable (exec o s).

(** The stored instances, with the keys they are stored under. *)
Definition entries_of (l : list (string * Application))
    : list (string * string * loc) :=
  ka ← l; (λ hp, (ka.1, hp.1, hp.2)) <$> map_to_list (instances ka.2).

Definition entries (s : State) : list (string * string * loc) :=
  entries_of (map_to_list (apps s)).

(** [N]: the number of instances across all applications. *)
Definition total (s : State) : nat := length (entries s).

Definition expired_at (now : Z) (s : State) (l : loc) : bool :=
  match objs s !! l with
  | Some v => expired now v
  | None => false
  end.

(** [E]: the number of stored instances that are expired at [now]. *)
Definition expired_total (now : Z) (s : State) : nat :=
  length (filter (λ e, expired_at now s e.2 = true) (entries s)).

(** A call of [Cancel] that removed an instance. *)
Definition cancelled (r : option loc * option error) : Prop :=
  is_Some r.1 ∧ r.2 = None.

(** What a caller sees of an instance: its fields, with the elements of
    its address list in place of the slice. *)
Definition view (s : State) (p : loc) : option (Instance * list string) :=
  v ← objs s !! p; Some (set_Addrs 0%nat v, slice_of s (Addrs v)).

(** The string has no dash in it. *)
Fixpoint dash_free (a : string) : bool :=
  match a with
  | EmptyString => true
  | String c r => negb (Ascii.eqb c "-"%char) && dash_free r
  end.

(** ** Auxiliary definitions of the proofs *)

(** The state a successful [Cancel] leaves: the hostname is deleted, and
    the application with it when it was the last one; the removed object
    carries the new [LatestTimestamp] and a copy of it is allocated. *)
Definition Cancel_state (key h : string) (app : Application) (p : loc)
    (v : Instance) (t : Z) (s : State) : State :=
  let app' := upLatestTimestamp (set_instances (λ m, delete h m) app) t in
  mkState
    (if (size (instances app') =? 0)%nat
     then delete key (apps s) else <[key := app']> (apps s))
    (<[p := set_LatestTimestamp t v]> (objs s) ++ [set_LatestTimestamp t v])
    (arrs s).

(** The state [copyInstance] leaves: a new object over a new array. *)
Definition copy_state (v : Instance) (s : State) : State :=
  mkState (apps s) (objs s ++ [set_Addrs (length (arrs s)) v])
    (arrs s ++ [slice_of s (Addrs v)]).

(** The state a successful [Renew] leaves. *)
Definition Renew_state (p : loc) (v : Instance) (now : Z) (s : State) : State :=
  copy_state (set_RenewTimestamp now v)
    (set_objs (λ h, <[p := set_RenewTimestamp now v]> h) s).

(** The application [Register] works on: the one of the map, or a new one. *)
Definition app_of (s : State) (i : Instance) : Application :=
  match apps s !! getKey (AppId i) (Env i) with
  | Some app => app
  | None => NewApplication (AppId i)
  end.

(** The application after [AddInstance] has stored [l] under [h]. *)
Definition Register_app (app : Application) (h : string) (l : loc) (t : Z)
    : Application :=
  upLatestTimestamp (set_instances (λ m, <[h := l]> m) app) t.

(** The instances of [l] that the status mask selects, in order. *)
Definition matching (status : N) (s : State) (l : list (string * loc))
    : list Instance :=
  omap (λ hp, v ← objs s !! hp.2;
              if (0 <? N.land status (Status v))%N then Some v else None) l.

(** The store after the selected instances have been copied. *)
Definition fetch_state (ms : list Instance) (s : State) : State :=
  mkState (apps s)
    (objs s ++ imap (λ j v, set_Addrs (length (arrs s) + j)%nat v) ms)
    (arrs s ++ ((λ v, slice_of s (Addrs v)) <$> ms)).

(** The pointers of [l] are live and so are their address lists. *)
Definition live (s : State) (l : list (string * loc)) : Prop :=
  ∀ hp, hp ∈ l → ∃ v, objs s !! hp.2 = Some v ∧ (Addrs v < length (arrs s))%nat.

(** The objects behind the pointers of [l], in order. *)
Definition values (s : State) (l : list (string * loc)) : list Instance :=
  omap (λ hp, objs s !! hp.2) l.

(** The pointers of [l] are live. *)
Definition valid (s : State) (l : list (string * loc)) : Prop :=
  Forall (λ hp, is_Some (objs s !! hp.2)) l.

(** [e] is the copy taken during the scan of the stored instance [ent]. *)
Definition copy_of (s0 : State) (o : list Instance) (e : loc)
    (ent : string * string * loc) : Prop :=
  (length (objs s0) ≤ e)%nat ∧ is_Some (objs s0 !! ent.2)
  ∧ o !! e = objs s0 !! ent.2.

(** The keys an instance is cancelled under. *)
Definition key_of (v : Instance) : string * string :=
  (getKey (AppId v) (Env v), Hostname v).

(** The copies still to be cancelled, with their values: they lie above
    every stored pointer, and the instances they name are stored and
    pairwise distinct. *)
Definition pending (L0 : nat) (s : State) (PV : list (loc * Instance)) : Prop :=
  (∀ k h p, stored s k h p → (p < L0)%nat)
  ∧ (L0 ≤ length (objs s))%nat
  ∧ Forall (λ ev, (L0 ≤ ev.1)%nat ∧ objs s !! ev.1 = Some ev.2
                  ∧ ∃ p, stored s (key_of ev.2).1 (key_of ev.2).2 p) PV
  ∧ NoDup ((λ ev, key_of ev.2) <$> PV).

(** The mantissa that rounding to nearest, ties to even, keeps of [m]
    when its last [n] bits are dropped. *)
Definition round_shr (m n : Z) : Z :=
  round_nearest_even (m / 2 ^ n)
    (loc_of_shr_record
       (Build_shr_record (m / 2 ^ n) (Z.odd (m / 2 ^ (n - 1)))
          (negb (m mod 2 ^ (n - 1) =? 0)))).

(** The result of a [Fetch] as its caller sees it: the instances behind
    the returned pointers, and the error. *)
Definition fetched (o : outcome (list loc * option error))
    : option (list (option (Instance * list string)) * option error) :=
  match o with
  | Done (qs, e) s => Some (view s <$> qs, e)
  | Panic _ => None
  end.

(** ** Scenarios *)

Definition example_Instance (env appid hostname : string) (status : N)
    (renew dirty : Z) : Instance :=
  mkInstance env appid hostname 0%nat "v1.0.0" status 0 0 renew dirty 0.

(** One instance [h1] of [svc.a] in [test], registered at timestamp 10. *)
Definition st_one : State :=
  run [OpNew (example_Instance "test" "svc.a" "h1" 1 5 100) ["10.0.0.1:8080"];
       OpRegister 0%nat 10].

(** The same registration at timestamp 20. *)
Definition st_late : State :=
  run [OpNew (example_Instance "test" "svc.a" "h1" 1 5 100) ["10.0.0.1:8080"];
       OpRegister 0%nat 20].

(** [st_one], and a second instance object for [h1] with an older
    [DirtyTimestamp], not yet registered: it is object 2. *)
Definition st_replay : State :=
  exec (OpNew (example_Instance "test" "svc.a" "h1" 1 6 50) ["10.0.0.2:8080"])
    st_one.

(** An instance of application [a-b] in environment [c]. *)
Definition st_dash : State :=
  run [OpNew (example_Instance "c" "a-b" "h" 1 5 100) ["10.0.0.3:8080"];
       OpRegister 0%nat 10].

(** Three instances, two of which were last renewed at 5 ns. *)
Definition st_three : State :=
  run [OpNew (example_Instance "test" "svc.a" "h1" 1 5 100) ["10.0.0.1:8080"];
       OpRegister 0%nat 10;
       OpNew (example_Instance "test" "svc.a" "h2" 1 5 100) ["10.0.0.2:8080"];
       OpRegister 2%nat 11;
       OpNew (example_Instance "test" "svc.b" "h3" 1 (200 * 1000000000) 100)
         ["10.0.0.3:8080"];
       OpRegister 4%nat 12].

(** [st_one], and a second instance object for [h1] with a newer
    [DirtyTimestamp], not yet registered: it is object 2. *)
Definition st_update : State :=
  exec (OpNew (mkInstance "test" "svc.a" "h1" 0%nat "v2.0.0" 3 7 7 7 150 7)
          ["10.0.0.9:8080"])
    st_one.

(** The request of [register_test.go], over the address list 0. *)
Definition req : RequestRegister :=
  mkRequestRegister "test" "com.xx.testapp" "webapi" 0%nat 1 "v1.0.0"
    1700000000 0 false.

(** [TestRegister]: register, fetch, cancel, fetch again; the results of
    the four calls. *)
Definition TestRegister (now : Z)
    : M (option error * (list loc * option error)
         * (option loc * option error) * (list loc * option error)) :=
  _ ← new_strings ["http://testapp.com"];
  instance ← NewInstance req now;
  '(_, err) ← Register instance (reqLatestTimestamp req);
  instances ← Fetch "test" "com.xx.testapp" 1 0;
  in_ ← Cancel "test" "com.xx.testapp" "webapi" 1700000001;
  instances2 ← Fetch "test" "com.xx.testapp" 1 0;
  mret (err, instances, in_, instances2).

(** ** Vocabulary of the further properties *)

(** The fields of an instance that no operation of the registry writes:
    all but [UpTimestamp], [RenewTimestamp] and [LatestTimestamp]. *)
Definition payload (v : Instance) : Instance :=
  set_UpTimestamp 0 (set_RenewTimestamp 0 (set_LatestTimestamp 0 v)).

(** [s'] is [s] after successful calls of [Cancel] at [t], each for an
    instance stored under a key of [K]. *)
Inductive cancel_steps (t : Z) (K : list (string * string))
    : State → State → Prop :=
  | cancel_steps_refl s : cancel_steps t K s s
  | cancel_steps_step s k h app p v s' :
      (k, h) ∈ K →
      apps s !! k = Some app →
      instances app !! h = Some p →
      objs s !! p = Some v →
      cancel_steps t K (Cancel_state k h app p v t s) s' →
      cancel_steps t K s s'.

(** [status&instance.Status > 0]: the mask selects the instance. *)
Definition selects (status : N) (v : Instance) : bool :=
  (0 <? N.land status (Status v))%N.

(** The application stores under [h] the pointer [l] to the instance [v],
    which the mask selects. *)
Definition selected (status : N) (s : State) (app : Application)
    (h : string) (l : loc) (v : Instance) : Prop :=
  instances app !! h = Some l ∧ objs s !! l = Some v ∧ selects status v = true.

(** The pointer is live and the mask selects its instance. *)
Definition selects_at (status : N) (s : State) (l : loc) : bool :=
  from_option (selects status) false (objs s !! l).

(** ** Further scenarios *)

(** [st_one], and an instance object for a second host [h2], not yet
    registered: it is object 2. *)
Definition st_second : State :=
  exec (OpNew (example_Instance "test" "svc.a" "h2" 2 5 100) ["10.0.0.2:8080"])
    st_one.

(** * Properties *)

(** ** Running the monad *)

(** Unfolds the monad and computes. *)
Ltac mrun :=
  unfold mbind, M_bind, mret, M_ret, modify, gets, panic, new_Instance,
    set_apps, set_objs, set_arrs; simpl.

(** A live cell keeps its content when the heap grows at its end. *)
Ltac lookup_old :=
  rewrite lookup_app_l; [done | by eapply lookup_lt_Some].

Lemma bind_eq {A B} (c : M A) (f : A → M B) s :
  (c ≫= f) s = match c s with Done a s' => f a s' | Panic s' => Panic s' end.
Proof. reflexivity. Qed.

Lemma bind_Done {A B} (c : M A) (f : A → M B) s a s' :
  c s = Done a s' → (c ≫= f) s = f a s'.
Proof. intros H. rewrite bind_eq, H. reflexivity. Qed.

Lemma bind_Panic {A B} (c : M A) (f : A → M B) s s' :
  c s = Panic s' → (c ≫= f) s = Panic s'.
Proof. intros H. rewrite bind_eq, H. reflexivity. Qed.

Lemma deref_Some s p v : objs s !! p = Some v → deref p s = Done v s.
Proof. intros H. unfold deref. rewrite H. reflexivity. Qed.

Lemma deref_None s p : objs s !! p = None → deref p s = Panic s.
Proof. intros H. unfold deref. rewrite H. reflexivity. Qed.

Lemma assign_Some s p v i :
  objs s !! p = Some v →
  assign p i s = Done tt (set_objs (λ h, <[p := i]> h) s).
Proof. intros H. unfold assign. rewrite H. reflexivity. Qed.

(** ** The test of the repository *)

(** [TestRegister] runs without a panic: the instance is fetched, then
    cancelled, and the second fetch finds no application. *)
Example TestRegister_runs :
  ∃ s, TestRegister 1700000000000000000 NewRegistry
       = Done (None, ([2%nat], None), (Some 3%nat, None),
               ([], Some ErrAppNotFound)) s
       ∧ apps s = ∅.
Proof. eexists. split; vm_compute; reflexivity. Qed.

(** [NewInstance] on a request over a fresh address list is what
    [new_caller_Instance] does. *)
Lemma NewInstance_caller r addrs now s :
  (a ← new_strings addrs;
   NewInstance (mkRequestRegister (reqEnv r) (reqAppId r) (reqHostname r) a
                  (reqStatus r) (reqVersion r) (reqLatestTimestamp r)
                  (reqDirtyTimestamp r) (reqReplication r)) now) s
  = new_caller_Instance
      (mkInstance (reqEnv r) (reqAppId r) (reqHostname r) 0%nat (reqVersion r)
         (reqStatus r) now now now now now) addrs s.
Proof. reflexivity. Qed.

(** ** Cancel *)

Lemma Cancel_stored s env appid h t app p v :
  apps s !! getKey appid env = Some app →
  instances app !! h = Some p →
  objs s !! p = Some v →
  Cancel env appid h t s
  = Done (Some (length (objs s)), None)
      (Cancel_state (getKey appid env) h app p v t s).
Proof.
  intros Happ Hh Hp. unfold Cancel, getApplication.
  rewrite bind_eq. unfold gets at 1. rewrite Happ.
  unfold Application_Cancel. rewrite Hh.
  rewrite bind_eq.
  rewrite (bind_Done _ _ _ _ _ (deref_Some _ _ _ Hp)).
  rewrite (bind_Done _ _ _ _ _ (assign_Some _ _ _ _ Hp)).
  assert (Hp' : objs (set_objs (λ o, <[p := set_LatestTimestamp t v]> o) s) !! p
                = Some (set_LatestTimestamp t v)).
  { simpl. apply list_lookup_insert_eq. by eapply lookup_lt_Some. }
  rewrite (bind_Done _ _ _ _ _ (deref_Some _ _ _ Hp')).
  unfold Cancel_state. mrun.
  rewrite length_insert.
  destruct (size (delete h (instances app)) =? 0)%nat; simpl.
  - by rewrite delete_insert_eq.
  - reflexivity.
Qed.

Lemma Cancel_no_app s env appid h t :
  apps s !! getKey appid env = None →
  Cancel env appid h t s = Done (None, Some ErrAppNotFound) s.
Proof.
  intros Happ. unfold Cancel, getApplication.
  rewrite bind_eq. unfold gets. rewrite Happ. reflexivity.
Qed.

Lemma set_apps_insert_id s k app :
  apps s !! k = Some app → set_apps (λ m, <[k := app]> m) s = s.
Proof.
  intros H. destruct s as [a o r]; unfold set_apps; simpl in *.
  by rewrite insert_id.
Qed.

Lemma Cancel_no_instance s env appid h t app :
  apps s !! getKey appid env = Some app →
  instances app !! h = None →
  Cancel env appid h t s = Done (None, Some ErrInstanceNotFound) s.
Proof.
  intros Happ Hh. unfold Cancel, getApplication.
  rewrite bind_eq. unfold gets at 1. rewrite Happ.
  unfold Application_Cancel. rewrite Hh.
  unfold mbind, M_bind, mret, M_ret, modify; simpl.
  by rewrite set_apps_insert_id.
Qed.

(** ** copyInstance *)

Lemma copy_addrs_spec a src : ∀ pre s,
  arrs s !! a = Some (pre ++ replicate (length src) "") →
  copy_addrs a (length pre) src s
  = Done tt (set_arrs (λ h, <[a := pre ++ src]> h) s).
Proof.
  induction src as [|addr rest IH]; intros pre s Ha; simpl.
  - unfold mret, M_ret. f_equal. destruct s as [ap o r]; unfold set_arrs; simpl in *.
    rewrite app_nil_r in *. by rewrite list_insert_id.
  - rewrite bind_eq. unfold store_string, slice_of. rewrite Ha. simpl.
    rewrite decide_True by (rewrite length_app; simpl; lia).
    replace (<[length pre := addr]> (pre ++ "" :: replicate (length rest) ""))
      with ((pre ++ [addr]) ++ replicate (length rest) "").
    2:{ rewrite insert_app_r_alt by lia. rewrite Nat.sub_diag. simpl.
        by rewrite <- app_assoc. }
    replace (S (length pre)) with (length (pre ++ [addr]))
      by (rewrite length_app; simpl; lia).
    rewrite IH.
    + f_equal. unfold set_arrs; simpl. rewrite list_insert_insert_eq.
      by rewrite <- app_assoc.
    + simpl. apply list_lookup_insert_eq. by eapply lookup_lt_Some.
Qed.

Lemma copyInstance_eq s src v :
  objs s !! src = Some v →
  copyInstance src s = Done (length (objs s)) (copy_state v s).
Proof.
  intros Hsrc. unfold copyInstance.
  rewrite (bind_Done _ _ _ _ _ (deref_Some _ _ _ Hsrc)).
  unfold mbind at 1, M_bind at 1, new_Instance at 1.
  unfold mbind at 1, M_bind at 1, gets at 1.
  unfold mbind at 1, M_bind at 1, make_strings at 1.
  rewrite bind_eq. unfold assign. simpl.
  rewrite lookup_app_r, Nat.sub_diag by lia. simpl.
  rewrite bind_eq.
  rewrite (copy_addrs_spec _ _ []).
  - unfold mret, M_ret, copy_state, set_arrs, slice_of; simpl. f_equal. f_equal.
    + rewrite insert_app_r_alt, Nat.sub_diag by lia. reflexivity.
    + rewrite insert_app_r_alt, Nat.sub_diag by lia. reflexivity.
  - simpl. rewrite lookup_app_r, Nat.sub_diag by lia. reflexivity.
Qed.

(** ** Renew *)

Lemma Renew_stored s env appid h now app p v :
  apps s !! getKey appid env = Some app →
  instances app !! h = Some p →
  objs s !! p = Some v →
  Renew env appid h now s
  = Done (Some (length (objs s)), None) (Renew_state p v now s).
Proof.
  intros Happ Hh Hp. unfold Renew, getApplication.
  rewrite bind_eq. unfold gets at 1. rewrite Happ.
  unfold Application_Renew. rewrite Hh.
  rewrite bind_eq.
  rewrite (bind_Done _ _ _ _ _ (deref_Some _ _ _ Hp)).
  rewrite (bind_Done _ _ _ _ _ (assign_Some _ _ _ _ Hp)).
  rewrite bind_eq, (copyInstance_eq _ _ (set_RenewTimestamp now v)).
  - unfold Renew_state. mrun. by rewrite length_insert.
  - simpl. apply list_lookup_insert_eq. by eapply lookup_lt_Some.
Qed.

Lemma Renew_no_app s env appid h now :
  apps s !! getKey appid env = None →
  Renew env appid h now s = Done (None, Some ErrAppNotFound) s.
Proof.
  intros Happ. unfold Renew, getApplication.
  rewrite bind_eq. unfold gets. rewrite Happ. reflexivity.
Qed.

Lemma Renew_no_instance s env appid h now app :
  apps s !! getKey appid env = Some app →
  instances app !! h = None →
  Renew env appid h now s = Done (None, Some ErrInstanceNotFound) s.
Proof.
  intros Happ Hh. unfold Renew, getApplication.
  rewrite bind_eq. unfold gets at 1. rewrite Happ.
  unfold Application_Renew. rewrite Hh. reflexivity.
Qed.

(** ** Register *)

Lemma Register_nil s p t : objs s !! p = None → Register p t s = Panic s.
Proof.
  intros Hp. unfold Register.
  by rewrite (bind_Panic _ _ _ _ (deref_None _ _ Hp)).
Qed.

Lemma Register_new s p t i :
  objs s !! p = Some i →
  instances (app_of s i) !! Hostname i = None →
  Register p t s
  = Done (Register_app (app_of s i) (Hostname i) p t, None)
      (mkState
         (<[getKey (AppId i) (Env i)
            := Register_app (app_of s i) (Hostname i) p t]> (apps s))
         (objs s ++ [i]) (arrs s)).
Proof.
  intros Hp Hh. unfold Register.
  rewrite (bind_Done _ _ _ _ _ (deref_Some _ _ _ Hp)).
  unfold mbind at 1, M_bind at 1, gets at 1. fold (app_of s i).
  rewrite bind_eq. unfold AddInstance.
  rewrite (bind_Done _ _ _ _ _ (deref_Some _ _ _ Hp)).
  rewrite Hh.
  unfold mbind at 1, M_bind at 1, mret at 1, M_ret at 1.
  rewrite (bind_Done _ _ _ _ _ (deref_Some _ _ _ Hp)).
  mrun. reflexivity.
Qed.

Lemma Register_existing s p t i l0 a :
  objs s !! p = Some i →
  instances (app_of s i) !! Hostname i = Some l0 →
  objs s !! l0 = Some a →
  let i' := set_UpTimestamp (UpTimestamp a) i in
  let stale := DirtyTimestamp i <? DirtyTimestamp a in
  let q := if stale then l0 else p in
  let v := if stale then a else i' in
  Register p t s
  = Done (Register_app (app_of s i) (Hostname v) q t, None)
      (mkState
         (<[getKey (AppId i) (Env i)
            := Register_app (app_of s i) (Hostname v) q t]> (apps s))
         (<[p := i']> (objs s) ++ [v]) (arrs s)).
Proof.
  intros Hp Hh Ha i' stale q v. unfold Register.
  rewrite (bind_Done _ _ _ _ _ (deref_Some _ _ _ Hp)).
  unfold mbind at 1, M_bind at 1, gets at 1. fold (app_of s i).
  rewrite bind_eq. unfold AddInstance.
  rewrite (bind_Done _ _ _ _ _ (deref_Some _ _ _ Hp)).
  rewrite Hh.
  rewrite bind_eq.
  rewrite (bind_Done _ _ _ _ _ (deref_Some _ _ _ Ha)).
  rewrite (bind_Done _ _ _ _ _ (assign_Some _ _ _ _ Hp)). fold i'.
  set (s1 := set_objs (λ h, <[p := i']> h) s).
  assert (Hp1 : objs s1 !! p = Some i').
  { simpl. apply list_lookup_insert_eq. by eapply lookup_lt_Some. }
  rewrite (bind_Done _ _ _ _ _ (deref_Some _ _ _ Hp1)).
  assert (Ha1 : objs s1 !! l0 = Some (if decide (p = l0) then i' else a)).
  { simpl. destruct (decide (p = l0)) as [->|Hne]; [done|].
    by rewrite list_lookup_insert_ne. }
  rewrite (bind_Done _ _ _ _ _ (deref_Some _ _ _ Ha1)).
  assert (Hst : (DirtyTimestamp i' <?
                 DirtyTimestamp (if decide (p = l0) then i' else a)) = stale).
  { unfold stale. destruct (decide (p = l0)) as [->|Hne]; [|done].
    assert (a = i) by congruence. subst a. simpl.
    rewrite !Z.ltb_irrefl. done. }
  unfold mret at 1, M_ret at 1. rewrite Hst. fold q.
  assert (Hq : objs s1 !! q = Some v).
  { unfold q, v. destruct stale eqn:Es; [|done].
    rewrite Ha1. destruct (decide (p = l0)) as [->|Hne]; [|done].
    assert (a = i) by congruence. subst a. unfold stale in Es.
    rewrite Z.ltb_irrefl in Es. done. }
  rewrite (bind_Done _ _ _ _ _ (deref_Some _ _ _ Hq)).
  mrun. reflexivity.
Qed.

(** ** GetInstance and Fetch *)

Lemma live_copy s l v : live s l → live (copy_state v s) l.
Proof.
  intros Hl hp Hin. destruct (Hl hp Hin) as (w & Hw & Ha).
  exists w. simpl. split.
  - lookup_old.
  - rewrite length_app. lia.
Qed.

Lemma live_cons s hp l : live s (hp :: l) → live s l.
Proof. intros Hl x Hx. apply Hl. by right. Qed.

Lemma matching_cons status s hp l v :
  objs s !! hp.2 = Some v →
  matching status s (hp :: l)
  = if (0 <? N.land status (Status v))%N
    then v :: matching status s l else matching status s l.
Proof.
  intros Hv. unfold matching. csimpl. rewrite Hv. simpl.
  by destruct (0 <? N.land status (Status v))%N.
Qed.

Lemma matching_copy status s l v :
  live s l → matching status (copy_state v s) l = matching status s l.
Proof.
  induction l as [|hp l IH]; intros Hl; [done|].
  destruct (Hl hp ltac:(left)) as (w & Hw & Ha).
  rewrite (matching_cons _ _ _ _ w), (matching_cons _ s _ _ w); [|done|].
  - by rewrite IH by (by eapply live_cons).
  - simpl. lookup_old.
Qed.

Lemma slice_of_copy s v a :
  (a < length (arrs s))%nat → slice_of (copy_state v s) a = slice_of s a.
Proof. intros Ha. unfold slice_of. simpl. by rewrite lookup_app_l. Qed.

Lemma matching_addrs status s l v :
  live s l → v ∈ matching status s l → (Addrs v < length (arrs s))%nat.
Proof.
  intros Hl Hv. unfold matching in Hv. apply list_elem_of_omap in Hv.
  destruct Hv as (hp & Hin & Hv). destruct (Hl hp Hin) as (w & Hw & Ha).
  rewrite Hw in Hv. simpl in Hv.
  destruct (0 <? N.land status (Status w))%N; by simplify_eq.
Qed.

Lemma fetch_state_cons s v ms :
  (∀ w, w ∈ ms → (Addrs w < length (arrs s))%nat) →
  fetch_state ms (copy_state v s) = fetch_state (v :: ms) s.
Proof.
  intros Hms. unfold fetch_state. simpl. f_equal.
  - rewrite <- app_assoc. simpl. f_equal. f_equal.
    + f_equal. lia.
    + apply imap_ext. intros j w _. rewrite length_app. simpl. f_equal. lia.
  - rewrite <- app_assoc. simpl. f_equal. f_equal.
    apply list_fmap_ext. intros j w Hw.
    apply slice_of_copy, Hms. by eapply list_elem_of_lookup_2.
Qed.

Lemma GetInstance_loop_eq status l : ∀ acc ex s,
  live s l →
  GetInstance_loop status l acc ex s
  = Done (acc ++ seq (length (objs s)) (length (matching status s l)),
          ex || negb (bool_decide (matching status s l = [])))
      (fetch_state (matching status s l) s).
Proof.
  induction l as [|[h p] l IH]; intros acc ex s Hl.
  - simpl. unfold mret, M_ret, fetch_state. simpl.
    rewrite !app_nil_r, orb_false_r. by destruct s.
  - destruct (Hl (h, p) ltac:(left)) as (v & Hv & Ha). simpl in Hv.
    cbn [GetInstance_loop].
    rewrite (bind_Done _ _ _ _ _ (deref_Some _ _ _ Hv)).
    rewrite (matching_cons _ _ _ _ v) by done.
    pose proof (live_cons _ _ _ Hl) as Hl'.
    destruct (0 <? N.land status (Status v))%N.
    + rewrite (bind_Done _ _ _ _ _ (copyInstance_eq _ _ _ Hv)).
      rewrite IH by (by apply live_copy).
      rewrite matching_copy by done.
      rewrite fetch_state_cons by (intros; by eapply matching_addrs).
      simpl. rewrite length_app. simpl.
      rewrite <- app_assoc. simpl. rewrite orb_true_r.
      f_equal. f_equal. f_equal. f_equal. f_equal. lia.
    + by rewrite IH.
Qed.

Lemma fetch_state_nil s : fetch_state [] s = s.
Proof. unfold fetch_state. simpl. rewrite !app_nil_r. by destruct s. Qed.

Lemma GetInstance_not_fresh app status t s :
  latestTimestamp app ≤ t →
  GetInstance app status t s = Done (None, Some ErrNotFresh) s.
Proof.
  intros Ht. unfold GetInstance.
  destruct (Z.geb_spec t (latestTimestamp app)); [done | lia].
Qed.

Lemma GetInstance_fresh app status t s :
  t < latestTimestamp app →
  live s (map_to_list (instances app)) →
  let ms := matching status s (map_to_list (instances app)) in
  GetInstance app status t s
  = Done (if bool_decide (ms = [])
          then (None, Some ErrNoMatchingInstance)
          else (Some (mkFetchData (seq (length (objs s)) (length ms))
                        (latestTimestamp app)), None))
      (fetch_state ms s).
Proof.
  intros Ht Hl ms. unfold GetInstance.
  destruct (Z.geb_spec t (latestTimestamp app)); [lia|].
  rewrite bind_eq, GetInstance_loop_eq by done. fold ms. simpl.
  by destruct (bool_decide (ms = [])).
Qed.

Lemma Fetch_no_app s env appid status t :
  apps s !! getKey appid env = None →
  Fetch env appid status t s = Done ([], Some ErrAppNotFound) s.
Proof.
  intros Happ. unfold Fetch, getApplication.
  rewrite bind_eq. unfold gets. by rewrite Happ.
Qed.

Lemma Fetch_not_fresh s env appid status t app :
  apps s !! getKey appid env = Some app →
  latestTimestamp app ≤ t →
  Fetch env appid status t s = Panic s.
Proof.
  intros Happ Ht. unfold Fetch, getApplication.
  rewrite bind_eq. unfold gets at 1. rewrite Happ.
  by rewrite bind_eq, GetInstance_not_fresh.
Qed.

Lemma Fetch_fresh s env appid status t app :
  apps s !! getKey appid env = Some app →
  t < latestTimestamp app →
  live s (map_to_list (instances app)) →
  let ms := matching status s (map_to_list (instances app)) in
  Fetch env appid status t s
  = if bool_decide (ms = [])
    then Panic s
    else Done (seq (length (objs s)) (length ms), None) (fetch_state ms s).
Proof.
  intros Happ Ht Hl ms. unfold Fetch, getApplication.
  rewrite bind_eq. unfold gets at 1. rewrite Happ.
  rewrite bind_eq, GetInstance_fresh by done. fold ms.
  destruct (bool_decide_reflect (ms = [])) as [->|]; [|done].
  by rewrite fetch_state_nil.
Qed.

(** ** Well-formedness is preserved *)

Lemma lookup_update_snoc (o : list Instance) p v' w l x :
  (<[p := v']> o ++ [w]) !! l = Some x →
  (l = p ∧ x = v' ∧ (p < length o)%nat) ∨ (l ≠ p ∧ o !! l = Some x)
  ∨ (l = length o ∧ x = w).
Proof.
  intros H. destruct (decide (l < length o)%nat) as [Hlt|Hge].
  - rewrite lookup_app_l in H by (by rewrite length_insert).
    destruct (decide (l = p)) as [->|Hne].
    + rewrite list_lookup_insert_eq in H by done. left. by simplify_eq.
    + rewrite list_lookup_insert_ne in H by done. right. by left.
  - rewrite lookup_app_r in H by (rewrite length_insert; lia).
    rewrite length_insert in H.
    destruct (l - length o)%nat as [|n] eqn:E; simpl in H; [|done].
    right. right. split; [lia | by simplify_eq].
Qed.

Lemma lookup_update_snoc_old (o : list Instance) p v' w l v :
  o !! l = Some v →
  (<[p := v']> o ++ [w]) !! l = Some (if decide (l = p) then v' else v).
Proof.
  intros H. pose proof (lookup_lt_Some _ _ _ H) as Hlt.
  rewrite lookup_app_l by (by rewrite length_insert).
  destruct (decide (l = p)) as [->|Hne].
  - by rewrite list_lookup_insert_eq.
  - by rewrite list_lookup_insert_ne.
Qed.

Lemma wf_intro s s' :
  wf s →
  (∀ k h l, stored s' k h l →
     stored s k h l
     ∨ ∃ v, objs s' !! l = Some v ∧ getKey (AppId v) (Env v) = k ∧ Hostname v = h) →
  (∀ l v, objs s !! l = Some v →
     ∃ v', objs s' !! l = Some v'
           ∧ Env v' = Env v ∧ AppId v' = AppId v ∧ Hostname v' = Hostname v) →
  (∀ l v, objs s' !! l = Some v → (Addrs v < length (arrs s'))%nat) →
  wf s'.
Proof.
  intros [Hst Ha] H1 H2 H3. split; [|done].
  intros k h l Hs. destruct (H1 k h l Hs) as [Hold|Hnew]; [|done].
  destruct (Hst k h l Hold) as (v & Hv & Hk & Hh).
  destruct (H2 l v Hv) as (v' & Hv' & He & Hi & Hn).
  exists v'. by rewrite He, Hi, Hn.
Qed.

Lemma wf_NewRegistry : wf NewRegistry.
Proof.
  split.
  - intros k h l (app & Happ & _). simpl in Happ. by rewrite lookup_empty in Happ.
  - intros l v H. simpl in H. by rewrite lookup_nil in H.
Qed.

Lemma wf_live s k app :
  wf s → apps s !! k = Some app → live s (map_to_list (instances app)).
Proof.
  intros [Hst Ha] Happ [h l] Hin. apply elem_of_map_to_list in Hin.
  destruct (Hst k h l) as (v & Hv & _); [by exists app|].
  exists v. split; [done | by eapply Ha].
Qed.

Lemma wf_copy_state s v :
  wf s → (Addrs v < length (arrs s))%nat → wf (copy_state v s).
Proof.
  intros Hwf Hv. apply (wf_intro s); [done| | |].
  - intros k h l Hs. by left.
  - intros l w Hw. exists w. simpl.
    lookup_old.
  - intros l w Hw. simpl in *. rewrite length_app. simpl.
    apply lookup_app_Some in Hw as [Hw|[_ Hw]].
    + pose proof (wf_addrs _ Hwf _ _ Hw). lia.
    + destruct (l - length (objs s))%nat; simpl in Hw; [|done].
      simplify_eq. simpl. lia.
Qed.

Lemma wf_fetch_state s ms :
  wf s → (∀ v, v ∈ ms → (Addrs v < length (arrs s))%nat) →
  wf (fetch_state ms s).
Proof.
  intros Hwf Hms. apply (wf_intro s); [done| | |].
  - intros k h l Hs. by left.
  - intros l w Hw. exists w. simpl.
    lookup_old.
  - intros l w Hw. simpl in *. rewrite length_app, length_fmap.
    apply lookup_app_Some in Hw as [Hw|[_ Hw]].
    + pose proof (wf_addrs _ Hwf _ _ Hw). lia.
    + apply list_lookup_imap_Some in Hw as (x & Hx & ->). simpl.
      apply lookup_lt_Some in Hx. lia.
Qed.

Lemma wf_update_snoc s p v' w a v :
  wf s → objs s !! p = Some v →
  Env v' = Env v → AppId v' = AppId v → Hostname v' = Hostname v →
  Addrs v' = Addrs v → (Addrs w < length (arrs s))%nat →
  (∀ k h l, stored (mkState a (<[p := v']> (objs s) ++ [w]) (arrs s)) k h l →
     stored s k h l
     ∨ ∃ x, (<[p := v']> (objs s) ++ [w]) !! l = Some x
            ∧ getKey (AppId x) (Env x) = k ∧ Hostname x = h) →
  wf (mkState a (<[p := v']> (objs s) ++ [w]) (arrs s)).
Proof.
  intros Hwf Hp He Hi Hn Had Hw Hst. apply (wf_intro s); [done|done| |].
  - intros l x Hx. simpl. rewrite (lookup_update_snoc_old _ _ _ _ _ _ Hx).
    destruct (decide (l = p)) as [->|]; [|by exists x].
    exists v'. assert (x = v) by congruence. by subst.
  - intros l x Hx. simpl in *.
    apply lookup_update_snoc in Hx as [(-> & -> & _)|[[_ Hx]|[_ ->]]].
    + rewrite Had. by eapply wf_addrs.
    + by eapply wf_addrs.
    + done.
Qed.

Lemma stored_Cancel_state key h app p v t s k' h' l' :
  apps s !! key = Some app →
  stored (Cancel_state key h app p v t s) k' h' l'
  ↔ stored s k' h' l' ∧ (k', h') ≠ (key, h).
Proof.
  intros Happ. unfold stored, Cancel_state. simpl.
  destruct (Nat.eqb_spec (size (delete h (instances app))) 0) as [Hz|Hnz].
  - apply map_size_empty_iff in Hz. split.
    + intros (a & Ha & Hl). apply lookup_delete_Some in Ha as [Hne Ha].
      split; [by exists a | congruence].
    + intros [(a & Ha & Hl) Hne]. destruct (decide (k' = key)) as [->|Hk].
      * assert (a = app) by congruence. subst a.
        assert (h' ≠ h) by congruence.
        assert (delete h (instances app) !! h' = Some l') as Hd
          by (by rewrite lookup_delete_ne).
        rewrite Hz, lookup_empty in Hd. done.
      * exists a. by rewrite lookup_delete_ne.
  - split.
    + intros (a & Ha & Hl). destruct (decide (k' = key)) as [->|Hk].
      * rewrite lookup_insert_eq in Ha. simplify_eq. simpl in Hl.
        apply lookup_delete_Some in Hl as [Hne Hl].
        split; [by exists app | congruence].
      * rewrite lookup_insert_ne in Ha by done.
        split; [by exists a | congruence].
    + intros [(a & Ha & Hl) Hne]. destruct (decide (k' = key)) as [->|Hk].
      * assert (a = app) by congruence. subst a.
        assert (h' ≠ h) by congruence.
        eexists. rewrite lookup_insert_eq. split; [done|]. simpl.
        by rewrite lookup_delete_ne.
      * exists a. by rewrite lookup_insert_ne.
Qed.

Lemma wf_Cancel_state key h app p v t s :
  wf s → apps s !! key = Some app → objs s !! p = Some v →
  wf (Cancel_state key h app p v t s).
Proof.
  intros Hwf Happ Hp. unfold Cancel_state.
  eapply wf_update_snoc; try done.
  - simpl. by eapply wf_addrs.
  - intros k' h' l' Hs. left.
    by apply (stored_Cancel_state key h app p v t s k' h' l' Happ) in Hs as [? _].
Qed.

Lemma wf_Renew_state p v now s :
  wf s → objs s !! p = Some v → wf (Renew_state p v now s).
Proof.
  intros Hwf Hp. unfold Renew_state. apply wf_copy_state.
  - apply (wf_intro s); [done| | |].
    + intros k h l Hs. by left.
    + intros l w Hw. simpl. destruct (decide (l = p)) as [->|Hne].
      * rewrite list_lookup_insert_eq by (by eapply lookup_lt_Some).
        eexists. split; [done|]. assert (w = v) by congruence. by subst.
      * rewrite list_lookup_insert_ne by done. by exists w.
    + intros l w Hw. simpl in *. destruct (decide (l = p)) as [->|Hne].
      * rewrite list_lookup_insert_eq in Hw by (by eapply lookup_lt_Some).
        simplify_eq. simpl. by eapply wf_addrs.
      * rewrite list_lookup_insert_ne in Hw by done. by eapply wf_addrs.
  - simpl. by eapply wf_addrs.
Qed.

Lemma app_of_stored s i h l :
  instances (app_of s i) !! h = Some l →
  stored s (getKey (AppId i) (Env i)) h l.
Proof.
  unfold app_of. destruct (apps s !! getKey (AppId i) (Env i)) as [app|] eqn:E.
  - intros H. by exists app.
  - simpl. by rewrite lookup_empty.
Qed.

Lemma stored_Register s key app0 hv q t o r k h l :
  stored (mkState (<[key := Register_app app0 hv q t]> (apps s)) o r) k h l →
  (k = key ∧ h = hv ∧ l = q) ∨ (k = key ∧ instances app0 !! h = Some l)
  ∨ (k ≠ key ∧ stored s k h l).
Proof.
  intros (a & Ha & Hl). simpl in Ha. destruct (decide (k = key)) as [->|Hk].
  - rewrite lookup_insert_eq in Ha. simplify_eq. simpl in Hl.
    destruct (decide (h = hv)) as [->|Hh].
    + rewrite lookup_insert_eq in Hl. left. by simplify_eq.
    + rewrite lookup_insert_ne in Hl by done. right. by left.
  - rewrite lookup_insert_ne in Ha by done. right. right. split; [done|].
    by exists a.
Qed.

Lemma wf_Register_new s p t i :
  wf s → objs s !! p = Some i →
  wf (mkState
        (<[getKey (AppId i) (Env i)
           := Register_app (app_of s i) (Hostname i) p t]> (apps s))
        (objs s ++ [i]) (arrs s)).
Proof.
  intros Hwf Hp.
  rewrite <- (list_insert_id (objs s) p i Hp) at 1.
  eapply wf_update_snoc; try done.
  - by eapply wf_addrs.
  - intros k h l Hs.
    apply stored_Register in Hs as [(-> & -> & ->)|[[-> Hs]|[_ Hs]]].
    + right. exists i. split; [|done].
      rewrite (lookup_update_snoc_old _ _ _ _ _ _ Hp). by rewrite decide_True.
    + left. by apply app_of_stored.
    + by left.
Qed.

Lemma wf_Register_existing s p t i l0 a :
  wf s → objs s !! p = Some i →
  instances (app_of s i) !! Hostname i = Some l0 →
  objs s !! l0 = Some a →
  let i' := set_UpTimestamp (UpTimestamp a) i in
  let stale := DirtyTimestamp i <? DirtyTimestamp a in
  let q := if stale then l0 else p in
  let v := if stale then a else i' in
  wf (mkState
        (<[getKey (AppId i) (Env i)
           := Register_app (app_of s i) (Hostname v) q t]> (apps s))
        (<[p := i']> (objs s) ++ [v]) (arrs s)).
Proof.
  intros Hwf Hp Hh Ha i' stale q v.
  pose proof (app_of_stored _ _ _ _ Hh) as Hs0.
  destruct (wf_stored _ Hwf _ _ _ Hs0) as (a' & Ha' & Hka & Hha).
  assert (a' = a) by congruence. subst a'.
  eapply wf_update_snoc; try done.
  - unfold v. destruct stale; [by eapply wf_addrs|]. simpl. by eapply wf_addrs.
  - intros k h l Hs.
    apply stored_Register in Hs as [(-> & -> & ->)|[[-> Hs]|[_ Hs]]].
    + right. unfold q, v. destruct stale eqn:Es.
      * exists a. split; [|done].
        rewrite (lookup_update_snoc_old _ _ _ _ _ _ Ha).
        destruct (decide (l0 = p)) as [->|]; [|done].
        assert (a = i) by congruence. subst a. unfold stale in Es.
        by rewrite Z.ltb_irrefl in Es.
      * exists i'. split; [|done].
        rewrite (lookup_update_snoc_old _ _ _ _ _ _ Hp). by rewrite decide_True.
    + left. by apply app_of_stored.
    + by left.
Qed.

(** ** The scan of the eviction pass *)

Section Eviction.

(** The time of the pass and the sequence of its random draws. *)
Context (now : Z) (rnd : nat → nat).

Lemma valid_snoc s l vs : valid s l → valid (set_objs (λ o, o ++ vs) s) l.
Proof.
  unfold valid. intros H. eapply Forall_impl; [exact H|].
  intros hp [v Hv]. exists v. simpl.
  lookup_old.
Qed.

Lemma values_cons s hp l v :
  objs s !! hp.2 = Some v → values s (hp :: l) = v :: values s l.
Proof. intros Hv. unfold values. csimpl. by rewrite Hv. Qed.

Lemma values_snoc s l vs :
  valid s l → values (set_objs (λ o, o ++ vs) s) l = values s l.
Proof.
  unfold valid. induction 1 as [|hp l [v Hv] _ IH]; [done|].
  rewrite (values_cons _ _ _ v), (values_cons s _ _ v), IH; [done..|].
  simpl. lookup_old.
Qed.

Lemma values_length s l : valid s l → length (values s l) = length l.
Proof.
  unfold valid. induction 1 as [|hp l [v Hv] _ IH]; [done|].
  rewrite (values_cons _ _ _ v) by done. simpl. by rewrite IH.
Qed.

Lemma values_lookup s l j hp :
  valid s l → l !! j = Some hp → values s l !! j = objs s !! hp.2.
Proof.
  unfold valid. intros Hv. revert j.
  induction Hv as [|x l [v Hx] _ IH]; intros j Hj; [done|].
  rewrite (values_cons _ _ _ v) by done.
  destruct j as [|j]; simpl in *; [by simplify_eq | by apply IH].
Qed.

Lemma set_objs_snoc_snoc s (vs ws : list Instance) :
  set_objs (λ o, o ++ ws) (set_objs (λ o, o ++ vs) s)
  = set_objs (λ o, o ++ (vs ++ ws)) s.
Proof. unfold set_objs. simpl. by rewrite app_assoc. Qed.

Lemma GetAllInstances_loop_eq l : ∀ rs s,
  valid s l →
  GetAllInstances_loop l rs s
  = Done (rs ++ seq (length (objs s)) (length l))
      (set_objs (λ o, o ++ values s l) s).
Proof.
  induction l as [|[h p] l IH]; intros rs s Hv.
  - simpl. unfold mret, M_ret, set_objs. simpl. rewrite !app_nil_r. by destruct s.
  - apply Forall_cons in Hv as [[v Hp] Hv]. simpl in Hp.
    cbn [GetAllInstances_loop].
    rewrite (bind_Done _ _ _ _ _ (deref_Some _ _ _ Hp)).
    unfold mbind at 1, M_bind at 1, new_Instance at 1.
    fold (set_objs (λ o, o ++ [v]) s).
    rewrite IH by (by apply valid_snoc).
    rewrite values_snoc, set_objs_snoc_snoc by done.
    rewrite (values_cons s _ _ v) by done.
    simpl. rewrite length_app. simpl. rewrite <- app_assoc. simpl.
    f_equal. f_equal. f_equal. f_equal. lia.
Qed.

Lemma evict_instances_eq all : ∀ es s,
  Forall (λ q, is_Some (objs s !! q)) all →
  evict_instances now all es s
  = Done (es ++ filter (λ q, expired_at now s q = true) all) s.
Proof.
  induction all as [|q all IH]; intros es s Hall.
  - simpl. by rewrite app_nil_r.
  - apply Forall_cons in Hall as [[v Hq] Hall]. cbn [evict_instances].
    rewrite (bind_Done _ _ _ _ _ (deref_Some _ _ _ Hq)).
    assert (Hx : expired_at now s q = expired now v)
      by (unfold expired_at; by rewrite Hq).
    destruct (expired now v) eqn:E.
    + rewrite IH, filter_cons_True by done. by rewrite <- app_assoc.
    + rewrite IH, filter_cons_False by (done || congruence). done.
Qed.

Lemma copy_of_app s0 o o' e ent : copy_of s0 o e ent → copy_of s0 (o ++ o') e ent.
Proof.
  intros (Hle & [v Hv] & He). split; [done|]. split; [by exists v|].
  rewrite lookup_app_l; [done|]. rewrite Hv in He. by eapply lookup_lt_Some.
Qed.

Lemma entries_of_cons k app l :
  entries_of ((k, app) :: l)
  = ((λ hp, (k, hp.1, hp.2)) <$> map_to_list (instances app)) ++ entries_of l.
Proof. reflexivity. Qed.

Lemma prefix_valid s0 s l :
  objs s0 `prefix_of` objs s → valid s0 l → valid s l.
Proof.
  unfold valid. intros Hpre Hv. eapply Forall_impl; [exact Hv|].
  intros hp [v Hhp]. exists v. by eapply prefix_lookup_Some.
Qed.

Lemma prefix_values s0 s l :
  objs s0 `prefix_of` objs s → valid s0 l → values s l = values s0 l.
Proof.
  intros [k Hk] Hv. unfold valid in Hv.
  induction Hv as [|hp l [v Hhp] _ IH]; [done|].
  rewrite (values_cons s _ _ v), (values_cons s0 _ _ v), IH; [done..|].
  rewrite Hk. lookup_old.
Qed.

Lemma evict_scan_spec s0 l : ∀ N es s,
  objs s0 `prefix_of` objs s →
  Forall (λ ka, valid s0 (map_to_list (instances ka.2))) l →
  ∃ new cs,
    evict_scan now l N es s
    = Done ((N + length (entries_of l))%nat, es ++ new)
        (set_objs (λ o, o ++ cs) s)
    ∧ Forall2 (copy_of s0 (objs s ++ cs)) new
        (filter (λ ent, expired_at now s0 ent.2 = true) (entries_of l))
    ∧ Forall (λ c, ∃ p, objs s0 !! p = Some c) cs.
Proof.
  induction l as [|[k app] l IH]; intros N es s Hpre Hl.
  - exists [], []. split; [|split].
    + simpl. unfold mret, M_ret, set_objs. simpl. rewrite !app_nil_r.
      rewrite Nat.add_0_r. by destruct s.
    + constructor.
    + constructor.
  - apply Forall_cons in Hl as [Hv Hl]. simpl in Hv.
    set (L := map_to_list (instances app)) in *.
    cbn [evict_scan]. unfold GetAllInstances. fold L.
    pose proof (prefix_valid _ _ _ Hpre Hv) as Hvs.
    rewrite bind_eq, GetAllInstances_loop_eq by done. simpl List.app.
    rewrite (prefix_values s0 s) by done.
    set (s1 := set_objs (λ o, o ++ values s0 L) s).
    assert (Hcopies : Forall2 (copy_of s0 (objs s1))
                        (seq (length (objs s)) (length L))
                        ((λ hp, (k, hp.1, hp.2)) <$> L)).
    { apply Forall2_same_length_lookup_2.
      { by rewrite length_seq, length_fmap. }
      intros j e ent He Hent.
      apply lookup_seq in He as [-> Hj].
      rewrite list_lookup_fmap in Hent.
      destruct (L !! j) as [hp|] eqn:Ehp; simpl in Hent; [|done].
      simplify_eq. simpl.
      pose proof (proj1 (Forall_lookup _ _) Hv j hp Ehp) as Hsome.
      split; [|split; [done|]].
      - apply prefix_length in Hpre. lia.
      - simpl. rewrite lookup_app_r by lia.
        replace (length (objs s) + j - length (objs s))%nat with j by lia.
        by apply values_lookup. }
    rewrite bind_eq, evict_instances_eq.
    2:{ apply Forall_forall. intros e He. apply list_elem_of_lookup in He as [j He].
        destruct (Forall2_lookup_l _ _ _ _ _ Hcopies He) as (ent & _ & _ & [v Hv'] & Hc).
        exists v. by rewrite Hc. }
    destruct (IH (N + length (seq (length (objs s)) (length L)))%nat
                (es ++ filter (λ q, expired_at now s1 q = true)
                         (seq (length (objs s)) (length L))) s1)
      as (new2 & cs2 & Hrun & Hrel & Hcs); [|done|].
    { simpl. by apply prefix_app_r. }
    rewrite Hrun.
    exists (filter (λ q, expired_at now s1 q = true)
              (seq (length (objs s)) (length L)) ++ new2), (values s0 L ++ cs2).
    split; [|split].
    + unfold s1. rewrite set_objs_snoc_snoc, entries_of_cons.
      rewrite length_seq, length_app, length_fmap, <- app_assoc.
      fold L. by rewrite Nat.add_assoc.
    + rewrite entries_of_cons, filter_app. apply Forall2_app.
      * eapply Forall2_impl.
        -- apply Forall2_filter; [|exact Hcopies].
           intros e ent (_ & _ & Hc). unfold expired_at. by rewrite Hc.
        -- intros e ent Hc. rewrite app_assoc. by apply copy_of_app.
      * by rewrite app_assoc.
    + apply Forall_app. split; [|done].
      apply Forall_forall. intros c Hc. unfold values in Hc.
      apply list_elem_of_omap in Hc as (hp & _ & Hc). by exists hp.2.
Qed.

(** ** Counting instances *)

Lemma elem_of_entries s k h l : (k, h, l) ∈ entries s ↔ stored s k h l.
Proof.
  unfold entries, entries_of, stored. rewrite list_elem_of_bind. split.
  - intros ([k' app] & Hin & Hka). apply list_elem_of_fmap in Hin as ([h' l'] & Heq & Hin).
    simpl in *. simplify_eq.
    apply elem_of_map_to_list in Hka, Hin. by exists app.
  - intros (app & Ha & Hl). exists (k, app). split.
    + apply list_elem_of_fmap. exists (h, l). split; [done|].
      by apply elem_of_map_to_list.
    + by apply elem_of_map_to_list.
Qed.

Lemma NoDup_entries s : NoDup (entries s).
Proof.
  unfold entries, entries_of. apply NoDup_bind.
  - intros [k1 a1] [k2 a2] [[k h] l] H1 H2 Hy1 Hy2.
    apply list_elem_of_fmap in Hy1 as (? & ? & _), Hy2 as (? & ? & _).
    simpl in *. simplify_eq.
    apply elem_of_map_to_list in H1, H2. congruence.
  - intros [k a] _. simpl. apply NoDup_fmap_2_strong; [|apply NoDup_map_to_list].
    intros [h1 l1] [h2 l2] _ _ Heq. simpl in Heq. by simplify_eq.
  - apply NoDup_map_to_list.
Qed.

Lemma entries_functional s k h l1 l2 :
  (k, h, l1) ∈ entries s → (k, h, l2) ∈ entries s → l1 = l2.
Proof.
  rewrite !elem_of_entries. intros (a1 & Ha1 & Hl1) (a2 & Ha2 & Hl2). congruence.
Qed.

Lemma entries_of_length l :
  length (entries_of l) = sum_list_with (λ ka, size (instances ka.2)) l.
Proof.
  induction l as [|[k a] l IH]; [done|].
  rewrite entries_of_cons, length_app, length_fmap, length_map_to_list. simpl.
  by rewrite IH.
Qed.

Lemma total_delete s key app :
  apps s !! key = Some app →
  total s = (size (instances app)
             + length (entries_of (map_to_list (delete key (apps s)))))%nat.
Proof.
  intros Happ. unfold total, entries.
  rewrite !entries_of_length.
  rewrite <- (map_to_list_delete _ _ _ Happ). reflexivity.
Qed.

Lemma total_Cancel_state key h app p v t s :
  apps s !! key = Some app → instances app !! h = Some p →
  (total (Cancel_state key h app p v t s) + 1 = total s)%nat.
Proof.
  intros Happ Hh. rewrite (total_delete s key app Happ).
  assert (Hsz : size (delete h (instances app)) = pred (size (instances app)))
    by (by apply map_size_delete_Some).
  assert (Hpos : size (instances app) ≠ 0%nat).
  { apply map_size_non_empty_iff. intros He. by rewrite He, lookup_empty in Hh. }
  unfold total, entries, Cancel_state. simpl.
  destruct (Nat.eqb_spec (size (delete h (instances app))) 0) as [Hz|Hnz].
  - lia.
  - rewrite <- insert_delete_eq, !entries_of_length.
    rewrite map_to_list_insert by apply lookup_delete_eq. simpl.
    rewrite <- entries_of_length. lia.
Qed.

Lemma nonempty_Cancel_state key h app p v t s :
  nonempty s → nonempty (Cancel_state key h app p v t s).
Proof.
  intros Hne k a. unfold Cancel_state; simpl.
  destruct (Nat.eqb_spec (size (delete h (instances app))) 0) as [Hz|Hnz].
  - intros [_ Ha]%lookup_delete_Some. by eapply Hne.
  - destruct (decide (k = key)) as [->|Hk].
    + rewrite lookup_insert_eq. intros [= <-]. simpl.
      by apply map_size_non_empty_iff.
    + rewrite lookup_insert_ne by done. apply Hne.
Qed.

(** ** The loop of the eviction pass *)

Lemma pending_Permutation L0 s PV PV' :
  PV ≡ₚ PV' → pending L0 s PV → pending L0 s PV'.
Proof.
  intros Hp (H1 & H2 & H3 & H4). split; [done|]. split; [done|].
  split; by rewrite <- Hp.
Qed.

Lemma pending_Cancel L0 s ev PV env appid h t app p w :
  pending L0 s (ev :: PV) →
  key_of ev.2 = (getKey appid env, h) →
  apps s !! getKey appid env = Some app →
  instances app !! h = Some p →
  objs s !! p = Some w →
  pending L0 (Cancel_state (getKey appid env) h app p w t s) PV.
Proof.
  intros (H1 & H2 & H3 & H4) Hk Happ Hh Hp.
  apply Forall_cons in H3 as [_ H3].
  rewrite fmap_cons in H4. apply NoDup_cons in H4 as [Hnin H4].
  assert (Hplt : (p < L0)%nat) by (apply (H1 (getKey appid env) h); by exists app).
  split; [|split; [|split; [|done]]].
  - intros k' h' p' Hs. apply stored_Cancel_state in Hs as [Hs _]; [|done].
    by eapply H1.
  - simpl. rewrite length_app, length_insert. lia.
  - apply Forall_forall. intros ev' Hin.
    destruct (proj1 (Forall_forall _ _) H3 ev' Hin) as (Hle & Hv & q & Hq).
    split; [done|]. split.
    + simpl. rewrite (lookup_update_snoc_old _ _ _ _ _ _ Hv).
      rewrite decide_False by lia. done.
    + exists q. apply stored_Cancel_state; [done|]. split; [done|].
      intros Heq. apply Hnin. apply list_elem_of_fmap. exists ev'. split; [|done].
      rewrite Hk. destruct (key_of ev'.2). simpl in *. congruence.
Qed.

Lemma evict_loop_spec L0 n : ∀ done PV s,
  (n ≤ length PV)%nat → pending L0 s PV →
  ∃ rs s',
    evict_loop now rnd n (length done) (done ++ PV.*1) s = Done rs s'
    ∧ length rs = n ∧ Forall cancelled rs
    ∧ (total s' + n = total s)%nat
    ∧ (wf s → wf s') ∧ (nonempty s → nonempty s')
    ∧ arrs s' = arrs s
    ∧ (∀ k h p, stored s' k h p → stored s k h p).
Proof.
  induction n as [|n IH]; intros dn PV s Hn Hpend.
  - exists [], s. simpl. split; [done|]. split; [done|]. split; [constructor|].
    split; [lia|]. done.
  - cbn [evict_loop].
    assert (Hlen : (length (dn ++ PV.*1) - length dn = length PV)%nat).
    { rewrite length_app, length_fmap. lia. }
    rewrite Hlen. destruct (length PV) as [|m] eqn:Hm; [lia|].
    unfold Intn. rewrite bind_eq. unfold mret at 1, M_ret at 1.
    set (k := (rnd (length dn) mod S m)%nat).
    assert (Hk : (k < length PV)%nat) by (rewrite Hm; apply Nat.mod_upper_bound; lia).
    destruct (lookup_lt_is_Some_2 PV 0 ltac:(lia)) as [ev0 Hev0].
    destruct (lookup_lt_is_Some_2 PV k Hk) as [evk Hevk].
    assert (Hi0 : (dn ++ PV.*1) !! length dn = Some ev0.1).
    { rewrite lookup_app_r, Nat.sub_diag, list_lookup_fmap, Hev0 by lia. done. }
    assert (Hik : (dn ++ PV.*1) !! (length dn + k)%nat = Some evk.1).
    { rewrite lookup_app_r by lia.
      replace (length dn + k - length dn)%nat with k by lia.
      by rewrite list_lookup_fmap, Hevk. }
    unfold swap, index. rewrite bind_eq, bind_eq, Hi0. simpl.
    rewrite bind_eq, Hik. simpl. unfold mret at 1, M_ret at 1.
    set (PV' := <[k := ev0]> (<[0%nat := evk]> PV)).
    assert (Hes : <[(length dn + k)%nat := ev0.1]> (<[length dn := evk.1]> (dn ++ PV.*1))
                  = dn ++ PV'.*1).
    { rewrite (insert_app_r_alt dn (PV.*1) (length dn)) by lia.
      rewrite Nat.sub_diag, insert_app_r. unfold PV'.
      by rewrite !list_fmap_insert. }
    rewrite Hes.
    assert (Hperm : PV ≡ₚ PV') by (symmetry; by apply Permutation_insert_swap).
    assert (Hhd : PV' !! 0%nat = Some evk).
    { unfold PV'. destruct (decide (k = 0%nat)) as [Hz|Hz].
      - rewrite Hz in *. rewrite list_lookup_insert_eq by (rewrite length_insert; lia).
        congruence.
      - rewrite list_lookup_insert_ne by done.
        by rewrite list_lookup_insert_eq by lia. }
    destruct PV' as [|ev rest] eqn:EPV; [done|]. simpl in Hhd. simplify_eq.
    pose proof (pending_Permutation _ _ _ _ Hperm Hpend) as Hpend'.
    destruct Hpend' as (H1 & H2 & H3 & H4).
    pose proof (Forall_inv H3) as (Hle & Hv & p & app & Happ & Hh).
    assert (Hidx : (dn ++ (evk :: rest).*1) !! length dn = Some evk.1).
    { by rewrite lookup_app_r, Nat.sub_diag by lia. }
    rewrite bind_eq, Hidx. simpl.
    rewrite (bind_Done _ _ _ _ _ (deref_Some _ _ _ Hv)).
    assert (Hplt : (p < length (objs s))%nat).
    { assert (p < L0)%nat by (eapply H1; by exists app). lia. }
    destruct (lookup_lt_is_Some_2 _ _ Hplt) as [w Hw].
    rewrite (bind_Done _ _ _ _ _ (Cancel_stored _ _ _ _ now _ _ _ Happ Hh Hw)).
    set (s1 := Cancel_state _ _ _ _ _ _ _).
    assert (Hpend1 : pending L0 s1 rest).
    { eapply pending_Cancel; [|reflexivity|done..]. by repeat split. }
    destruct (IH (dn ++ [evk.1]) rest s1) as (rs & s' & Hrun & Hrs & Hc & Ht & Hwf & Hne & Har & Hst).
    { apply Permutation_length in Hperm. simpl in Hperm. lia. }
    { done. }
    rewrite length_app in Hrun. simpl in Hrun.
    rewrite Nat.add_1_r, <- app_assoc in Hrun. simpl in Hrun.
    exists ((Some (length (objs s)), None) :: rs), s'.
    split; [by rewrite (bind_Done _ _ _ _ _ Hrun)|].
    split; [simpl; lia|]. split.
    { constructor; [|done]. split; [by eexists | done]. }
    assert (Ht1 : (total s1 + 1 = total s)%nat)
      by (by apply total_Cancel_state).
    split; [lia|]. split.
    { intros Hwfs. apply Hwf. by apply wf_Cancel_state. }
    split.
    { intros Hnes. apply Hne. by apply nonempty_Cancel_state. }
    split; [by rewrite Har|].
    intros k' h' p' Hs. apply Hst in Hs.
    by apply stored_Cancel_state in Hs as [Hs _].
Qed.

(** ** The eviction pass *)

Lemma wf_snoc s cs :
  wf s → Forall (λ c, ∃ p, objs s !! p = Some c) cs →
  wf (set_objs (λ o, o ++ cs) s).
Proof.
  intros Hwf Hcs. apply (wf_intro s); [done| | |].
  - intros k h l Hs. by left.
  - intros l v Hv. exists v. simpl.
    lookup_old.
  - intros l v Hv. simpl in *. apply lookup_app_Some in Hv as [Hv|[_ Hv]].
    + by eapply wf_addrs.
    + apply list_elem_of_lookup_2 in Hv.
      destruct (proj1 (Forall_forall _ _) Hcs v Hv) as [p Hp].
      by eapply wf_addrs.
Qed.

Lemma wf_valid_apps s :
  wf s → Forall (λ ka, valid s (map_to_list (instances ka.2))) (map_to_list (apps s)).
Proof.
  intros Hwf. apply Forall_forall. intros [k a] Hka.
  apply elem_of_map_to_list in Hka. apply Forall_forall. intros [h p] Hhp.
  apply elem_of_map_to_list in Hhp.
  destruct (wf_stored _ Hwf k h p) as (v & Hv & _); [by exists a|]. by exists v.
Qed.

Lemma copies_values s o new ents :
  Forall2 (copy_of s o) new ents →
  ∃ PV, PV.*1 = new
        ∧ Forall2 (λ ev ent, (length (objs s) ≤ ev.1)%nat ∧ o !! ev.1 = Some ev.2
                             ∧ objs s !! ent.2 = Some ev.2) PV ents.
Proof.
  induction 1 as [|e ent new ents (Hle & [v Hv] & He) _ (PV & HPV & IH)].
  - by exists [].
  - exists ((e, v) :: PV). split; [by rewrite fmap_cons, HPV|].
    constructor; [|done]. simpl. by rewrite He.
Qed.

Lemma NoDup_expired_keys s :
  NoDup ((filter (λ ent, expired_at now s ent.2 = true) (entries s)).*1).
Proof.
  apply NoDup_fmap_fst.
  - intros [k h] l1 l2 [_ H1]%list_elem_of_filter [_ H2]%list_elem_of_filter.
    by eapply entries_functional.
  - apply NoDup_filter, NoDup_entries.
Qed.

Lemma total_apps s s' : apps s' = apps s → total s' = total s.
Proof. intros H. unfold total, entries. by rewrite H. Qed.

Lemma evict_spec s :
  wf s →
  ∃ rs s',
    evict now rnd s = Done rs s'
    ∧ Z.of_nat (length rs)
      = Z.max 0 (Z.min (Z.of_nat (expired_total now s))
                   (evictionLimit (Z.of_nat (total s))))
    ∧ Forall cancelled rs
    ∧ (total s' + length rs = total s)%nat
    ∧ wf s' ∧ (nonempty s → nonempty s').
Proof.
  intros Hwf. unfold evict, getAllApplications.
  unfold mbind at 1, M_bind at 1, gets at 1.
  destruct (evict_scan_spec s (map_to_list (apps s)) 0 [] s)
    as (new & cs & Hscan & Hrel & Hcs); [done | by apply wf_valid_apps |].
  rewrite bind_eq, Hscan. simpl.
  fold (entries s). fold (total s).
  destruct (copies_values _ _ _ _ Hrel) as (PV & HPV & Hvals).
  set (s1 := set_objs (λ o, o ++ cs) s).
  assert (Hwf1 : wf s1) by (by apply wf_snoc).
  assert (Hlen : length new = expired_total now s).
  { unfold expired_total. by eapply Forall2_length. }
  assert (Hkeys : Forall2 (λ ev ent, key_of ev.2 = ent.1 ∧ stored s ent.1.1 ent.1.2 ent.2)
                    PV (filter (λ ent, expired_at now s ent.2 = true) (entries s))).
  { apply Forall2_same_length_lookup_2; [by eapply Forall2_length|].
    intros j ev [[k h] p] Hev Hent.
    destruct (Forall2_lookup_lr _ _ _ _ _ _ Hvals Hev Hent) as (_ & _ & Hp).
    apply list_elem_of_lookup_2, list_elem_of_filter in Hent as [_ Hent].
    apply elem_of_entries in Hent.
    destruct (wf_stored _ Hwf _ _ _ Hent) as (v & Hv & Hk & Hh).
    simpl in *. split; [|done]. assert (v = ev.2) by congruence. subst v.
    unfold key_of. by rewrite Hk, Hh. }
  assert (Hpend : pending (length (objs s)) s1 PV).
  { split; [|split; [|split]].
    - intros k h p Hs. destruct (wf_stored _ Hwf k h p Hs) as (v & Hv & _).
      by eapply lookup_lt_Some.
    - simpl. rewrite length_app. lia.
    - apply Forall_lookup. intros j ev Hev.
      destruct (Forall2_lookup_l _ _ _ _ _ Hvals Hev) as (ent & Hent & Hle & Ho & Hp).
      destruct (Forall2_lookup_lr _ _ _ _ _ _ Hkeys Hev Hent) as (Hk & Hs).
      split; [done|]. split; [done|]. exists ent.2. by rewrite Hk.
    - assert (Heq : (λ ev, key_of ev.2) <$> PV
                    = (filter (λ ent, expired_at now s ent.2 = true) (entries s)).*1).
      { apply list_eq_Forall2, Forall2_fmap.
        eapply Forall2_impl; [exact Hkeys|]. by intros ev ent [? _]. }
      rewrite Heq. apply NoDup_expired_keys. }
  set (limit := evictionLimit (Z.of_nat (total s))).
  set (expiredLen := if Z.of_nat (length new) >? limit
                     then limit else Z.of_nat (length new)).
  assert (Hn : Z.of_nat (Z.to_nat expiredLen)
               = Z.max 0 (Z.min (Z.of_nat (expired_total now s)) limit)).
  { unfold expiredLen. rewrite Hlen.
    destruct (Z.gtb_spec (Z.of_nat (expired_total now s)) limit); lia. }
  destruct (evict_loop_spec (length (objs s)) (Z.to_nat expiredLen) [] PV s1)
    as (rs & s' & Hrun & Hrs & Hc & Ht & Hwf' & Hne & _ & _); [|done|].
  { rewrite <- (length_fmap fst), HPV. unfold expiredLen.
    destruct (Z.gtb_spec (Z.of_nat (length new)) limit); lia. }
  simpl in Hrun. rewrite HPV in Hrun.
  exists rs, s'. split.
  { destruct (Z.eqb_spec expiredLen 0) as [Hz|Hz]; [|done].
    rewrite Hz in Hrun. simpl in Hrun. done. }
  split; [by rewrite Hrs|]. split; [done|].
  rewrite (total_apps s s1) in Ht by done.
  split; [by rewrite Hrs|]. split; [by apply Hwf'|].
  intros Hnes. apply Hne. done.
Qed.

End Eviction.

(** ** Reachable states *)

Lemma new_caller_Instance_eq i addrs s :
  new_caller_Instance i addrs s
  = Done (length (objs s))
      (mkState (apps s) (objs s ++ [set_Addrs (length (arrs s)) i])
         (arrs s ++ [addrs])).
Proof. reflexivity. Qed.

Lemma wf_new_caller_Instance i addrs s :
  wf s →
  wf (mkState (apps s) (objs s ++ [set_Addrs (length (arrs s)) i])
        (arrs s ++ [addrs])).
Proof.
  intros Hwf. apply (wf_intro s); [done| | |].
  - intros k h l Hs. by left.
  - intros l v Hv. exists v. simpl.
    lookup_old.
  - intros l v Hv. simpl in *. rewrite length_app. simpl.
    apply lookup_app_Some in Hv as [Hv|[_ Hv]].
    + pose proof (wf_addrs _ Hwf _ _ Hv). lia.
    + destruct (l - length (objs s))%nat; simpl in Hv; [|done].
      simplify_eq. simpl. lia.
Qed.

(** What [Register] does in a well-formed state, whatever the case. *)
Lemma Register_cases s p t :
  wf s →
  Register p t s = Panic s
  ∨ ∃ app' s',
      Register p t s = Done (app', None) s' ∧ wf s'
      ∧ (∃ k, apps s' = <[k := app']> (apps s)) ∧ instances app' ≠ ∅
      ∧ latestTimestamp app' = t.
Proof.
  intros Hwf. destruct (objs s !! p) as [i|] eqn:Hp.
  2:{ left. by apply Register_nil. }
  right. destruct (instances (app_of s i) !! Hostname i) as [l0|] eqn:Hh.
  - destruct (wf_stored _ Hwf _ _ _ (app_of_stored _ _ _ _ Hh)) as (a & Ha & _).
    eexists _, _. split; [by apply (Register_existing s p t i l0 a)|].
    split; [by apply wf_Register_existing|].
    split; [by eexists|]. split; [apply insert_non_empty | done].
  - eexists _, _. split; [by apply Register_new|].
    split; [by apply wf_Register_new|].
    split; [by eexists|]. split; [apply insert_non_empty | done].
Qed.

Lemma Fetch_cases s env appid status t :
  wf s →
  ∃ o, Fetch env appid status t s = o
       ∧ wf (state_of o) ∧ apps (state_of o) = apps s.
Proof.
  intros Hwf. destruct (apps s !! getKey appid env) as [app|] eqn:Happ.
  2:{ eexists. split; [by apply Fetch_no_app|]. done. }
  destruct (Z.le_gt_cases (latestTimestamp app) t) as [Ht|Ht].
  { eexists. split; [by eapply Fetch_not_fresh|]. done. }
  pose proof (wf_live _ _ _ Hwf Happ) as Hl.
  eexists. split; [apply (Fetch_fresh _ _ _ _ _ app); [done | lia | done]|].
  destruct (bool_decide _); [done|]. simpl. split; [|done].
  apply wf_fetch_state; [done|]. intros v Hv. by eapply matching_addrs.
Qed.

Lemma Cancel_cases s env appid h t :
  wf s →
  Cancel env appid h t s = Done (None, Some ErrAppNotFound) s
  ∨ Cancel env appid h t s = Done (None, Some ErrInstanceNotFound) s
  ∨ ∃ app p v,
      apps s !! getKey appid env = Some app ∧ instances app !! h = Some p
      ∧ objs s !! p = Some v
      ∧ Cancel env appid h t s
        = Done (Some (length (objs s)), None)
            (Cancel_state (getKey appid env) h app p v t s).
Proof.
  intros Hwf. destruct (apps s !! getKey appid env) as [app|] eqn:Happ.
  2:{ left. by apply Cancel_no_app. }
  right. destruct (instances app !! h) as [p|] eqn:Hh.
  2:{ left. by eapply Cancel_no_instance. }
  right. destruct (wf_stored _ Hwf (getKey appid env) h p) as (v & Hv & _).
  { by exists app. }
  exists app, p, v. repeat split; try done. by apply Cancel_stored.
Qed.

Lemma Renew_cases s env appid h now :
  wf s →
  Renew env appid h now s = Done (None, Some ErrAppNotFound) s
  ∨ Renew env appid h now s = Done (None, Some ErrInstanceNotFound) s
  ∨ ∃ app p v,
      apps s !! getKey appid env = Some app ∧ instances app !! h = Some p
      ∧ objs s !! p = Some v
      ∧ Renew env appid h now s
        = Done (Some (length (objs s)), None) (Renew_state p v now s).
Proof.
  intros Hwf. destruct (apps s !! getKey appid env) as [app|] eqn:Happ.
  2:{ left. by apply Renew_no_app. }
  right. destruct (instances app !! h) as [p|] eqn:Hh.
  2:{ left. by eapply Renew_no_instance. }
  right. destruct (wf_stored _ Hwf (getKey appid env) h p) as (v & Hv & _).
  { by exists app. }
  exists app, p, v. repeat split; try done. by eapply Renew_stored.
Qed.

Create HintDb registry discriminated.

#[local] Hint Resolve wf_NewRegistry wf_new_caller_Instance wf_Cancel_state
  wf_Renew_state nonempty_Cancel_state : registry.

Lemma exec_invariant o s :
  wf s → nonempty s → wf (exec o s) ∧ nonempty (exec o s).
Proof.
  intros Hwf Hne. destruct o as [i addrs|p t|env appid status t|env appid h t
                               |env appid h now|now rnd]; cbn [exec].
  - rewrite new_caller_Instance_eq. simpl. auto with registry.
  - destruct (Register_cases s p t Hwf)
      as [->|(app' & s' & -> & Hwf' & [k Hk] & Hne' & _)]; [done|].
    simpl. split; [done|]. intros k' a. rewrite Hk.
    destruct (decide (k' = k)) as [->|Hkk].
    + rewrite lookup_insert_eq. by intros [= <-].
    + rewrite lookup_insert_ne by done. apply Hne.
  - destruct (Fetch_cases s env appid status t Hwf) as (o & -> & Hwf' & Happs).
    split; [done|]. unfold nonempty. by rewrite Happs.
  - destruct (Cancel_cases s env appid h t Hwf)
      as [->|[->|(app & p & v & Happ & Hh & Hp & ->)]]; [done..|].
    simpl. auto with registry.
  - destruct (Renew_cases s env appid h now Hwf)
      as [->|[->|(app & p & v & Happ & Hh & Hp & ->)]]; [done..|].
    simpl. auto with registry.
  - destruct (evict_spec now rnd s Hwf) as (rs & s' & -> & _ & _ & _ & Hwf' & Hne').
    simpl. split; [done | by apply Hne'].
Qed.

Lemma reachable_invariant s : reachable s → wf s ∧ nonempty s.
Proof.
  induction 1 as [|o s _ [Hwf Hne]].
  - split; [auto with registry|]. intros k a H. simpl in H.
    by rewrite lookup_empty in H.
  - by apply exec_invariant.
Qed.

Lemma reachable_run ops : reachable (run ops).
Proof.
  unfold run. induction ops as [|o ops IH] using rev_ind.
  - constructor.
  - rewrite foldl_app. simpl. by constructor.
Qed.

(** ** The eviction cap in binary64 *)

Section Binary64.

Lemma iter_pos_nat {A} (f : A → A) p x :
  SpecFloat.iter_pos f p x = Nat.iter (Pos.to_nat p) f x.
Proof.
  revert x. induction p as [p IH|p IH|]; intros x; cbn [SpecFloat.iter_pos].
  - rewrite !IH, Pos2Nat.inj_xI.
    replace (S (2 * Pos.to_nat p)) with (Pos.to_nat p + S (Pos.to_nat p))%nat by lia.
    rewrite Nat.iter_add, Nat.iter_succ_r. reflexivity.
  - rewrite !IH, Pos2Nat.inj_xO.
    replace (2 * Pos.to_nat p)%nat with (Pos.to_nat p + Pos.to_nat p)%nat by lia.
    rewrite Nat.iter_add. reflexivity.
  - reflexivity.
Qed.

Lemma shr_1_nonneg m r s :
  0 ≤ m → shr_1 (Build_shr_record m r s) = Build_shr_record (m / 2) (Z.odd m) (r || s).
Proof.
  intros Hm. rewrite <- Z.div2_div.
  destruct m as [|[p|p|]|p]; simpl; try reflexivity; lia.
Qed.

Lemma iter_shr_1 m k :
  0 ≤ m →
  Nat.iter (S k) shr_1 (Build_shr_record m false false)
  = Build_shr_record (m / 2 ^ (Z.of_nat k + 1)) (Z.odd (m / 2 ^ Z.of_nat k))
      (negb (m mod 2 ^ Z.of_nat k =? 0)).
Proof.
  intros Hm. induction k as [|k IH].
  - unfold Nat.iter; cbn [nat_rect]. rewrite shr_1_nonneg by done. simpl Z.of_nat.
    rewrite Z.pow_0_r, Z.div_1_r, Z.mod_1_r. reflexivity.
  - rewrite Nat.iter_succ, IH. rewrite shr_1_nonneg by (apply Z.div_pos; lia).
    rewrite Nat2Z.inj_succ. unfold Z.succ.
    f_equal.
    + rewrite Z.div_div by lia. f_equal.
      rewrite (Z.pow_add_r 2 (Z.of_nat k + 1) 1) by lia. lia.
    + assert (E : 2 ^ (Z.of_nat k + 1) = 2 ^ Z.of_nat k * 2) by (rewrite Z.pow_add_r by lia; lia).
      rewrite E. rewrite Z.rem_mul_r by lia.
      pose proof (Z.mod_pos_bound m (2 ^ Z.of_nat k) ltac:(lia)) as Hb.
      pose proof (Zmod_odd (m / 2 ^ Z.of_nat k)) as Ho.
      destruct (Z.odd (m / 2 ^ Z.of_nat k)); simpl.
      * symmetry. apply negb_true_iff, Z.eqb_neq. lia.
      * rewrite Ho. f_equal. f_equal. lia.
Qed.

Lemma digits2_pos_bounds p :
  2 ^ (Zpos (digits2_pos p) - 1) ≤ Zpos p < 2 ^ Zpos (digits2_pos p).
Proof.
  induction p as [p IH|p IH|]; cbn [digits2_pos].
  - rewrite Pos2Z.inj_succ. unfold Z.succ.
    replace (Z.pos (digits2_pos p) + 1 - 1) with (Z.pos (digits2_pos p) - 1 + 1) by lia.
    rewrite !Z.pow_add_r by lia. lia.
  - rewrite Pos2Z.inj_succ. unfold Z.succ.
    replace (Z.pos (digits2_pos p) + 1 - 1) with (Z.pos (digits2_pos p) - 1 + 1) by lia.
    rewrite !Z.pow_add_r by lia. lia.
  - simpl. lia.
Qed.

Lemma digits2_pos_unique p d :
  2 ^ (d - 1) ≤ Zpos p < 2 ^ d → Zpos (digits2_pos p) = d.
Proof.
  intros [H1 H2]. pose proof (digits2_pos_bounds p) as [H3 H4].
  assert (0 < d).
  { destruct (Z.lt_ge_cases 0 d); [done|].
    destruct (Z.eq_dec d 0) as [->|]; [simpl in H2; lia|].
    rewrite Z.pow_neg_r in H2 by lia. lia. }
  assert (d - 1 < Zpos (digits2_pos p)).
  { apply (Z.pow_lt_mono_r_iff 2); lia. }
  assert (Zpos (digits2_pos p) - 1 < d).
  { apply (Z.pow_lt_mono_r_iff 2); lia. }
  lia.
Qed.

Lemma shr_pos m e n :
  0 ≤ m → 0 < n →
  shr (Build_shr_record m false false) e n
  = (Build_shr_record (m / 2 ^ n) (Z.odd (m / 2 ^ (n - 1)))
       (negb (m mod 2 ^ (n - 1) =? 0)), e + n).
Proof.
  intros Hm Hn. destruct n as [|p|p]; try lia. unfold shr.
  rewrite iter_pos_nat.
  destruct (Pos2Nat.is_succ p) as [k Hk]. rewrite Hk, iter_shr_1 by done.
  assert (Z.pos p = Z.of_nat k + 1) as -> by lia.
  replace (Z.of_nat k + 1 - 1) with (Z.of_nat k) by lia. reflexivity.
Qed.

Lemma round_shr_spec m n :
  0 ≤ m → 0 < n →
  m / 2 ^ n ≤ round_shr m n ≤ m / 2 ^ n + 1
  ∧ 2 * Z.abs (round_shr m n * 2 ^ n - m) ≤ 2 ^ n.
Proof.
  intros Hm Hn. unfold round_shr.
  assert (E : 2 ^ n = 2 ^ (n - 1) * 2).
  { replace n with (n - 1 + 1) at 1 by lia. rewrite Z.pow_add_r by lia. lia. }
  assert (Hh : 0 < 2 ^ (n - 1)) by (apply Z.pow_pos_nonneg; lia).
  pose proof (Z.div_mod m (2 ^ n) ltac:(lia)) as Hdm.
  assert (Hrem : m mod 2 ^ n
                 = m mod 2 ^ (n - 1) + 2 ^ (n - 1) * ((m / 2 ^ (n - 1)) mod 2)).
  { rewrite E at 1. apply Z.rem_mul_r; lia. }
  pose proof (Z.mod_pos_bound m (2 ^ (n - 1)) Hh) as Hlow.
  pose proof (Zmod_odd (m / 2 ^ (n - 1))) as Ho.
  set (q := m / 2 ^ n) in *. set (lo := m mod 2 ^ (n - 1)) in *.
  destruct (Z.odd (m / 2 ^ (n - 1))); destruct (Z.eqb_spec lo 0) as [Hz|Hz];
    cbn [negb loc_of_shr_record round_nearest_even].
  - destruct (Z.even q); split; lia.
  - split; lia.
  - split; lia.
  - split; lia.
Qed.

Lemma fexp_normal d : -1021 ≤ d → fexp prec emax d = d - 53.
Proof. intros. unfold fexp, emin, prec, emax. lia. Qed.

Lemma binary_round_aux_exact m e :
  Zpos (digits2_pos m) = 53 → -1074 ≤ e ≤ 971 →
  binary_round_aux prec emax false (Zpos m) e loc_Exact = S754_finite false m e.
Proof.
  intros Hd He. unfold binary_round_aux, shr_fexp.
  cbn [Zdigits2 shr_record_of_loc]. rewrite Hd, fexp_normal by lia.
  replace (53 + e - 53 - e) with 0 by lia.
  cbn [shr shr_m loc_of_shr_record round_nearest_even Zdigits2].
  rewrite Hd, fexp_normal by lia.
  replace (53 + e - 53 - e) with 0 by lia.
  cbn [shr shr_m shr_record_of_loc].
  unfold prec, emax. destruct (Z.leb_spec e (1024 - 53)); [done | lia].
Qed.

Lemma binary_round_aux_spec m e D :
  Zpos (digits2_pos m) = D → 53 < D → -1021 ≤ D + e → D + e < 1024 →
  ∃ mr er,
    binary_round_aux prec emax false (Zpos m) e loc_Exact = S754_finite false mr er
    ∧ e + (D - 53) ≤ er ≤ e + (D - 53) + 1
    ∧ Zpos mr * 2 ^ (er - e) = round_shr (Zpos m) (D - 53) * 2 ^ (D - 53).
Proof.
  intros Hd HD Hlo Hhi. unfold binary_round_aux, shr_fexp.
  cbn [Zdigits2 shr_record_of_loc]. rewrite Hd, fexp_normal by lia.
  replace (D + e - 53 - e) with (D - 53) by lia.
  rewrite shr_pos by lia. cbn [shr_m].
  fold (round_shr (Zpos m) (D - 53)).
  destruct (round_shr_spec (Zpos m) (D - 53)) as [[Hq1 Hq2] _]; [lia..|].
  pose proof (digits2_pos_bounds m) as [Hb1 Hb2]. rewrite Hd in Hb1, Hb2.
  assert (Hn : 0 < 2 ^ (D - 53)) by (apply Z.pow_pos_nonneg; lia).
  assert (E1 : 2 ^ (D - 1) = 2 ^ 52 * 2 ^ (D - 53)).
  { rewrite <- Z.pow_add_r by lia. f_equal. lia. }
  assert (E2 : 2 ^ D = 2 ^ 53 * 2 ^ (D - 53)).
  { rewrite <- Z.pow_add_r by lia. f_equal. lia. }
  assert (Hq : 2 ^ 52 ≤ Zpos m / 2 ^ (D - 53) < 2 ^ 53).
  { split.
    - apply Z.div_le_lower_bound; lia.
    - apply Z.div_lt_upper_bound; lia. }
  set (r := round_shr (Zpos m) (D - 53)) in *.
  destruct (Z.eq_dec r (2 ^ 53)) as [Hr|Hr].
  - rewrite Hr. change (Zdigits2 (2 ^ 53)) with 54.
    rewrite fexp_normal by lia.
    replace (54 + (e + (D - 53)) - 53 - (e + (D - 53))) with 1 by lia.
    cbn. unfold prec, emax.
    destruct (Z.leb_spec (e + (D - 53) + 1) (1024 - 53)); [|lia].
    eexists _, _. split; [reflexivity|]. split; [lia|].
    replace (e + (D - 53) + 1 - e) with (1 + (D - 53)) by lia.
    rewrite Z.pow_add_r by lia. lia.
  - destruct r as [|pr|pr] eqn:Er; try lia.
    assert (Hdr : Zpos (digits2_pos pr) = 53).
    { apply digits2_pos_unique. lia. }
    cbn [Zdigits2]. rewrite Hdr, fexp_normal by lia.
    replace (53 + (e + (D - 53)) - 53 - (e + (D - 53))) with 0 by lia.
    cbn [shr shr_m]. unfold prec, emax.
    destruct (Z.leb_spec (e + (D - 53)) (1024 - 53)); [|lia].
    eexists _, _. split; [reflexivity|]. split; [lia|].
    f_equal. f_equal. lia.
Qed.

Lemma Pos_iter_xO p d : Zpos (Pos.iter xO p d) = Zpos p * 2 ^ Zpos d.
Proof.
  induction d as [|d IH] using Pos.peano_ind.
  - simpl. lia.
  - rewrite Pos.iter_succ, Pos2Z.inj_succ, Z.pow_succ_r by lia.
    rewrite Pos2Z.inj_xO, IH. lia.
Qed.

Lemma float64_0_85_eq :
  float64_0_85 = S754_finite false 7656119366529843 (-53).
Proof. vm_compute. reflexivity. Qed.

Lemma float64_of_int_spec p d :
  Zpos (digits2_pos p) = d → d ≤ 53 →
  ∃ mz, float64_of_int (Zpos p) = S754_finite false mz (d - 53)
        ∧ Zpos mz = Zpos p * 2 ^ (53 - d)
        ∧ Zpos (digits2_pos mz) = 53.
Proof.
  intros Hd Hle. unfold float64_of_int, binary_normalize, binary_round.
  rewrite Hd, Z.add_0_r, fexp_normal by lia. unfold shl_align.
  pose proof (digits2_pos_bounds p) as Hb. rewrite Hd in Hb.
  destruct (d - 53 - 0) as [|q|q] eqn:Eq; try lia.
  - assert (d = 53) as -> by lia. exists p. split; [|split].
    + rewrite binary_round_aux_exact; [done | lia | lia].
    + simpl. lia.
    + done.
  - assert (Hmz : Zpos (Pos.iter xO p q) = Zpos p * 2 ^ (53 - d)).
    { rewrite Pos_iter_xO. f_equal. f_equal. lia. }
    assert (Hdz : Zpos (digits2_pos (Pos.iter xO p q)) = 53).
    { apply digits2_pos_unique. rewrite Hmz.
      assert (0 < d).
      { destruct (Z.lt_ge_cases 0 d); [done|]. lia. }
      assert (E1 : 2 ^ (53 - 1) = 2 ^ (d - 1) * 2 ^ (53 - d)).
      { rewrite <- Z.pow_add_r by lia. f_equal. lia. }
      assert (E2 : 2 ^ 53 = 2 ^ d * 2 ^ (53 - d)).
      { rewrite <- Z.pow_add_r by lia. f_equal. lia. }
      assert (0 < 2 ^ (53 - d)) by (apply Z.pow_pos_nonneg; lia).
      rewrite E1, E2. nia. }
    exists (Pos.iter xO p q). split; [|done].
    rewrite binary_round_aux_exact; [done | done | lia].
Qed.

Lemma int_mul_0_85 n :
  0 ≤ n < 2 ^ 47 →
  int_of_float64 (SFmul prec emax (float64_of_int n) float64_0_85) = 17 * n / 20.
Proof.
  intros [Hn0 Hn]. rewrite float64_0_85_eq.
  destruct n as [|p|p]; [reflexivity| |lia].
  set (d := Zpos (digits2_pos p)).
  pose proof (digits2_pos_bounds p) as Hbp. fold d in Hbp.
  assert (Hd : 1 ≤ d ≤ 47).
  { split; [unfold d; lia|].
    destruct (Z.le_gt_cases d 47) as [|Hgt]; [done|].
    assert (2 ^ 47 ≤ 2 ^ (d - 1)) by (apply Z.pow_le_mono_r; lia). lia. }
  destruct (float64_of_int_spec p d eq_refl ltac:(lia)) as (mz & -> & Hmz & Hdz).
  cbn [SFmul xorb].
  set (c := 7656119366529843%positive).
  pose proof (digits2_pos_bounds mz) as Hbz. rewrite Hdz in Hbz.
  set (T := 2 ^ (53 - d)) in *.
  assert (HT : 2 ^ 6 ≤ T) by (apply Z.pow_le_mono_r; lia).
  set (D := Zpos (digits2_pos (mz * c))).
  pose proof (digits2_pos_bounds (mz * c)) as HbD. fold D in HbD.
  rewrite Pos2Z.inj_mul in HbD.
  assert (Hm1 : 2 ^ 104 ≤ Zpos mz * Zpos c) by (unfold c; nia).
  assert (Hm2 : Zpos mz * Zpos c < 2 ^ 106) by (unfold c; nia).
  assert (HD : D = 105 ∨ D = 106).
  { assert (104 < D) by (apply (Z.pow_lt_mono_r_iff 2); lia).
    assert (D - 1 < 106) by (apply (Z.pow_lt_mono_r_iff 2); [lia| unfold D; lia |lia]).
    lia. }
  destruct (binary_round_aux_spec (mz * c) (d - 53 + -53) D eq_refl)
    as (mr & er & -> & Her & HV); [lia..|].
  destruct (round_shr_spec (Zpos (mz * c)) (D - 53)) as [_ Hr]; [lia..|].
  rewrite Pos2Z.inj_mul in HV, Hr.
  set (r := round_shr (Zpos mz * Zpos c) (D - 53)) in *.
  cbn [int_of_float64 cond_Zopp].
  rewrite Z.shiftl_div_pow2 by lia.
  set (S := 2 ^ (106 - d)).
  assert (HS : S = T * 2 ^ 53).
  { unfold S, T. rewrite <- Z.pow_add_r by lia. f_equal. lia. }
  assert (Hdiv : Zpos mr / 2 ^ (- er) = (r * 2 ^ (D - 53)) / S).
  { rewrite <- HV.
    assert (ES : S = 2 ^ (- er) * 2 ^ (er - (d - 53 + -53))).
    { unfold S. rewrite <- Z.pow_add_r by lia. f_equal. lia. }
    rewrite ES. rewrite Z.div_mul_cancel_r; [done | |].
    - apply Z.pow_nonzero; lia.
    - apply Z.pow_nonzero; lia. }
  rewrite Hdiv. clear Hdiv HV.
  pose proof (Z.div_mod (17 * Zpos p) 20 ltac:(lia)) as HK.
  pose proof (Z.mod_pos_bound (17 * Zpos p) 20 ltac:(lia)) as Hrr.
  set (K := 17 * Zpos p / 20) in *. set (rr := (17 * Zpos p) mod 20) in *.
  assert (H20 : 20 * (Zpos mz * Zpos c) = 20 * (K * S) + rr * S - 4 * Zpos mz).
  { unfold c. rewrite HS.
    replace (20 * (K * (T * 2 ^ 53)) + rr * (T * 2 ^ 53))
      with ((20 * K + rr) * T * 2 ^ 53) by ring.
    rewrite <- HK, Hmz. ring. }
  symmetry. apply Z.div_unique with (r := r * 2 ^ (D - 53) - K * S).
  2:{ ring. }
  left.
  destruct (Z.eq_dec rr 0) as [Hz|Hnz].
  - rewrite Hz in H20.
    assert (HKS : K * S = K * T * 2 ^ 53) by (rewrite HS; ring).
    destruct HD as [HD|HD]; rewrite HD in *; simpl (2 ^ (_ - 53)) in *.
    + replace (2 ^ 53) with (2 * 4503599627370496) in HKS by reflexivity.
      lia.
    + lia.
  - assert (HX : S ≤ rr * S ≤ 19 * S) by nia.
    destruct HD as [HD|HD]; rewrite HD in *; simpl (2 ^ (_ - 53)) in *; lia.
Qed.

Lemma evictionLimit_exact n :
  0 ≤ n < 2 ^ 47 → evictionLimit n = n - 17 * n / 20.
Proof. intros H. unfold evictionLimit. rewrite int_mul_0_85 by done. reflexivity. Qed.

Lemma evictionLimit_floor n :
  0 ≤ n < 2 ^ 47 → evictionLimit n = n - 85 * n / 100.
Proof.
  intros H. rewrite evictionLimit_exact by done. f_equal.
  replace (85 * n) with (5 * (17 * n)) by ring.
  replace 100 with (5 * 20) by reflexivity.
  by rewrite Z.div_mul_cancel_l.
Qed.

End Binary64.

Lemma expired_no_overflow now v :
  - 2 ^ 63 ≤ now - RenewTimestamp v < 2 ^ 63 →
  expired now v = (now - RenewTimestamp v >? 90 * 1000000000).
Proof.
  intros H. unfold expired, wrap64. f_equal.
  rewrite Z.mod_small by lia. lia.
Qed.

(** The frame of a successful [Renew]: the map of applications, and with
    it every [latestTimestamp] and every instance map, is unchanged; the
    renewed object changes in [RenewTimestamp] only and no other object
    changes; arrays are only added; the result is a deep copy of the
    renewed instance. *)
Lemma Renew_frame s env appid h now app p v :
  wf s →
  apps s !! getKey appid env = Some app →
  instances app !! h = Some p →
  objs s !! p = Some v →
  ∃ s',
    Renew env appid h now s = Done (Some (length (objs s)), None) s'
    ∧ apps s' = apps s
    ∧ objs s' !! p = Some (set_RenewTimestamp now v)
    ∧ (∀ l w, l ≠ p → objs s !! l = Some w → objs s' !! l = Some w)
    ∧ arrs s `prefix_of` arrs s'
    ∧ view s' (length (objs s)) = view s' p.
Proof.
  intros Hwf Happ Hh Hp. pose proof (lookup_lt_Some _ _ _ Hp) as Hlt.
  pose proof (wf_addrs _ Hwf _ _ Hp) as Ha.
  rewrite (Renew_stored s env appid h now app p v Happ Hh Hp).
  eexists. split; [reflexivity|]. unfold Renew_state, copy_state. simpl.
  split; [done|]. split.
  { rewrite lookup_app_l by (by rewrite length_insert).
    by apply list_lookup_insert_eq. }
  split.
  { intros l w Hne Hw. rewrite lookup_app_l.
    - by rewrite list_lookup_insert_ne.
    - rewrite length_insert. by eapply lookup_lt_Some. }
  split; [by apply prefix_app_r|].
  unfold view. simpl.
  rewrite (lookup_app_l _ _ p) by (by rewrite length_insert).
  rewrite list_lookup_insert_eq by done.
  rewrite lookup_app_r by (by rewrite length_insert).
  rewrite length_insert, Nat.sub_diag. simpl. unfold slice_of. simpl.
  rewrite lookup_app_r, Nat.sub_diag by lia. simpl.
  by rewrite lookup_app_l by lia.
Qed.

(** After a [Renew], [GetInstance] still answers "not fresh" to the
    timestamp of the registration, and [Fetch] panics on it. *)
Lemma Fetch_after_Renew s env appid h now app p v status t :
  wf s →
  apps s !! getKey appid env = Some app →
  instances app !! h = Some p →
  objs s !! p = Some v →
  latestTimestamp app ≤ t →
  ∃ s',
    Renew env appid h now s = Done (Some (length (objs s)), None) s'
    ∧ apps s' !! getKey appid env = Some app
    ∧ GetInstance app status t s' = Done (None, Some ErrNotFresh) s'
    ∧ Fetch env appid status t s' = Panic s'.
Proof.
  intros Hwf Happ Hh Hp Ht.
  destruct (Renew_frame s env appid h now app p v Hwf Happ Hh Hp)
    as (s' & Hrun & Happs & _).
  exists s'. split; [done|]. rewrite Happs. split; [done|].
  split; [by apply GetInstance_not_fresh|].
  apply (Fetch_not_fresh _ _ _ _ _ app); [by rewrite Happs | done].
Qed.

(** [getKey] tells the pairs apart when the application identifiers have
    no dash. *)
Lemma getKey_inj a1 e1 a2 e2 :
  dash_free a1 = true → dash_free a2 = true →
  getKey a1 e1 = getKey a2 e2 → a1 = a2 ∧ e1 = e2.
Proof.
  unfold getKey. revert a2.
  induction a1 as [|c r IH]; intros [|c' r'] H1 H2 Heq; simpl in *.
  - by simplify_eq.
  - injection Heq as <- _. done.
  - injection Heq as -> _. done.
  - apply andb_prop in H1 as [_ H1]. apply andb_prop in H2 as [_ H2].
    injection Heq as -> Heq. destruct (IH r' H1 H2 Heq) as [-> ->]. done.
Qed.

(** [getKey] joins the two strings with a dash and is not injective. *)
Lemma getKey_collision :
  ("a-b", "c") ≠ ("a", "b-c") ∧ getKey "a-b" "c" = getKey "a" "b-c".
Proof. split; [discriminate | reflexivity]. Qed.

(** Applications whose keys differ do not interfere: [Cancel] and [Renew]
    under one key leave the application under another key as it is. *)
Lemma Cancel_other_key s env appid h t k o s' :
  wf s → k ≠ getKey appid env →
  Cancel env appid h t s = Done o s' → apps s' !! k = apps s !! k.
Proof.
  intros Hwf Hk Hrun.
  destruct (Cancel_cases s env appid h t Hwf)
    as [Hc|[Hc|(app & p & v & Happ & Hh & Hp & Hc)]];
    rewrite Hc in Hrun; simplify_eq; [done..|].
  unfold Cancel_state. simpl.
  destruct (_ =? _)%nat.
  - by rewrite lookup_delete_ne.
  - by rewrite lookup_insert_ne.
Qed.

(** ** What a caller sees of a Fetch *)

Lemma view_fetch_state s ms j v :
  ms !! j = Some v →
  view (fetch_state ms s) (length (objs s) + j)
  = Some (set_Addrs 0%nat v, slice_of s (Addrs v)).
Proof.
  intros Hj. unfold view, fetch_state, slice_of. simpl.
  rewrite lookup_app_r by lia.
  replace (length (objs s) + j - length (objs s))%nat with j by lia.
  rewrite list_lookup_imap, Hj. simpl.
  rewrite lookup_app_r by lia.
  replace (length (arrs s) + j - length (arrs s))%nat with j by lia.
  rewrite list_lookup_fmap, Hj. reflexivity.
Qed.

Lemma views_fetch_state s ms :
  view (fetch_state ms s) <$> seq (length (objs s)) (length ms)
  = (λ v, Some (set_Addrs 0%nat v, slice_of s (Addrs v))) <$> ms.
Proof.
  apply list_eq. intros j. rewrite !list_lookup_fmap.
  destruct (ms !! j) as [v|] eqn:Hj; simpl.
  - rewrite lookup_seq_lt by (by eapply lookup_lt_Some). simpl.
    by rewrite (view_fetch_state _ _ _ v).
  - rewrite lookup_seq_ge; [done|]. by apply lookup_ge_None.
Qed.

Lemma fetched_Fetch s env appid status t app :
  apps s !! getKey appid env = Some app →
  live s (map_to_list (instances app)) →
  let ms := matching status s (map_to_list (instances app)) in
  fetched (Fetch env appid status t s)
  = if decide (t < latestTimestamp app ∧ ms ≠ [])
    then Some ((λ v, Some (set_Addrs 0%nat v, slice_of s (Addrs v))) <$> ms, None)
    else None.
Proof.
  intros Happ Hl ms. destruct (Z.le_gt_cases (latestTimestamp app) t) as [Ht|Ht].
  - rewrite (Fetch_not_fresh _ _ _ _ _ app) by done.
    rewrite decide_False by lia. done.
  - rewrite (Fetch_fresh _ _ _ _ _ app) by (done || lia). fold ms.
    destruct (bool_decide_reflect (ms = [])) as [He|He].
    + rewrite decide_False by (by intros [_ ?]). done.
    + rewrite decide_True by (split; [lia | done]). simpl.
      by rewrite views_fetch_state.
Qed.

Lemma matching_ext status s s' l :
  objs s' = objs s → matching status s' l = matching status s l.
Proof. intros H. unfold matching. by rewrite H. Qed.

(** Overwriting an array that no instance of the application uses does
    not change what [Fetch] returns. *)
Lemma fetched_mutation s env appid status t app a xs :
  apps s !! getKey appid env = Some app →
  live s (map_to_list (instances app)) →
  (∀ hp v, hp ∈ map_to_list (instances app) → objs s !! hp.2 = Some v →
           Addrs v ≠ a) →
  fetched (Fetch env appid status t (set_arrs (λ h, <[a := xs]> h) s))
  = fetched (Fetch env appid status t s).
Proof.
  intros Happ Hl Hne.
  set (s3 := set_arrs (λ h, <[a := xs]> h) s).
  assert (Hl3 : live s3 (map_to_list (instances app))).
  { intros hp Hin. destruct (Hl hp Hin) as (v & Hv & Ha). exists v.
    simpl. by rewrite length_insert. }
  rewrite (fetched_Fetch s3 _ _ _ _ app), (fetched_Fetch s _ _ _ _ app) by done.
  rewrite (matching_ext status s3 s) by done.
  destruct (decide _) as [_|_]; [|done]. f_equal. f_equal.
  apply list_fmap_ext. intros j v Hv. f_equal. f_equal.
  apply list_elem_of_lookup_2 in Hv. unfold matching in Hv.
  apply list_elem_of_omap in Hv as (hp & Hin & Hv).
  change (objs s3) with (objs s) in Hv.
  destruct (objs s !! hp.2) as [w|] eqn:Hw; simpl in Hv; [|done].
  destruct (0 <? N.land status (Status w))%N; simplify_eq.
  unfold slice_of, s3. simpl. rewrite list_lookup_insert_ne; [done|].
  intros Heq. by eapply (Hne hp v).
Qed.

(** A registration that is not stale stores the caller's object. *)
Lemma Register_stores s p t i :
  wf s → objs s !! p = Some i →
  (∀ l0 a, instances (app_of s i) !! Hostname i = Some l0 →
           objs s !! l0 = Some a → DirtyTimestamp a ≤ DirtyTimestamp i) →
  ∃ app' s1 i',
    Register p t s = Done (app', None) s1
    ∧ wf s1
    ∧ apps s1 !! getKey (AppId i) (Env i) = Some app'
    ∧ instances app' !! Hostname i = Some p
    ∧ objs s1 !! p = Some i'
    ∧ Status i' = Status i
    ∧ latestTimestamp app' = t.
Proof.
  intros Hwf Hp Hfresh.
  destruct (instances (app_of s i) !! Hostname i) as [l0|] eqn:Hh.
  - destruct (wf_stored _ Hwf _ _ _ (app_of_stored _ _ _ _ Hh)) as (a & Ha & _).
    pose proof (Register_existing s p t i l0 a Hp Hh Ha) as Hreg.
    pose proof (wf_Register_existing s p t i l0 a Hwf Hp Hh Ha) as Hwf1.
    simpl in Hreg, Hwf1.
    assert (Hst : (DirtyTimestamp i <? DirtyTimestamp a) = false).
    { apply Z.ltb_ge. by eapply Hfresh. }
    rewrite Hst in Hreg, Hwf1.
    eexists _, _, (set_UpTimestamp (UpTimestamp a) i).
    split; [exact Hreg|]. split; [exact Hwf1|].
    split; [simpl; by rewrite lookup_insert_eq|].
    split; [simpl; by rewrite lookup_insert_eq|].
    split; [|done]. simpl.
    rewrite (lookup_update_snoc_old _ _ _ _ _ _ Hp). by rewrite decide_True.
  - eexists _, _, i. split; [by apply Register_new|].
    split; [by apply wf_Register_new|].
    split; [simpl; by rewrite lookup_insert_eq|].
    split; [simpl; by rewrite lookup_insert_eq|].
    split; [|done]. simpl.
    lookup_old.
Qed.

(** * The claims *)

(** C1 (the code departs from the claim).  On an existing application,
    [GetInstance] returns the errors "not fresh" and "no matching instance"
    with a nil [*FetchData], and [Fetch] then evaluates [c.Instances] on
    that nil pointer: instead of returning the error, [Fetch] panics, both
    when [sinceTimestamp >= latestTimestamp] and when the mask selects no
    instance. *)
Theorem C1_Fetch_panics_on_its_error_paths :
  (∃ app, apps st_one !! getKey "svc.a" "test" = Some app
          ∧ latestTimestamp app = 10
          ∧ GetInstance app 1 10 st_one = Done (None, Some ErrNotFresh) st_one
          ∧ GetInstance app 2 0 st_one
            = Done (None, Some ErrNoMatchingInstance) st_one)
  ∧ Fetch "test" "svc.a" 1 10 st_one = Panic st_one
  ∧ Fetch "test" "svc.a" 2 0 st_one = Panic st_one.
Proof.
  split; [|split].
  - eexists. split; [vm_compute; reflexivity|].
    split; [reflexivity|]. split; vm_compute; reflexivity.
  - vm_compute. reflexivity.
  - vm_compute. reflexivity.
Qed.

(** C2.  When the application already stores an instance under the
    hostname and the incoming instance has a strictly smaller
    [DirtyTimestamp], [Register] keeps the stored pointer and leaves the
    stored object (all its fields, so its version, status and
    dirtyTimestamp) and the elements of its address list unchanged, and
    sets the application's [latestTimestamp] to the supplied value. *)
Theorem C2_stale_Register_keeps_the_stored_record s p t i app l0 a :
  objs s !! p = Some i →
  apps s !! getKey (AppId i) (Env i) = Some app →
  instances app !! Hostname i = Some l0 →
  objs s !! l0 = Some a →
  DirtyTimestamp i < DirtyTimestamp a →
  ∃ app' s',
    Register p t s = Done (app', None) s'
    ∧ apps s' !! getKey (AppId i) (Env i) = Some app'
    ∧ instances app' !! Hostname i = Some l0
    ∧ objs s' !! l0 = Some a
    ∧ slice_of s' (Addrs a) = slice_of s (Addrs a)
    ∧ latestTimestamp app' = t.
Proof.
  intros Hp Happ Hh Ha Hlt.
  assert (Hof : app_of s i = app) by (unfold app_of; by rewrite Happ).
  rewrite <- Hof in Hh.
  pose proof (Register_existing s p t i l0 a Hp Hh Ha) as Hreg.
  simpl in Hreg.
  assert (Hst : (DirtyTimestamp i <? DirtyTimestamp a) = true)
    by (by apply Z.ltb_lt).
  rewrite Hst in Hreg. rewrite Hreg.
  eexists _, _. split; [reflexivity|].
  split; [simpl; by rewrite lookup_insert_eq|].
  split.
  { simpl. destruct (decide (Hostname a = Hostname i)) as [->|Hne].
    - by rewrite lookup_insert_eq.
    - by rewrite lookup_insert_ne. }
  split.
  { simpl. rewrite (lookup_update_snoc_old _ _ _ _ _ _ Ha).
    destruct (decide (l0 = p)) as [->|]; [|done].
    assert (a = i) by congruence. subst a. lia. }
  split; reflexivity.
Qed.

Lemma C2_witness :
  ∃ app' s',
    Register 2%nat 20 st_replay = Done (app', None) s'
    ∧ apps s' !! getKey "svc.a" "test" = Some app'
    ∧ instances app' !! "h1" = Some 0%nat
    ∧ objs s' !! 0%nat = Some (example_Instance "test" "svc.a" "h1" 1 5 100)
    ∧ slice_of s' 0%nat = slice_of st_replay 0%nat
    ∧ latestTimestamp app' = 20.
Proof.
  refine (C2_stale_Register_keeps_the_stored_record st_replay 2%nat 20
            (set_Addrs 1%nat (example_Instance "test" "svc.a" "h1" 1 6 50))
            (mkApplication "svc.a" {[ "h1" := 0%nat ]} 10) 0%nat
            (example_Instance "test" "svc.a" "h1" 1 5 100) _ _ _ _ _).
  - reflexivity.
  - vm_compute. reflexivity.
  - vm_compute. reflexivity.
  - reflexivity.
  - simpl. lia.
Defined.

(** C3.  In a well-formed state with [N] instances in all, [E] of them
    expired at [now] (in the [int64] arithmetic of the code, with the
    threshold of 90 s in nanoseconds), an eviction pass calls [Cancel]
    exactly [min(E, N - floor(N*0.85))] times, every call removes an
    instance, and [N] decreases by that number, whatever the random draws.
    The cap is computed in binary64; it is the integer formula for every
    [N] below [2^47]. *)
Theorem C3_evict_cancels_min_of_expired_and_cap now rnd s :
  wf s →
  Z.of_nat (total s) < 2 ^ 47 →
  ∃ rs s',
    evict now rnd s = Done rs s'
    ∧ Z.of_nat (length rs)
      = Z.min (Z.of_nat (expired_total now s))
          (Z.of_nat (total s) - 85 * Z.of_nat (total s) / 100)
    ∧ Forall cancelled rs
    ∧ (total s' + length rs = total s)%nat.
Proof.
  intros Hwf HN.
  destruct (evict_spec now rnd s Hwf) as (rs & s' & Hrun & Hlen & Hc & Ht & _).
  exists rs, s'. split; [done|]. split; [|done].
  rewrite Hlen, evictionLimit_floor by lia.
  assert (85 * Z.of_nat (total s) / 100 ≤ Z.of_nat (total s)).
  { apply Z.div_le_upper_bound; lia. }
  lia.
Qed.

Lemma C3_witness :
  ∃ rs s',
    evict (200 * 1000000000) (λ _, 1%nat) st_three = Done rs s'
    ∧ Z.of_nat (length rs)
      = Z.min (Z.of_nat (expired_total (200 * 1000000000) st_three))
          (Z.of_nat (total st_three) - 85 * Z.of_nat (total st_three) / 100)
    ∧ Forall cancelled rs
    ∧ (total s' + length rs = total st_three)%nat.
Proof.
  refine (C3_evict_cancels_min_of_expired_and_cap _ _ st_three _ _).
  - apply reachable_invariant. unfold st_three. apply reachable_run.
  - vm_compute. reflexivity.
Defined.

(** C4.  In every state reached by registrations, renewals, cancellations,
    fetches and eviction passes, a key has an entry in the map of
    applications exactly when it has one whose instance map is not empty;
    and a [Cancel] of the only instance of an application deletes the
    entry, so that a [Fetch] for the same application then fails with
    "app not found". *)
Theorem C4_an_application_exists_iff_it_has_an_instance s :
  reachable s →
  (∀ k, is_Some (apps s !! k)
        ↔ ∃ app, apps s !! k = Some app ∧ instances app ≠ ∅)
  ∧ (∀ env appid h t app p status since,
       apps s !! getKey appid env = Some app →
       instances app = {[ h := p ]} →
       ∃ q s',
         Cancel env appid h t s = Done (Some q, None) s'
         ∧ apps s' !! getKey appid env = None
         ∧ Fetch env appid status since s'
           = Done ([], Some ErrAppNotFound) s').
Proof.
  intros Hr. destruct (reachable_invariant s Hr) as [Hwf Hne]. split.
  - intros k. split.
    + intros [app Happ]. exists app. split; [done | by eapply Hne].
    + intros (app & Happ & _). by exists app.
  - intros env appid h t app p status since Happ Hinst.
    assert (Hh : instances app !! h = Some p)
      by (rewrite Hinst; apply lookup_singleton_eq).
    destruct (wf_stored _ Hwf (getKey appid env) h p) as (v & Hv & _).
    { by exists app. }
    rewrite (Cancel_stored s env appid h t app p v Happ Hh Hv).
    eexists _, _. split; [reflexivity|].
    assert (Hgone : apps (Cancel_state (getKey appid env) h app p v t s)
                    !! getKey appid env = None).
    { unfold Cancel_state. simpl. rewrite Hinst, delete_singleton_eq.
      rewrite map_size_empty. simpl. apply lookup_delete_eq. }
    split; [done | by apply Fetch_no_app].
Qed.

Lemma C4_witness :
  (∀ k, is_Some (apps st_one !! k)
        ↔ ∃ app, apps st_one !! k = Some app ∧ instances app ≠ ∅)
  ∧ (∀ env appid h t app p status since,
       apps st_one !! getKey appid env = Some app →
       instances app = {[ h := p ]} →
       ∃ q s',
         Cancel env appid h t st_one = Done (Some q, None) s'
         ∧ apps s' !! getKey appid env = None
         ∧ Fetch env appid status since s'
           = Done ([], Some ErrAppNotFound) s').
Proof.
  apply (C4_an_application_exists_iff_it_has_an_instance st_one).
  unfold st_one. apply reachable_run.
Defined.

(** C5 as stated fails: with one instance, expired, the pass evicts it,
    and 1 is more than 15% of 1. *)
Lemma C5_counterexample :
  ∃ rs s',
    evict (200 * 1000000000) (λ _, 0%nat) st_one = Done rs s'
    ∧ (1 ≤ total st_one)%nat
    ∧ length rs = 1%nat
    ∧ ¬ (100 * Z.of_nat (length rs) ≤ 15 * Z.of_nat (total st_one)).
Proof.
  assert (Ht : total st_one = 1%nat) by (vm_compute; reflexivity).
  eexists _, _. split; [vm_compute; reflexivity|]. rewrite Ht.
  split; [lia|]. split; [reflexivity|]. simpl. lia.
Qed.

(** C5 as the code has it.  With [N >= 1] instances (below [2^47]), an
    eviction pass evicts at most [N - floor(N*0.85)] of them, the least
    integer that is not below 15% of [N]: fewer than [0.15*N + 1],
    however many are expired. *)
Theorem C5_evict_cap_is_15_percent_rounded_up now rnd s :
  wf s →
  (1 ≤ total s)%nat →
  Z.of_nat (total s) < 2 ^ 47 →
  ∃ rs s',
    evict now rnd s = Done rs s'
    ∧ Z.of_nat (length rs) ≤ Z.of_nat (total s) - 85 * Z.of_nat (total s) / 100
    ∧ 100 * Z.of_nat (length rs) < 15 * Z.of_nat (total s) + 100.
Proof.
  intros Hwf H1 HN.
  destruct (evict_spec now rnd s Hwf) as (rs & s' & Hrun & Hlen & _).
  exists rs, s'. split; [done|].
  rewrite evictionLimit_floor in Hlen by lia.
  pose proof (Z.div_mod (85 * Z.of_nat (total s)) 100 ltac:(lia)) as Hdm.
  pose proof (Z.mod_pos_bound (85 * Z.of_nat (total s)) 100 ltac:(lia)) as Hb.
  lia.
Qed.

Lemma C5_witness :
  ∃ rs s',
    evict (200 * 1000000000) (λ _, 0%nat) st_three = Done rs s'
    ∧ Z.of_nat (length rs)
      ≤ Z.of_nat (total st_three) - 85 * Z.of_nat (total st_three) / 100
    ∧ 100 * Z.of_nat (length rs) < 15 * Z.of_nat (total st_three) + 100.
Proof.
  refine (C5_evict_cap_is_15_percent_rounded_up _ _ st_three _ _ _).
  - apply reachable_invariant. unfold st_three. apply reachable_run.
  - vm_compute. lia.
  - vm_compute. reflexivity.
Defined.

(** C6 (the code departs from the claim).  [GetInstance] builds the
    envelope with the application's [latestTimestamp], but [Fetch] returns
    [c.Instances] only: its result has no timestamp in it.  Two states that
    differ in the [latestTimestamp] of the application alone give the same
    result of [Fetch]. *)
Theorem C6_Fetch_drops_the_latestTimestamp :
  (∃ app s', apps st_one !! getKey "svc.a" "test" = Some app
             ∧ GetInstance app 1 0 st_one
               = Done (Some (mkFetchData [2%nat] 10), None) s')
  ∧ (∃ app s', apps st_late !! getKey "svc.a" "test" = Some app
               ∧ GetInstance app 1 0 st_late
                 = Done (Some (mkFetchData [2%nat] 20), None) s')
  ∧ (∃ s', Fetch "test" "svc.a" 1 0 st_one = Done ([2%nat], None) s')
  ∧ (∃ s', Fetch "test" "svc.a" 1 0 st_late = Done ([2%nat], None) s').
Proof.
  split; [|split; [|split]].
  - eexists _, _. split; vm_compute; reflexivity.
  - eexists _, _. split; vm_compute; reflexivity.
  - eexists. vm_compute. reflexivity.
  - eexists. vm_compute. reflexivity.
Qed.

(** C7 (the code departs from the claim).  A successful [Renew] changes
    nothing but the [RenewTimestamp] of the renewed instance; the
    application keeps the [latestTimestamp] 10 of its registration and
    [GetInstance], asked with 10, answers "not fresh".  But [Fetch] does not
    fail with that error: it panics, before the [Renew] as after it. *)
Theorem C7_Fetch_after_Renew_panics :
  ∃ s',
    Renew "test" "svc.a" "h1" 77 st_one = Done (Some 2%nat, None) s'
    ∧ apps s' = apps st_one
    ∧ objs s' !! 0%nat
      = Some (example_Instance "test" "svc.a" "h1" 1 77 100)
    ∧ (∃ app, apps s' !! getKey "svc.a" "test" = Some app
              ∧ latestTimestamp app = 10
              ∧ GetInstance app 1 10 s' = Done (None, Some ErrNotFresh) s')
    ∧ Fetch "test" "svc.a" 1 10 st_one = Panic st_one
    ∧ Fetch "test" "svc.a" 1 10 s' = Panic s'.
Proof.
  eexists. split; [vm_compute; reflexivity|].
  split; [vm_compute; reflexivity|]. split; [reflexivity|]. split.
  { eexists. split; [vm_compute; reflexivity|].
    split; [reflexivity | vm_compute; reflexivity]. }
  split; vm_compute; reflexivity.
Qed.

(** C8 as the code has it.  Unless the application already stores, under
    the hostname of [I], an instance with a strictly greater
    [DirtyTimestamp], [Register(I, t)] followed by
    [Fetch(I.env, I.appId, m, s)] with [m & I.status != 0] and [s < t]
    returns, among the selected instances, a new object that is deep-equal
    to [I] as [Register] left it (its [UpTimestamp] is the stored one when
    the hostname was already registered); that object has an address list
    of its own: whatever is written over it, a later [Fetch] returns what
    it would have returned otherwise. *)
Theorem C8_Register_then_Fetch_returns_an_independent_copy s p i t m since :
  wf s →
  objs s !! p = Some i →
  N.land m (Status i) ≠ 0%N →
  since < t →
  (∀ l0 a, instances (app_of s i) !! Hostname i = Some l0 →
           objs s !! l0 = Some a → DirtyTimestamp a ≤ DirtyTimestamp i) →
  ∃ app' s1 qs s2,
    Register p t s = Done (app', None) s1
    ∧ Fetch (Env i) (AppId i) m since s1 = Done (qs, None) s2
    ∧ ∃ q vq,
        q ∈ qs ∧ q ≠ p ∧ objs s2 !! q = Some vq
        ∧ view s2 q = view s1 p
        ∧ ∀ xs,
            fetched (Fetch (Env i) (AppId i) m since
                       (set_arrs (λ h, <[Addrs vq := xs]> h) s2))
            = fetched (Fetch (Env i) (AppId i) m since s2).
Proof.
  intros Hwf Hp Hm Hlt Hfresh.
  destruct (Register_stores s p t i Hwf Hp Hfresh)
    as (app' & s1 & i' & Hreg & Hwf1 & Happ & Hh & Hp1 & Hst & Ht).
  exists app', s1. rewrite Hreg.
  pose proof (wf_live _ _ _ Hwf1 Happ) as Hl.
  set (ms := matching m s1 (map_to_list (instances app'))).
  assert (Hin : i' ∈ ms).
  { unfold ms, matching. apply list_elem_of_omap. exists (Hostname i, p).
    split; [by apply elem_of_map_to_list|]. simpl. rewrite Hp1. simpl.
    rewrite Hst. destruct (N.ltb_spec 0 (N.land m (Status i))); [done | lia]. }
  apply list_elem_of_lookup in Hin as [j Hj].
  assert (Hms : ms ≠ []) by (intros He; by rewrite He in Hj).
  pose proof (Fetch_fresh s1 (Env i) (AppId i) m since app' Happ
                ltac:(lia) Hl) as Hf.
  simpl in Hf. fold ms in Hf. rewrite bool_decide_eq_false_2 in Hf by done.
  exists (seq (length (objs s1)) (length ms)), (fetch_state ms s1).
  split; [done|]. split; [done|].
  exists (length (objs s1) + j)%nat, (set_Addrs (length (arrs s1) + j)%nat i').
  pose proof (lookup_lt_Some _ _ _ Hj) as Hjlt.
  pose proof (lookup_lt_Some _ _ _ Hp1) as Hplt.
  split; [apply list_elem_of_lookup; exists j; by apply lookup_seq_lt|].
  split; [lia|]. split.
  { simpl. rewrite lookup_app_r by lia.
    replace (length (objs s1) + j - length (objs s1))%nat with j by lia.
    by rewrite list_lookup_imap, Hj. }
  split.
  { rewrite (view_fetch_state _ _ _ i') by done. unfold view. by rewrite Hp1. }
  intros xs. simpl.
  assert (Hwf2 : wf (fetch_state ms s1)).
  { apply wf_fetch_state; [done|]. intros v Hv. by eapply matching_addrs. }
  apply (fetched_mutation _ _ _ _ _ app'); [done | by eapply wf_live |].
  intros hp v Hhp Hv Heq.
  destruct (Hl hp Hhp) as (w & Hw & Ha).
  simpl in Hv. rewrite lookup_app_l in Hv by (by eapply lookup_lt_Some).
  assert (v = w) by congruence. subst v. lia.
Qed.

Lemma C8_witness :
  ∃ app' s1 qs s2,
    Register 2%nat 20 st_update = Done (app', None) s1
    ∧ Fetch "test" "svc.a" 1 0 s1 = Done (qs, None) s2
    ∧ ∃ q vq,
        q ∈ qs ∧ q ≠ 2%nat ∧ objs s2 !! q = Some vq
        ∧ view s2 q = view s1 2%nat
        ∧ ∀ xs,
            fetched (Fetch "test" "svc.a" 1 0
                       (set_arrs (λ h, <[Addrs vq := xs]> h) s2))
            = fetched (Fetch "test" "svc.a" 1 0 s2).
Proof.
  refine (C8_Register_then_Fetch_returns_an_independent_copy st_update 2%nat
            (mkInstance "test" "svc.a" "h1" 1%nat "v2.0.0" 3 7 7 7 150 7)
            20 1 0 _ _ _ _ _).
  - apply reachable_invariant. unfold st_update. apply reachable_step.
    unfold st_one. apply reachable_run.
  - reflexivity.
  - vm_compute. discriminate.
  - lia.
  - intros l0 a H1 H2. vm_compute in H1. injection H1 as <-.
    vm_compute in H2. injection H2 as <-. simpl. lia.
Defined.

(** C8 as stated fails: when the application stores [h1] with
    [DirtyTimestamp] 100 and the instance registered has 50, the [Fetch]
    returns the stored record, with the old address. *)
Lemma C8_counterexample :
  ∃ app' s1 s2,
    Register 2%nat 20 st_replay = Done (app', None) s1
    ∧ objs st_replay !! 2%nat
      = Some (set_Addrs 1%nat (example_Instance "test" "svc.a" "h1" 1 6 50))
    ∧ N.land 1 1 ≠ 0%N ∧ 0 < 20
    ∧ Fetch "test" "svc.a" 1 0 s1 = Done ([4%nat], None) s2
    ∧ view s1 2%nat
      = Some (example_Instance "test" "svc.a" "h1" 1 6 50, ["10.0.0.2:8080"])
    ∧ view s2 4%nat
      = Some (example_Instance "test" "svc.a" "h1" 1 5 100, ["10.0.0.1:8080"])
    ∧ view s2 4%nat ≠ view s1 2%nat.
Proof.
  eexists _, _, _. split; [vm_compute; reflexivity|].
  split; [reflexivity|]. split; [discriminate|]. split; [lia|].
  split; [vm_compute; reflexivity|]. split; [reflexivity|].
  split; [reflexivity|]. discriminate.
Qed.

(** C9 (the code departs from the claim).  The pairs [("a-b","c")] and
    [("a","b-c")] are distinct and have the same key [a-b-c].  An instance
    registered for application [a-b] in environment [c] is returned by a
    [Fetch] for application [a] in environment [b-c], and a [Cancel] for
    that other pair removes it. *)
Theorem C9_distinct_pairs_share_an_application :
  ("a-b", "c") ≠ ("a", "b-c")
  ∧ (∃ s', Fetch "b-c" "a" 1 0 st_dash = Done ([2%nat], None) s'
           ∧ view s' 2%nat
             = Some (example_Instance "c" "a-b" "h" 1 5 100, ["10.0.0.3:8080"]))
  ∧ (∃ q s', Cancel "b-c" "a" "h" 20 st_dash = Done (Some q, None) s'
             ∧ Fetch "c" "a-b" 1 0 s' = Done ([], Some ErrAppNotFound) s').
Proof.
  split; [discriminate|]. split.
  - eexists. split; vm_compute; reflexivity.
  - eexists _, _. split; vm_compute; reflexivity.
Qed.

(** C10.  When the application exists and holds no instance under the
    hostname, [Cancel] returns the error "instance not found" and the
    whole state is the one it started from: the map of applications, every
    instance map and [latestTimestamp], every object and every array. *)
Theorem C10_failed_Cancel_changes_nothing s env appid h t app :
  apps s !! getKey appid env = Some app →
  instances app !! h = None →
  Cancel env appid h t s = Done (None, Some ErrInstanceNotFound) s.
Proof.
  intros Happ Hh. unfold Cancel, getApplication.
  rewrite bind_eq. unfold gets at 1. rewrite Happ.
  (* Application.Cancel returns before its first write *)
  unfold Application_Cancel. rewrite Hh.
  unfold mbind, M_bind, mret, M_ret, modify; simpl.
  (* the application read from the map is the one stored back *)
  destruct s as [a o r]; unfold set_apps; simpl in *.
  by rewrite insert_id.
Qed.

Lemma C10_witness :
  Cancel "test" "svc.a" "h9" 30 st_one
  = Done (None, Some ErrInstanceNotFound) st_one.
Proof.
  refine (C10_failed_Cancel_changes_nothing st_one "test" "svc.a" "h9" 30
            (mkApplication "svc.a" {[ "h1" := 0%nat ]} 10) _ _).
  - vm_compute. reflexivity.
  - vm_compute. reflexivity.
Defined.

(** * Further properties of the code *)

(** ** Register *)

Lemma total_insert s key app' o r :
  total (mkState (<[key := app']> (apps s)) o r)
  = (size (instances app')
     + length (entries_of (map_to_list (delete key (apps s)))))%nat.
Proof.
  unfold total, entries. simpl.
  rewrite <- insert_delete_eq, !entries_of_length.
  rewrite map_to_list_insert by apply lookup_delete_eq. simpl.
  by rewrite <- entries_of_length.
Qed.

Lemma total_app_of s i :
  total s
  = (size (instances (app_of s i))
     + length (entries_of
                 (map_to_list (delete (getKey (AppId i) (Env i)) (apps s)))))%nat.
Proof.
  unfold app_of.
  destruct (apps s !! getKey (AppId i) (Env i)) as [app|] eqn:Happ.
  - by apply total_delete.
  - simpl. rewrite map_size_empty, delete_id by done. reflexivity.
Qed.

Lemma total_Register s i hv q t o r :
  total (mkState (<[getKey (AppId i) (Env i)
                    := Register_app (app_of s i) hv q t]> (apps s)) o r)
  = match instances (app_of s i) !! hv with
    | Some _ => total s
    | None => S (total s)
    end.
Proof.
  rewrite total_insert, (total_app_of s i). simpl.
  rewrite map_size_insert. by destruct (instances (app_of s i) !! hv).
Qed.

Lemma stored_app_of s i h l :
  stored s (getKey (AppId i) (Env i)) h l → instances (app_of s i) !! h = Some l.
Proof. intros (app & Happ & Hl). unfold app_of. by rewrite Happ. Qed.

Lemma stored_Register_iff s i hv q t o r k h l :
  stored (mkState (<[getKey (AppId i) (Env i)
                     := Register_app (app_of s i) hv q t]> (apps s)) o r) k h l
  ↔ (k = getKey (AppId i) (Env i) ∧ h = hv ∧ l = q)
    ∨ ((k, h) ≠ (getKey (AppId i) (Env i), hv) ∧ stored s k h l).
Proof.
  split.
  - intros (a & Ha & Hl). simpl in Ha.
    destruct (decide (k = getKey (AppId i) (Env i))) as [->|Hk].
    + rewrite lookup_insert_eq in Ha. simplify_eq. simpl in Hl.
      destruct (decide (h = hv)) as [->|Hh].
      * rewrite lookup_insert_eq in Hl. left. by simplify_eq.
      * rewrite lookup_insert_ne in Hl by done. right.
        split; [congruence | by apply app_of_stored].
    + rewrite lookup_insert_ne in Ha by done. right.
      split; [congruence | by exists a].
  - intros [(-> & -> & ->)|[Hne Hst]].
    + eexists. simpl. rewrite lookup_insert_eq. split; [done|]. simpl.
      by rewrite lookup_insert_eq.
    + destruct (decide (k = getKey (AppId i) (Env i))) as [->|Hk].
      * eexists. simpl. rewrite lookup_insert_eq. split; [done|]. simpl.
        rewrite lookup_insert_ne by congruence. by apply stored_app_of.
      * destruct Hst as (a & Ha & Hl). exists a. simpl.
        by rewrite lookup_insert_ne.
Qed.

(** What [Register] does with a live pointer, in both cases of
    [AddInstance]: the pointer [q] that ends up stored is the caller's,
    unless a stored instance has a greater [DirtyTimestamp]. *)
Lemma Register_effect s p t i :
  wf s → objs s !! p = Some i →
  ∃ q i' w,
    Register p t s
    = Done (Register_app (app_of s i) (Hostname i) q t, None)
        (mkState
           (<[getKey (AppId i) (Env i)
              := Register_app (app_of s i) (Hostname i) q t]> (apps s))
           (<[p := i']> (objs s) ++ [w]) (arrs s))
    ∧ set_UpTimestamp 0 i' = set_UpTimestamp 0 i
    ∧ (q = p
       ∨ ∃ a, instances (app_of s i) !! Hostname i = Some q
              ∧ objs s !! q = Some a ∧ DirtyTimestamp i < DirtyTimestamp a).
Proof.
  intros Hwf Hp.
  destruct (instances (app_of s i) !! Hostname i) as [l0|] eqn:Hh.
  - destruct (wf_stored _ Hwf _ _ _ (app_of_stored _ _ _ _ Hh))
      as (a & Ha & _ & Hha).
    pose proof (Register_existing s p t i l0 a Hp Hh Ha) as Hreg.
    simpl in Hreg.
    destruct (Z.ltb_spec (DirtyTimestamp i) (DirtyTimestamp a)) as [Hlt|Hge].
    + rewrite Hha in Hreg. eexists l0, _, _. split; [exact Hreg|].
      split; [done|]. right. by exists a.
    + eexists p, _, _. split; [exact Hreg|]. split; [done|]. by left.
  - exists p, i, i. rewrite list_insert_id by done.
    split; [by apply Register_new|]. split; [done|]. by left.
Qed.

(** X1.  [Register] of an instance whose hostname the application does
    not hold yet stores the caller's pointer under the key of the instance
    and its hostname, creating the application when the key is new; the
    application's [latestTimestamp] becomes the supplied one, the number
    of instances grows by one, every other entry is kept, and the caller's
    object is not written. *)
Theorem X1_Register_adds_a_new_hostname s p t i :
  objs s !! p = Some i →
  (∀ l, ¬ stored s (getKey (AppId i) (Env i)) (Hostname i) l) →
  ∃ app' s',
    Register p t s = Done (app', None) s'
    ∧ apps s' !! getKey (AppId i) (Env i) = Some app'
    ∧ instances app' !! Hostname i = Some p
    ∧ latestTimestamp app' = t
    ∧ total s' = S (total s)
    ∧ (∀ k h l, stored s k h l → stored s' k h l)
    ∧ (∀ k h l, stored s' k h l →
         stored s k h l ∨ (k, h, l) = (getKey (AppId i) (Env i), Hostname i, p))
    ∧ objs s' !! p = Some i
    ∧ arrs s' = arrs s.
Proof.
  intros Hp Hnew.
  assert (Hh : instances (app_of s i) !! Hostname i = None).
  { destruct (instances (app_of s i) !! Hostname i) as [l|] eqn:Hh; [|done].
    destruct (Hnew l). by apply app_of_stored. }
  rewrite (Register_new s p t i Hp Hh). eexists _, _. split; [reflexivity|].
  split; [simpl; by rewrite lookup_insert_eq|].
  split; [simpl; by rewrite lookup_insert_eq|].
  split; [done|].
  split; [by rewrite total_Register, Hh|].
  split.
  { intros k h l Hst. apply stored_Register_iff. right. split; [|done].
    intros [= -> ->]. by eapply Hnew. }
  split.
  { intros k h l [(-> & -> & ->)|[_ Hst]]%stored_Register_iff;
      [by right | by left]. }
  split; [|done]. simpl. lookup_old.
Qed.

Lemma X1_witness :
  ∃ app' s',
    Register 2%nat 30 st_second = Done (app', None) s'
    ∧ apps s' !! getKey "svc.a" "test" = Some app'
    ∧ instances app' !! "h2" = Some 2%nat
    ∧ latestTimestamp app' = 30
    ∧ total s' = S (total st_second)
    ∧ (∀ k h l, stored st_second k h l → stored s' k h l)
    ∧ (∀ k h l, stored s' k h l →
         stored st_second k h l ∨ (k, h, l) = (getKey "svc.a" "test", "h2", 2%nat))
    ∧ objs s' !! 2%nat
      = Some (set_Addrs 1%nat (example_Instance "test" "svc.a" "h2" 2 5 100))
    ∧ arrs s' = arrs st_second.
Proof.
  refine (X1_Register_adds_a_new_hostname st_second 2%nat 30
            (set_Addrs 1%nat (example_Instance "test" "svc.a" "h2" 2 5 100))
            _ _).
  - reflexivity.
  - intros l (app & Happ & Hl). vm_compute in Happ. injection Happ as <-.
    vm_compute in Hl. discriminate.
Defined.

(** X2.  [Register] over a hostname the application already holds, with a
    [DirtyTimestamp] that is not smaller than the stored one (equal
    included), replaces the stored pointer by the caller's; the caller's
    object takes the [UpTimestamp] of the instance it replaces and changes
    in nothing else, the replaced object is left as it was, and the number
    of instances does not change. *)
Theorem X2_Register_replaces_an_instance_that_is_not_newer s p t i l0 a :
  objs s !! p = Some i →
  stored s (getKey (AppId i) (Env i)) (Hostname i) l0 →
  objs s !! l0 = Some a →
  DirtyTimestamp a ≤ DirtyTimestamp i →
  ∃ app' s',
    Register p t s = Done (app', None) s'
    ∧ apps s' !! getKey (AppId i) (Env i) = Some app'
    ∧ instances app' !! Hostname i = Some p
    ∧ latestTimestamp app' = t
    ∧ objs s' !! p = Some (set_UpTimestamp (UpTimestamp a) i)
    ∧ (l0 ≠ p → objs s' !! l0 = Some a)
    ∧ total s' = total s
    ∧ (∀ k h l, (k, h) ≠ (getKey (AppId i) (Env i), Hostname i) →
         (stored s' k h l ↔ stored s k h l)).
Proof.
  intros Hp Hst Ha Hge. apply stored_app_of in Hst as Hh.
  pose proof (Register_existing s p t i l0 a Hp Hh Ha) as Hreg.
  simpl in Hreg.
  assert (Hlt : (DirtyTimestamp i <? DirtyTimestamp a) = false)
    by (by apply Z.ltb_ge).
  rewrite Hlt in Hreg.
  change (Hostname (set_UpTimestamp (UpTimestamp a) i)) with (Hostname i) in Hreg.
  rewrite Hreg. eexists _, _. split; [reflexivity|].
  split; [simpl; by rewrite lookup_insert_eq|].
  split; [simpl; by rewrite lookup_insert_eq|].
  split; [done|].
  split.
  { simpl. rewrite (lookup_update_snoc_old _ _ _ _ _ _ Hp).
    by rewrite decide_True. }
  split.
  { intros Hne. simpl. rewrite (lookup_update_snoc_old _ _ _ _ _ _ Ha).
    by rewrite decide_False. }
  split; [by rewrite total_Register, Hh|].
  intros k h l Hne. rewrite stored_Register_iff. simpl. split.
  - by intros [(-> & -> & _)|[_ ?]].
  - intros ?. by right.
Qed.

Lemma X2_witness :
  ∃ app' s',
    Register 2%nat 20 st_update = Done (app', None) s'
    ∧ apps s' !! getKey "svc.a" "test" = Some app'
    ∧ instances app' !! "h1" = Some 2%nat
    ∧ latestTimestamp app' = 20
    ∧ objs s' !! 2%nat
      = Some (set_UpTimestamp 0
                (mkInstance "test" "svc.a" "h1" 1%nat "v2.0.0" 3 7 7 7 150 7))
    ∧ (0%nat ≠ 2%nat →
       objs s' !! 0%nat = Some (example_Instance "test" "svc.a" "h1" 1 5 100))
    ∧ total s' = total st_update
    ∧ (∀ k h l, (k, h) ≠ (getKey "svc.a" "test", "h1") →
         (stored s' k h l ↔ stored st_update k h l)).
Proof.
  refine (X2_Register_replaces_an_instance_that_is_not_newer st_update 2%nat 20
            (mkInstance "test" "svc.a" "h1" 1%nat "v2.0.0" 3 7 7 7 150 7)
            0%nat (example_Instance "test" "svc.a" "h1" 1 5 100) _ _ _ _).
  - reflexivity.
  - exists (mkApplication "svc.a" {[ "h1" := 0%nat ]} 10).
    split; vm_compute; reflexivity.
  - reflexivity.
  - simpl. lia.
Defined.

(** X3.  In a well-formed state [Register] of a live pointer never fails:
    it returns a nil error and the application now stored under the key
    of the instance, which holds the hostname of the instance and carries
    the supplied [latestTimestamp].  Nothing else of the registry changes:
    the other applications, the other entries, the arrays and the other
    objects are kept, and of the caller's object only [UpTimestamp] may
    have been written. *)
Theorem X3_Register_succeeds_and_touches_one_entry s p t i :
  wf s → objs s !! p = Some i →
  ∃ app' s',
    Register p t s = Done (app', None) s'
    ∧ apps s' !! getKey (AppId i) (Env i) = Some app'
    ∧ is_Some (instances app' !! Hostname i)
    ∧ latestTimestamp app' = t
    ∧ (∀ k, k ≠ getKey (AppId i) (Env i) → apps s' !! k = apps s !! k)
    ∧ (∀ k h l, (k, h) ≠ (getKey (AppId i) (Env i), Hostname i) →
         (stored s' k h l ↔ stored s k h l))
    ∧ arrs s' = arrs s
    ∧ (∀ l v, l ≠ p → objs s !! l = Some v → objs s' !! l = Some v)
    ∧ (∃ i', objs s' !! p = Some i'
             ∧ set_UpTimestamp 0 i' = set_UpTimestamp 0 i).
Proof.
  intros Hwf Hp.
  destruct (Register_effect s p t i Hwf Hp) as (q & i' & w & Hreg & Hi' & _).
  rewrite Hreg. eexists _, _. split; [reflexivity|].
  split; [simpl; by rewrite lookup_insert_eq|].
  split; [simpl; by rewrite lookup_insert_eq|].
  split; [done|].
  split; [intros k Hk; simpl; by rewrite lookup_insert_ne|].
  split.
  { intros k h l Hne. rewrite stored_Register_iff. split.
    - by intros [(-> & -> & _)|[_ ?]].
    - intros ?. by right. }
  split; [done|].
  split.
  { intros l v Hne Hl. simpl. rewrite (lookup_update_snoc_old _ _ _ _ _ _ Hl).
    by rewrite decide_False. }
  exists i'. split; [|done]. simpl.
  rewrite (lookup_update_snoc_old _ _ _ _ _ _ Hp). by rewrite decide_True.
Qed.

Lemma X3_witness :
  ∃ app' s',
    Register 2%nat 20 st_replay = Done (app', None) s'
    ∧ apps s' !! getKey "svc.a" "test" = Some app'
    ∧ is_Some (instances app' !! "h1")
    ∧ latestTimestamp app' = 20
    ∧ (∀ k, k ≠ getKey "svc.a" "test" → apps s' !! k = apps st_replay !! k)
    ∧ (∀ k h l, (k, h) ≠ (getKey "svc.a" "test", "h1") →
         (stored s' k h l ↔ stored st_replay k h l))
    ∧ arrs s' = arrs st_replay
    ∧ (∀ l v, l ≠ 2%nat → objs st_replay !! l = Some v → objs s' !! l = Some v)
    ∧ (∃ i', objs s' !! 2%nat = Some i'
             ∧ set_UpTimestamp 0 i'
               = set_UpTimestamp 0
                   (set_Addrs 1%nat
                      (example_Instance "test" "svc.a" "h1" 1 6 50))).
Proof.
  refine (X3_Register_succeeds_and_touches_one_entry st_replay 2%nat 20
            (set_Addrs 1%nat (example_Instance "test" "svc.a" "h1" 1 6 50))
            _ _).
  - apply reachable_invariant. unfold st_replay. apply reachable_step.
    unfold st_one. apply reachable_run.
  - reflexivity.
Defined.

(** ** Cancel *)

Lemma Cancel_state_lookup key h app p v t s :
  apps s !! key = Some app →
  apps (Cancel_state key h app p v t s) !! key
  = if decide (delete h (instances app) = ∅) then None
    else Some (mkApplication (appId app) (delete h (instances app)) t).
Proof.
  intros Happ. unfold Cancel_state. simpl.
  destruct (Nat.eqb_spec (size (delete h (instances app))) 0) as [Hz|Hnz].
  - apply map_size_empty_iff in Hz. rewrite decide_True by done.
    apply lookup_delete_eq.
  - rewrite decide_False by (by rewrite <- map_size_empty_iff).
    by rewrite lookup_insert_eq.
Qed.

Lemma Cancel_state_lookup_ne key h app p v t s k :
  k ≠ key → apps (Cancel_state key h app p v t s) !! k = apps s !! k.
Proof.
  intros Hk. unfold Cancel_state. simpl. destruct (_ =? _)%nat.
  - by rewrite lookup_delete_ne.
  - by rewrite lookup_insert_ne.
Qed.

Lemma delete_empty_singleton (m : gmap string nat) h p :
  m !! h = Some p → (delete h m = ∅ ↔ m = {[ h := p ]}).
Proof.
  intros Hh. split.
  - intros He. rewrite <- (insert_delete_id m h p Hh), He. apply insert_empty.
  - intros ->. apply delete_singleton_eq.
Qed.

(** X4.  A [Cancel] of a stored instance removes its entry and no other:
    the entries afterwards are those of before but the cancelled one, the
    number of instances drops by one, the other applications are as they
    were, the application of the instance carries the supplied
    [latestTimestamp] if it is still there, the removed object is stamped
    with that timestamp in [LatestTimestamp] and no other object or array
    changes. *)
Theorem X4_Cancel_removes_exactly_one_entry s env appid h t app p v :
  apps s !! getKey appid env = Some app →
  instances app !! h = Some p →
  objs s !! p = Some v →
  ∃ q s',
    Cancel env appid h t s = Done (Some q, None) s'
    ∧ (∀ k' h' l', stored s' k' h' l'
                   ↔ stored s k' h' l' ∧ (k', h') ≠ (getKey appid env, h))
    ∧ (total s' + 1 = total s)%nat
    ∧ (∀ k, k ≠ getKey appid env → apps s' !! k = apps s !! k)
    ∧ (∀ app', apps s' !! getKey appid env = Some app' →
         latestTimestamp app' = t ∧ appId app' = appId app
         ∧ instances app' = delete h (instances app))
    ∧ objs s' !! p = Some (set_LatestTimestamp t v)
    ∧ (∀ l w, l ≠ p → objs s !! l = Some w → objs s' !! l = Some w)
    ∧ arrs s' = arrs s.
Proof.
  intros Happ Hh Hp. rewrite (Cancel_stored s env appid h t app p v Happ Hh Hp).
  eexists _, _. split; [reflexivity|].
  split; [intros k' h' l'; by apply stored_Cancel_state|].
  split; [by apply total_Cancel_state|].
  split; [intros k Hk; by apply Cancel_state_lookup_ne|].
  split.
  { intros app'. rewrite Cancel_state_lookup by done.
    destruct (decide _); [done|]. by intros [= <-]. }
  split.
  { simpl. rewrite (lookup_update_snoc_old _ _ _ _ _ _ Hp).
    by rewrite decide_True. }
  split; [|done].
  intros l w Hne Hl. simpl. rewrite (lookup_update_snoc_old _ _ _ _ _ _ Hl).
  by rewrite decide_False.
Qed.

Lemma X4_witness :
  ∃ q s',
    Cancel "test" "svc.a" "h1" 50 st_three = Done (Some q, None) s'
    ∧ (∀ k' h' l', stored s' k' h' l'
                   ↔ stored st_three k' h' l'
                     ∧ (k', h') ≠ (getKey "svc.a" "test", "h1"))
    ∧ (total s' + 1 = total st_three)%nat
    ∧ (∀ k, k ≠ getKey "svc.a" "test" → apps s' !! k = apps st_three !! k)
    ∧ (∀ app', apps s' !! getKey "svc.a" "test" = Some app' →
         latestTimestamp app' = 50 ∧ appId app' = "svc.a"
         ∧ instances app' = delete "h1" ({[ "h1" := 0%nat; "h2" := 2%nat ]}))
    ∧ objs s' !! 0%nat
      = Some (set_LatestTimestamp 50
                (example_Instance "test" "svc.a" "h1" 1 5 100))
    ∧ (∀ l w, l ≠ 0%nat → objs st_three !! l = Some w → objs s' !! l = Some w)
    ∧ arrs s' = arrs st_three.
Proof.
  refine (X4_Cancel_removes_exactly_one_entry st_three "test" "svc.a" "h1" 50
            (mkApplication "svc.a" {[ "h1" := 0%nat; "h2" := 2%nat ]} 11)
            0%nat (example_Instance "test" "svc.a" "h1" 1 5 100) _ _ _).
  - vm_compute. reflexivity.
  - vm_compute. reflexivity.
  - reflexivity.
Defined.

(** X5.  Once an instance has been cancelled, a second [Cancel] and a
    [Renew] of it fail and change nothing.  The error is "app not found"
    when the instance was the only one of its application, and "instance
    not found" otherwise. *)
Theorem X5_Cancel_and_Renew_fail_after_a_Cancel s env appid h t t' app p v :
  apps s !! getKey appid env = Some app →
  instances app !! h = Some p →
  objs s !! p = Some v →
  ∃ q s' e,
    Cancel env appid h t s = Done (Some q, None) s'
    ∧ Cancel env appid h t' s' = Done (None, Some e) s'
    ∧ Renew env appid h t' s' = Done (None, Some e) s'
    ∧ e = (if decide (instances app = {[ h := p ]})
           then ErrAppNotFound else ErrInstanceNotFound).
Proof.
  intros Happ Hh Hp. rewrite (Cancel_stored s env appid h t app p v Happ Hh Hp).
  eexists _, _, (if decide (instances app = {[ h := p ]})
                 then ErrAppNotFound else ErrInstanceNotFound).
  split; [reflexivity|].
  pose proof (Cancel_state_lookup (getKey appid env) h app p v t s Happ) as Hk.
  destruct (decide (delete h (instances app) = ∅)) as [He|Hne].
  - rewrite decide_True by (by apply delete_empty_singleton).
    split; [by apply Cancel_no_app|]. split; [by apply Renew_no_app | done].
  - rewrite decide_False by (by rewrite <- delete_empty_singleton).
    split; [|split; [|done]].
    + eapply Cancel_no_instance; [exact Hk|]. simpl. apply lookup_delete_eq.
    + eapply Renew_no_instance; [exact Hk|]. simpl. apply lookup_delete_eq.
Qed.

Lemma X5_witness :
  ∃ q s' e,
    Cancel "test" "svc.a" "h1" 50 st_three = Done (Some q, None) s'
    ∧ Cancel "test" "svc.a" "h1" 60 s' = Done (None, Some e) s'
    ∧ Renew "test" "svc.a" "h1" 60 s' = Done (None, Some e) s'
    ∧ e = (if decide (({[ "h1" := 0%nat; "h2" := 2%nat ]} : gmap string nat)
                      = {[ "h1" := 0%nat ]})
           then ErrAppNotFound else ErrInstanceNotFound).
Proof.
  refine (X5_Cancel_and_Renew_fail_after_a_Cancel st_three "test" "svc.a" "h1"
            50 60 (mkApplication "svc.a" {[ "h1" := 0%nat; "h2" := 2%nat ]} 11)
            0%nat (example_Instance "test" "svc.a" "h1" 1 5 100) _ _ _).
  - vm_compute. reflexivity.
  - vm_compute. reflexivity.
  - reflexivity.
Defined.

(** X6.  The instance that [Cancel] returns is a new object, a copy of
    the removed one after it was stamped: it has the supplied
    [LatestTimestamp] and, unlike the copies of [Fetch] and [Renew], the
    address list of the removed object itself, for no array is
    allocated. *)
Theorem X6_Cancel_returns_a_shallow_copy s env appid h t app p v :
  apps s !! getKey appid env = Some app →
  instances app !! h = Some p →
  objs s !! p = Some v →
  ∃ q s' vq,
    Cancel env appid h t s = Done (Some q, None) s'
    ∧ objs s !! q = None
    ∧ objs s' !! q = Some vq
    ∧ objs s' !! p = Some vq
    ∧ vq = set_LatestTimestamp t v
    ∧ Addrs vq = Addrs v
    ∧ arrs s' = arrs s.
Proof.
  intros Happ Hh Hp. rewrite (Cancel_stored s env appid h t app p v Happ Hh Hp).
  eexists _, _, _. split; [reflexivity|].
  split; [by apply lookup_ge_None|].
  split.
  { simpl. rewrite lookup_app_r by (by rewrite length_insert).
    by rewrite length_insert, Nat.sub_diag. }
  split.
  { simpl. rewrite (lookup_update_snoc_old _ _ _ _ _ _ Hp).
    by rewrite decide_True. }
  done.
Qed.

Lemma X6_witness :
  ∃ q s' vq,
    Cancel "test" "svc.a" "h1" 50 st_one = Done (Some q, None) s'
    ∧ objs st_one !! q = None
    ∧ objs s' !! q = Some vq
    ∧ objs s' !! 0%nat = Some vq
    ∧ vq = set_LatestTimestamp 50 (example_Instance "test" "svc.a" "h1" 1 5 100)
    ∧ Addrs vq = Addrs (example_Instance "test" "svc.a" "h1" 1 5 100)
    ∧ arrs s' = arrs st_one.
Proof.
  refine (X6_Cancel_returns_a_shallow_copy st_one "test" "svc.a" "h1" 50
            (mkApplication "svc.a" {[ "h1" := 0%nat ]} 10)
            0%nat (example_Instance "test" "svc.a" "h1" 1 5 100) _ _ _).
  - vm_compute. reflexivity.
  - vm_compute. reflexivity.
  - reflexivity.
Defined.

(** X7.  In a well-formed state [Cancel] never panics and its error tells
    what is missing: none exactly when the instance is stored, "app not
    found" exactly when the key has no application, "instance not found"
    exactly when the application has no such hostname.  A failed [Cancel]
    returns no instance and leaves the state as it was. *)
Theorem X7_Cancel_reports_what_is_missing s env appid h t :
  wf s →
  ∃ r e s',
    Cancel env appid h t s = Done (r, e) s'
    ∧ (e = None ↔ ∃ p, stored s (getKey appid env) h p)
    ∧ (e = Some ErrAppNotFound ↔ apps s !! getKey appid env = None)
    ∧ (e = Some ErrInstanceNotFound
       ↔ ∃ app, apps s !! getKey appid env = Some app
                ∧ instances app !! h = None)
    ∧ (e = None → r = Some (length (objs s)))
    ∧ (e ≠ None → r = None ∧ s' = s).
Proof.
  intros Hwf.
  destruct (apps s !! getKey appid env) as [app|] eqn:Happ.
  - destruct (instances app !! h) as [p|] eqn:Hh.
    + destruct (wf_stored _ Hwf (getKey appid env) h p) as (v & Hp & _);
        [by exists app|].
      rewrite (Cancel_stored s env appid h t app p v Happ Hh Hp).
      eexists _, _, _. split; [reflexivity|].
      split; [split; [intros _; exists p; by exists app | done]|].
      split; [done|].
      split; [split; [done | intros (a & ? & Ha); congruence]|].
      done.
    + rewrite (Cancel_no_instance s env appid h t app Happ Hh).
      eexists _, _, _. split; [reflexivity|].
      split; [split; [done | intros (p0 & a & ? & Ha); congruence]|].
      split; [done|].
      split; [split; [intros _; by exists app | done]|].
      done.
  - rewrite (Cancel_no_app s env appid h t Happ).
    eexists _, _, _. split; [reflexivity|].
    split; [split; [done | intros (p & a & Ha & _); congruence]|].
    split; [done|].
    split; [split; [done | intros (a & Ha & _); congruence]|].
    done.
Qed.

Lemma X7_witness :
  ∃ r e s',
    Cancel "test" "svc.a" "h9" 50 st_three = Done (r, e) s'
    ∧ (e = None ↔ ∃ p, stored st_three (getKey "svc.a" "test") "h9" p)
    ∧ (e = Some ErrAppNotFound ↔ apps st_three !! getKey "svc.a" "test" = None)
    ∧ (e = Some ErrInstanceNotFound
       ↔ ∃ app, apps st_three !! getKey "svc.a" "test" = Some app
                ∧ instances app !! "h9" = None)
    ∧ (e = None → r = Some (length (objs st_three)))
    ∧ (e ≠ None → r = None ∧ s' = st_three).
Proof.
  refine (X7_Cancel_reports_what_is_missing st_three "test" "svc.a" "h9" 50 _).
  apply reachable_invariant. unfold st_three. apply reachable_run.
Defined.

(** ** Renew *)

(** X8.  In a well-formed state [Renew] never panics and its error tells
    what is missing, as for [Cancel]; a failed [Renew] returns no instance
    and leaves the state as it was. *)
Theorem X8_Renew_reports_what_is_missing s env appid h now :
  wf s →
  ∃ r e s',
    Renew env appid h now s = Done (r, e) s'
    ∧ (e = None ↔ ∃ p, stored s (getKey appid env) h p)
    ∧ (e = Some ErrAppNotFound ↔ apps s !! getKey appid env = None)
    ∧ (e = Some ErrInstanceNotFound
       ↔ ∃ app, apps s !! getKey appid env = Some app
                ∧ instances app !! h = None)
    ∧ (e = None → r = Some (length (objs s)))
    ∧ (e ≠ None → r = None ∧ s' = s).
Proof.
  intros Hwf.
  destruct (apps s !! getKey appid env) as [app|] eqn:Happ.
  - destruct (instances app !! h) as [p|] eqn:Hh.
    + destruct (wf_stored _ Hwf (getKey appid env) h p) as (v & Hp & _);
        [by exists app|].
      rewrite (Renew_stored s env appid h now app p v Happ Hh Hp).
      eexists _, _, _. split; [reflexivity|].
      split; [split; [intros _; exists p; by exists app | done]|].
      split; [done|].
      split; [split; [done | intros (a & ? & Ha); congruence]|].
      done.
    + rewrite (Renew_no_instance s env appid h now app Happ Hh).
      eexists _, _, _. split; [reflexivity|].
      split; [split; [done | intros (p0 & a & ? & Ha); congruence]|].
      split; [done|].
      split; [split; [intros _; by exists app | done]|].
      done.
  - rewrite (Renew_no_app s env appid h now Happ).
    eexists _, _, _. split; [reflexivity|].
    split; [split; [done | intros (p & a & Ha & _); congruence]|].
    split; [done|].
    split; [split; [done | intros (a & Ha & _); congruence]|].
    done.
Qed.

Lemma X8_witness :
  ∃ r e s',
    Renew "test" "svc.c" "h1" 50 st_three = Done (r, e) s'
    ∧ (e = None ↔ ∃ p, stored st_three (getKey "svc.c" "test") "h1" p)
    ∧ (e = Some ErrAppNotFound ↔ apps st_three !! getKey "svc.c" "test" = None)
    ∧ (e = Some ErrInstanceNotFound
       ↔ ∃ app, apps st_three !! getKey "svc.c" "test" = Some app
                ∧ instances app !! "h1" = None)
    ∧ (e = None → r = Some (length (objs st_three)))
    ∧ (e ≠ None → r = None ∧ s' = st_three).
Proof.
  refine (X8_Renew_reports_what_is_missing st_three "test" "svc.c" "h1" 50 _).
  apply reachable_invariant. unfold st_three. apply reachable_run.
Defined.

(** X9.  A [Renew] of a stored instance writes the supplied time to the
    [RenewTimestamp] of the stored object and to nothing else: the map of
    applications, with every [latestTimestamp], the other objects and the
    existing arrays are as before.  The instance it returns is a new
    object over a new array, equal to the renewed instance in every field
    and in the elements of its address list. *)
Theorem X9_Renew_stamps_the_instance_and_returns_a_deep_copy
    s env appid h now app p v :
  wf s →
  apps s !! getKey appid env = Some app →
  instances app !! h = Some p →
  objs s !! p = Some v →
  ∃ q s' vq,
    Renew env appid h now s = Done (Some q, None) s'
    ∧ apps s' = apps s
    ∧ objs s' !! p = Some (set_RenewTimestamp now v)
    ∧ (∀ l w, l ≠ p → objs s !! l = Some w → objs s' !! l = Some w)
    ∧ arrs s `prefix_of` arrs s'
    ∧ objs s !! q = None
    ∧ objs s' !! q = Some vq
    ∧ set_Addrs 0%nat vq = set_Addrs 0%nat (set_RenewTimestamp now v)
    ∧ arrs s !! Addrs vq = None
    ∧ slice_of s' (Addrs vq) = slice_of s (Addrs v).
Proof.
  intros Hwf Happ Hh Hp. pose proof (lookup_lt_Some _ _ _ Hp) as Hlt.
  pose proof (wf_addrs _ Hwf _ _ Hp) as Ha.
  rewrite (Renew_stored s env appid h now app p v Happ Hh Hp).
  eexists _, _, (set_Addrs (length (arrs s)) (set_RenewTimestamp now v)).
  split; [reflexivity|]. unfold Renew_state, copy_state. simpl.
  split; [done|]. split.
  { rewrite lookup_app_l by (by rewrite length_insert).
    by apply list_lookup_insert_eq. }
  split.
  { intros l w Hne Hw. rewrite lookup_app_l.
    - by rewrite list_lookup_insert_ne.
    - rewrite length_insert. by eapply lookup_lt_Some. }
  split; [by apply prefix_app_r|].
  split; [by apply lookup_ge_None|].
  split.
  { rewrite lookup_app_r by (by rewrite length_insert).
    by rewrite length_insert, Nat.sub_diag. }
  split; [done|].
  split; [by apply lookup_ge_None|].
  unfold slice_of. simpl.
  rewrite lookup_app_r, Nat.sub_diag by lia. reflexivity.
Qed.

Lemma X9_witness :
  ∃ q s' vq,
    Renew "test" "svc.a" "h1" 77 st_one = Done (Some q, None) s'
    ∧ apps s' = apps st_one
    ∧ objs s' !! 0%nat
      = Some (set_RenewTimestamp 77
                (example_Instance "test" "svc.a" "h1" 1 5 100))
    ∧ (∀ l w, l ≠ 0%nat → objs st_one !! l = Some w → objs s' !! l = Some w)
    ∧ arrs st_one `prefix_of` arrs s'
    ∧ objs st_one !! q = None
    ∧ objs s' !! q = Some vq
    ∧ set_Addrs 0%nat vq
      = set_Addrs 0%nat
          (set_RenewTimestamp 77 (example_Instance "test" "svc.a" "h1" 1 5 100))
    ∧ arrs st_one !! Addrs vq = None
    ∧ slice_of s' (Addrs vq)
      = slice_of st_one (Addrs (example_Instance "test" "svc.a" "h1" 1 5 100)).
Proof.
  refine (X9_Renew_stamps_the_instance_and_returns_a_deep_copy st_one
            "test" "svc.a" "h1" 77 (mkApplication "svc.a" {[ "h1" := 0%nat ]} 10)
            0%nat (example_Instance "test" "svc.a" "h1" 1 5 100) _ _ _ _).
  - apply reachable_invariant. unfold st_one. apply reachable_run.
  - vm_compute. reflexivity.
  - vm_compute. reflexivity.
  - reflexivity.
Defined.

(** ** Register and Cancel *)

(** X10.  [Cancel] undoes the [Register] of a new hostname: after the two
    calls the registry holds the entries it held before and as many
    instances; when the registration had created the application, the map
    of applications is the one of before. *)
Theorem X10_Cancel_undoes_the_Register_of_a_new_hostname s p t t' i :
  objs s !! p = Some i →
  (∀ l, ¬ stored s (getKey (AppId i) (Env i)) (Hostname i) l) →
  ∃ app' s1 q s2,
    Register p t s = Done (app', None) s1
    ∧ Cancel (Env i) (AppId i) (Hostname i) t' s1 = Done (Some q, None) s2
    ∧ (∀ k h l, stored s2 k h l ↔ stored s k h l)
    ∧ total s2 = total s
    ∧ (apps s !! getKey (AppId i) (Env i) = None → apps s2 = apps s).
Proof.
  intros Hp Hnew.
  assert (Hh : instances (app_of s i) !! Hostname i = None).
  { destruct (instances (app_of s i) !! Hostname i) as [l|] eqn:Hh; [|done].
    destruct (Hnew l). by apply app_of_stored. }
  rewrite (Register_new s p t i Hp Hh).
  set (app1 := Register_app (app_of s i) (Hostname i) p t).
  set (s1 := mkState _ _ _).
  assert (Happ1 : apps s1 !! getKey (AppId i) (Env i) = Some app1)
    by (simpl; by rewrite lookup_insert_eq).
  assert (Hh1 : instances app1 !! Hostname i = Some p)
    by (simpl; by rewrite lookup_insert_eq).
  assert (Hp1 : objs s1 !! p = Some i) by (simpl; lookup_old).
  exists app1, s1. rewrite (Cancel_stored s1 _ _ _ t' app1 p i Happ1 Hh1 Hp1).
  eexists _, _. split; [reflexivity|]. split; [reflexivity|].
  split.
  { intros k h l. rewrite stored_Cancel_state by done.
    unfold s1, app1. rewrite stored_Register_iff. split.
    - intros [[(-> & -> & _)|[_ ?]] Hne]; done.
    - intros Hst. split; [|intros [= -> ->]; by eapply Hnew].
      right. split; [|done]. intros [= -> ->]. by eapply Hnew. }
  split.
  { pose proof (total_Cancel_state _ _ _ _ i t' s1 Happ1 Hh1) as Ht.
    assert (Ht1 : total s1 = S (total s))
      by (unfold s1, app1; by rewrite total_Register, Hh).
    lia. }
  intros Hnone. unfold Cancel_state. simpl.
  assert (Hof : app_of s i = NewApplication (AppId i))
    by (unfold app_of; by rewrite Hnone).
  rewrite Hof. simpl. rewrite delete_insert_id by apply lookup_empty.
  rewrite map_size_empty. simpl.
  rewrite delete_insert_id by done. reflexivity.
Qed.

Lemma X10_witness :
  ∃ app' s1 q s2,
    Register 2%nat 30 st_second = Done (app', None) s1
    ∧ Cancel "test" "svc.a" "h2" 40 s1 = Done (Some q, None) s2
    ∧ (∀ k h l, stored s2 k h l ↔ stored st_second k h l)
    ∧ total s2 = total st_second
    ∧ (apps st_second !! getKey "svc.a" "test" = None
       → apps s2 = apps st_second).
Proof.
  refine (X10_Cancel_undoes_the_Register_of_a_new_hostname st_second 2%nat 30
            40 (set_Addrs 1%nat (example_Instance "test" "svc.a" "h2" 2 5 100))
            _ _).
  - reflexivity.
  - intros l (app & Happ & Hl). vm_compute in Happ. injection Happ as <-.
    vm_compute in Hl. discriminate.
Defined.

(** ** copyInstance, GetInstance and Fetch *)

Lemma matching_elem m s l v :
  v ∈ matching m s l
  ↔ ∃ hp, hp ∈ l ∧ objs s !! hp.2 = Some v ∧ selects m v = true.
Proof.
  unfold matching. rewrite list_elem_of_omap. split.
  - intros (hp & Hin & Hf). exists hp. split; [done|].
    destruct (objs s !! hp.2) as [w|]; simpl in Hf; [|done].
    unfold selects. destruct (0 <? N.land m (Status w))%N eqn:E; by simplify_eq.
  - intros (hp & Hin & Hv & Hs). exists hp. split; [done|]. rewrite Hv. simpl.
    unfold selects in Hs. by rewrite Hs.
Qed.

Lemma matching_selected m s app v :
  v ∈ matching m s (map_to_list (instances app))
  ↔ ∃ h l, selected m s app h l v.
Proof.
  rewrite matching_elem. split.
  - intros ([h l] & Hin%elem_of_map_to_list & Hv & Hs). by exists h, l.
  - intros (h & l & Hh & Hv & Hs). exists (h, l).
    by rewrite elem_of_map_to_list.
Qed.

Lemma matching_length m s l :
  length (matching m s l)
  = length (filter (λ hp, selects_at m s hp.2 = true) l).
Proof.
  induction l as [|hp l IH]; [done|].
  rewrite filter_cons.
  destruct (selects_at m s hp.2) eqn:Hs; unfold selects_at in Hs.
  - rewrite decide_True by done.
    destruct (objs s !! hp.2) as [w|] eqn:Hw; simpl in Hs; [|done].
    rewrite (matching_cons _ _ _ _ w) by done. unfold selects in Hs.
    rewrite Hs. simpl. by rewrite IH.
  - rewrite decide_False by done. rewrite <- IH.
    destruct (objs s !! hp.2) as [w|] eqn:Hw; simpl in Hs.
    + rewrite (matching_cons _ _ _ _ w) by done. unfold selects in Hs.
      by rewrite Hs.
    + unfold matching. simpl. by rewrite Hw.
Qed.



(** The state a [Fetch] leaves, whether it returns or panics: the one it
    started from, with the copies it took. *)
Lemma Fetch_state s env appid m since :
  wf s →
  ∃ ms, state_of (Fetch env appid m since s) = fetch_state ms s
        ∧ ∀ v, v ∈ ms → (Addrs v < length (arrs s))%nat.
Proof.
  intros Hwf. destruct (apps s !! getKey appid env) as [app|] eqn:Happ.
  - destruct (Z.le_gt_cases (latestTimestamp app) since) as [Ht|Ht].
    + rewrite (Fetch_not_fresh _ _ _ _ _ app) by done.
      exists []. split; [by rewrite fetch_state_nil | by intros v ?%elem_of_nil].
    + pose proof (wf_live _ _ _ Hwf Happ) as Hl.
      rewrite (Fetch_fresh _ _ _ _ _ app) by (done || lia).
      destruct (bool_decide_reflect
                  (matching m s (map_to_list (instances app)) = [])) as [He|He].
      * exists []. split; [by rewrite fetch_state_nil | by intros v ?%elem_of_nil].
      * eexists. split; [reflexivity|]. intros v Hv. by eapply matching_addrs.
  - rewrite Fetch_no_app by done.
    exists []. split; [by rewrite fetch_state_nil | by intros v ?%elem_of_nil].
Qed.

(** X11.  [copyInstance] of a live instance returns a new object over a
    new array: the copy has the fields of the source and an address list
    with the same elements, the source and everything else are left as
    they were, and a later write to the address list of the copy does not
    show in the source. *)
Theorem X11_copyInstance_is_a_deep_copy s src v :
  objs s !! src = Some v →
  (Addrs v < length (arrs s))%nat →
  ∃ dst s' w,
    copyInstance src s = Done dst s'
    ∧ objs s !! dst = None
    ∧ objs s' !! dst = Some w
    ∧ arrs s !! Addrs w = None
    ∧ view s' dst = view s src
    ∧ apps s' = apps s
    ∧ objs s `prefix_of` objs s'
    ∧ arrs s `prefix_of` arrs s'
    ∧ ∀ xs, view (set_arrs (λ h, <[Addrs w := xs]> h) s') src = view s src.
Proof.
  intros Hsrc Ha. rewrite (copyInstance_eq s src v Hsrc).
  eexists _, _, (set_Addrs (length (arrs s)) v). split; [reflexivity|].
  split; [by apply lookup_ge_None|].
  split; [simpl; by rewrite lookup_app_r, Nat.sub_diag|].
  split; [by apply lookup_ge_None|].
  split.
  { unfold view, copy_state, slice_of. simpl.
    rewrite lookup_app_r, Nat.sub_diag by done. simpl.
    rewrite lookup_app_r, Nat.sub_diag by done. simpl. by rewrite Hsrc. }
  split; [done|].
  split; [by apply prefix_app_r|].
  split; [by apply prefix_app_r|].
  intros xs. unfold view, copy_state, slice_of. simpl.
  rewrite lookup_app_l by (by eapply lookup_lt_Some). rewrite Hsrc. simpl.
  rewrite list_lookup_insert_ne by lia. by rewrite lookup_app_l.
Qed.

Lemma X11_witness :
  ∃ dst s' w,
    copyInstance 0%nat st_one = Done dst s'
    ∧ objs st_one !! dst = None
    ∧ objs s' !! dst = Some w
    ∧ arrs st_one !! Addrs w = None
    ∧ view s' dst = view st_one 0%nat
    ∧ apps s' = apps st_one
    ∧ objs st_one `prefix_of` objs s'
    ∧ arrs st_one `prefix_of` arrs s'
    ∧ ∀ xs, view (set_arrs (λ h, <[Addrs w := xs]> h) s') 0%nat
            = view st_one 0%nat.
Proof.
  refine (X11_copyInstance_is_a_deep_copy st_one 0%nat
            (example_Instance "test" "svc.a" "h1" 1 5 100) _ _).
  - reflexivity.
  - vm_compute. lia.
Defined.

(** X12.  [GetInstance] checks the timestamp before the mask.  It answers
    "latest timestamp is not latest" exactly when the timestamp of the
    caller is not below the [latestTimestamp] of the application, "not
    exist condition instance" exactly when the timestamp is below it and
    the mask selects no instance, and in both cases returns a nil result
    and changes nothing.  Otherwise the result carries the
    [latestTimestamp] of the application and a list of instances that is
    not empty. *)
Theorem X12_GetInstance_checks_the_timestamp_before_the_mask s k app m t :
  wf s → apps s !! k = Some app →
  ∃ r e s',
    GetInstance app m t s = Done (r, e) s'
    ∧ (e = Some ErrNotFresh ↔ latestTimestamp app ≤ t)
    ∧ (e = Some ErrNoMatchingInstance
       ↔ t < latestTimestamp app ∧ ∀ h l v, ¬ selected m s app h l v)
    ∧ (e = None ↔ t < latestTimestamp app ∧ ∃ h l v, selected m s app h l v)
    ∧ (e ≠ None → r = None ∧ s' = s)
    ∧ (e = None →
       ∃ qs, r = Some (mkFetchData qs (latestTimestamp app)) ∧ qs ≠ []).
Proof.
  intros Hwf Happ.
  destruct (Z.le_gt_cases (latestTimestamp app) t) as [Ht|Ht].
  - rewrite GetInstance_not_fresh by done.
    eexists _, _, _. split; [reflexivity|].
    split; [done|]. split; [split; [done | lia]|].
    split; [split; [done | lia]|]. done.
  - pose proof (wf_live _ _ _ Hwf Happ) as Hl.
    rewrite GetInstance_fresh by (done || lia).
    destruct (bool_decide_reflect
                (matching m s (map_to_list (instances app)) = [])) as [He|He].
    + assert (Hno : ∀ h l v, ¬ selected m s app h l v).
      { intros h l v Hs.
        assert (Hin : v ∈ matching m s (map_to_list (instances app)))
          by (apply matching_selected; by exists h, l).
        rewrite He in Hin. by apply elem_of_nil in Hin. }
      rewrite He, fetch_state_nil. eexists _, _, _. split; [reflexivity|].
      split; [split; [done | lia]|].
      split; [split; [intros _; split; [lia | done] | done]|].
      split; [split; [done | intros (_ & h & l & v & Hs); by destruct (Hno h l v)]|].
      done.
    + assert (Hsome : ∃ h l v, selected m s app h l v).
      { destruct (matching m s (map_to_list (instances app))) as [|v ms] eqn:E;
          [done|].
        assert (Hin : v ∈ matching m s (map_to_list (instances app)))
          by (rewrite E; by left).
        apply matching_selected in Hin as (h & l & Hs). by exists h, l, v. }
      eexists _, _, _. split; [reflexivity|].
      split; [split; [done | lia]|].
      split.
      { split; [done|]. intros (_ & Hno). destruct Hsome as (h & l & v & Hs).
        by destruct (Hno h l v). }
      split; [split; [intros _; split; [lia | done] | done]|].
      split; [done|]. intros _. eexists. split; [reflexivity|].
      intros Hnil. apply He. apply (f_equal length) in Hnil.
      rewrite length_seq in Hnil. by apply nil_length_inv.
Qed.

Lemma X12_witness :
  ∃ r e s',
    GetInstance (mkApplication "svc.a" {[ "h1" := 0%nat ]} 10) 2 10 st_one
    = Done (r, e) s'
    ∧ (e = Some ErrNotFresh ↔ 10 ≤ 10)
    ∧ (e = Some ErrNoMatchingInstance
       ↔ 10 < 10
         ∧ ∀ h l v, ¬ selected 2 st_one
                        (mkApplication "svc.a" {[ "h1" := 0%nat ]} 10) h l v)
    ∧ (e = None
       ↔ 10 < 10
         ∧ ∃ h l v, selected 2 st_one
                      (mkApplication "svc.a" {[ "h1" := 0%nat ]} 10) h l v)
    ∧ (e ≠ None → r = None ∧ s' = st_one)
    ∧ (e = None → ∃ qs, r = Some (mkFetchData qs 10) ∧ qs ≠ []).
Proof.
  refine (X12_GetInstance_checks_the_timestamp_before_the_mask st_one
            (getKey "svc.a" "test")
            (mkApplication "svc.a" {[ "h1" := 0%nat ]} 10) 2 10 _ _).
  - apply reachable_invariant. unfold st_one. apply reachable_run.
  - vm_compute. reflexivity.
Defined.

(** X13.  When the timestamp of the caller is below the
    [latestTimestamp] of the application and the mask selects at least
    one of its instances, [Fetch] returns, without error, exactly one new
    object for each selected instance, deep-equal to it, and nothing
    else. *)
Theorem X13_Fetch_returns_one_copy_of_each_selected_instance
    s env appid m since app :
  wf s →
  apps s !! getKey appid env = Some app →
  since < latestTimestamp app →
  (∃ h l v, selected m s app h l v) →
  ∃ qs s',
    Fetch env appid m since s = Done (qs, None) s'
    ∧ NoDup qs
    ∧ length qs
      = length (filter (λ hp, selects_at m s hp.2 = true)
                  (map_to_list (instances app)))
    ∧ (∀ q, q ∈ qs →
         objs s !! q = None
         ∧ ∃ h l v, selected m s app h l v ∧ view s' q = view s l)
    ∧ (∀ h l v, selected m s app h l v → ∃ q, q ∈ qs ∧ view s' q = view s l).
Proof.
  intros Hwf Happ Ht (h0 & l0 & v0 & Hs0).
  pose proof (wf_live _ _ _ Hwf Happ) as Hl.
  set (ms := matching m s (map_to_list (instances app))).
  assert (Hms : ms ≠ []).
  { assert (Hin : v0 ∈ ms) by (apply matching_selected; by exists h0, l0).
    intros He. rewrite He in Hin. by apply elem_of_nil in Hin. }
  pose proof (Fetch_fresh s env appid m since app Happ Ht Hl) as Hf.
  simpl in Hf. fold ms in Hf. rewrite bool_decide_eq_false_2 in Hf by done.
  rewrite Hf. eexists _, _. split; [reflexivity|].
  split; [apply NoDup_seq|].
  split; [rewrite length_seq; apply matching_length|].
  assert (Hview : ∀ h l v, selected m s app h l v →
            view s l = Some (set_Addrs 0%nat v, slice_of s (Addrs v))).
  { intros h l v (_ & Hv & _). unfold view. by rewrite Hv. }
  split.
  - intros q [Hge Hlt]%elem_of_seq. split; [apply lookup_ge_None; lia|].
    destruct (lookup_lt_is_Some_2 ms (q - length (objs s))) as [v Hv]; [lia|].
    assert (Hin : v ∈ ms) by (by eapply list_elem_of_lookup_2).
    apply matching_selected in Hin as (h & l & Hs). exists h, l, v.
    split; [done|]. rewrite (Hview _ _ _ Hs).
    replace q with (length (objs s) + (q - length (objs s)))%nat at 1 by lia.
    by apply view_fetch_state.
  - intros h l v Hs.
    assert (Hin : v ∈ ms) by (apply matching_selected; by exists h, l).
    apply list_elem_of_lookup in Hin as [j Hj].
    exists (length (objs s) + j)%nat. split.
    + apply elem_of_seq. apply lookup_lt_Some in Hj. lia.
    + rewrite (Hview _ _ _ Hs). by apply view_fetch_state.
Qed.

Lemma X13_witness :
  ∃ qs s',
    Fetch "test" "svc.a" 1 0 st_three = Done (qs, None) s'
    ∧ NoDup qs
    ∧ length qs
      = length (filter (λ hp, selects_at 1 st_three hp.2 = true)
                  (map_to_list ({[ "h1" := 0%nat; "h2" := 2%nat ]}
                                : gmap string nat)))
    ∧ (∀ q, q ∈ qs →
         objs st_three !! q = None
         ∧ ∃ h l v,
             selected 1 st_three
               (mkApplication "svc.a" {[ "h1" := 0%nat; "h2" := 2%nat ]} 11)
               h l v
             ∧ view s' q = view st_three l)
    ∧ (∀ h l v,
         selected 1 st_three
           (mkApplication "svc.a" {[ "h1" := 0%nat; "h2" := 2%nat ]} 11) h l v →
         ∃ q, q ∈ qs ∧ view s' q = view st_three l).
Proof.
  refine (X13_Fetch_returns_one_copy_of_each_selected_instance st_three
            "test" "svc.a" 1 0
            (mkApplication "svc.a" {[ "h1" := 0%nat; "h2" := 2%nat ]} 11)
            _ _ _ _).
  - apply reachable_invariant. unfold st_three. apply reachable_run.
  - vm_compute. reflexivity.
  - simpl. lia.
  - exists "h1", 0%nat, (example_Instance "test" "svc.a" "h1" 1 5 100).
    split; [vm_compute; reflexivity|]. split; reflexivity.
Defined.

(** X14.  [Fetch] reads the registry and does not change it, whether it
    returns instances, returns an error or panics: the map of applications
    is the same afterwards, and objects and arrays are only added, the
    existing ones keeping their contents. *)
Theorem X14_Fetch_changes_nothing_of_the_registry s env appid m since :
  wf s →
  apps (state_of (Fetch env appid m since s)) = apps s
  ∧ objs s `prefix_of` objs (state_of (Fetch env appid m since s))
  ∧ arrs s `prefix_of` arrs (state_of (Fetch env appid m since s))
  ∧ wf (state_of (Fetch env appid m since s)).
Proof.
  intros Hwf. destruct (Fetch_state s env appid m since Hwf) as (ms & -> & Ha).
  split; [done|]. split; [by apply prefix_app_r|].
  split; [by apply prefix_app_r|]. by apply wf_fetch_state.
Qed.

Lemma X14_witness :
  apps (state_of (Fetch "test" "svc.a" 1 0 st_three)) = apps st_three
  ∧ objs st_three `prefix_of` objs (state_of (Fetch "test" "svc.a" 1 0 st_three))
  ∧ arrs st_three `prefix_of` arrs (state_of (Fetch "test" "svc.a" 1 0 st_three))
  ∧ wf (state_of (Fetch "test" "svc.a" 1 0 st_three)).
Proof.
  refine (X14_Fetch_changes_nothing_of_the_registry st_three "test" "svc.a"
            1 0 _).
  apply reachable_invariant. unfold st_three. apply reachable_run.
Defined.



(** ** GetAllInstances *)

Lemma wf_valid s k app :
  wf s → apps s !! k = Some app → valid s (map_to_list (instances app)).
Proof.
  intros Hwf Happ. apply Forall_forall. intros [h l] Hin%elem_of_map_to_list.
  destruct (wf_stored _ Hwf k h l) as (v & Hv & _); [by exists app|].
  by exists v.
Qed.

(** X16.  [GetAllInstances] returns one new object for each instance of
    the application, with the fields of the stored object, the address
    list included: the copies share the arrays of the stored instances,
    and nothing else is allocated or changed. *)
Theorem X16_GetAllInstances_returns_shallow_copies s k app :
  wf s → apps s !! k = Some app →
  ∃ qs s',
    GetAllInstances app s = Done qs s'
    ∧ length qs = size (instances app)
    ∧ NoDup qs
    ∧ apps s' = apps s
    ∧ arrs s' = arrs s
    ∧ objs s `prefix_of` objs s'
    ∧ (∀ q, q ∈ qs →
         objs s !! q = None
         ∧ ∃ h l, instances app !! h = Some l ∧ objs s' !! q = objs s !! l)
    ∧ (∀ h l, instances app !! h = Some l →
         ∃ q, q ∈ qs ∧ objs s' !! q = objs s !! l).
Proof.
  intros Hwf Happ. pose proof (wf_valid _ _ _ Hwf Happ) as Hv.
  unfold GetAllInstances. rewrite GetAllInstances_loop_eq by done. simpl.
  eexists _, _. split; [reflexivity|].
  split; [by rewrite length_seq, length_map_to_list|].
  split; [apply NoDup_seq|]. split; [done|]. split; [done|].
  split; [by apply prefix_app_r|].
  assert (Hat : ∀ j hp, map_to_list (instances app) !! j = Some hp →
            (objs s ++ values s (map_to_list (instances app)))
              !! (length (objs s) + j)%nat = objs s !! hp.2).
  { intros j hp Hj. rewrite lookup_app_r by lia.
    replace (length (objs s) + j - length (objs s))%nat with j by lia.
    by apply values_lookup. }
  split.
  - intros q [Hge Hlt]%elem_of_seq. split; [apply lookup_ge_None; lia|].
    destruct (lookup_lt_is_Some_2 (map_to_list (instances app))
                (q - length (objs s))) as [[h l] Hj]; [lia|].
    exists h, l. split; [by eapply elem_of_map_to_list, list_elem_of_lookup_2|].
    etrans; [|exact (Hat _ _ Hj)]. simpl. f_equal. lia.
  - intros h l Hh. apply elem_of_map_to_list, list_elem_of_lookup in Hh as [j Hj].
    exists (length (objs s) + j)%nat. split.
    + apply elem_of_seq. apply lookup_lt_Some in Hj. lia.
    + exact (Hat _ _ Hj).
Qed.

Lemma X16_witness :
  ∃ qs s',
    GetAllInstances (mkApplication "svc.a" {[ "h1" := 0%nat; "h2" := 2%nat ]} 11)
      st_three = Done qs s'
    ∧ length qs = size ({[ "h1" := 0%nat; "h2" := 2%nat ]} : gmap string nat)
    ∧ NoDup qs
    ∧ apps s' = apps st_three
    ∧ arrs s' = arrs st_three
    ∧ objs st_three `prefix_of` objs s'
    ∧ (∀ q, q ∈ qs →
         objs st_three !! q = None
         ∧ ∃ h l, ({[ "h1" := 0%nat; "h2" := 2%nat ]} : gmap string nat) !! h
                  = Some l
                  ∧ objs s' !! q = objs st_three !! l)
    ∧ (∀ h l, ({[ "h1" := 0%nat; "h2" := 2%nat ]} : gmap string nat) !! h
              = Some l →
         ∃ q, q ∈ qs ∧ objs s' !! q = objs st_three !! l).
Proof.
  refine (X16_GetAllInstances_returns_shallow_copies st_three
            (getKey "svc.a" "test")
            (mkApplication "svc.a" {[ "h1" := 0%nat; "h2" := 2%nat ]} 11) _ _).
  - apply reachable_invariant. unfold st_three. apply reachable_run.
  - vm_compute. reflexivity.
Defined.

(** ** What an eviction pass removes *)

Lemma cancel_steps_mono t K K' s s' :
  K ⊆ K' → cancel_steps t K s s' → cancel_steps t K' s s'.
Proof.
  intros Hsub. induction 1 as [s|s k h app p v s' Hin Happ Hh Hp _ IH].
  - constructor.
  - eapply cancel_steps_step; [by apply Hsub | done..].
Qed.

Lemma cancel_steps_stored t K s s' :
  cancel_steps t K s s' → ∀ k h p, stored s' k h p → stored s k h p.
Proof.
  induction 1 as [s|s k h app p v s' Hin Happ Hh Hp _ IH]; [done|].
  intros k' h' p' Hs. apply IH in Hs.
  by apply stored_Cancel_state in Hs as [Hs _].
Qed.

Lemma cancel_steps_keeps t K s s' :
  cancel_steps t K s s' →
  ∀ k h p, stored s k h p → (k, h) ∉ K → stored s' k h p.
Proof.
  induction 1 as [s|s k h app p v s' Hin Happ Hh Hp _ IH]; [done|].
  intros k' h' p' Hs Hnin. apply IH; [|done].
  apply stored_Cancel_state; [done|]. split; [done|]. by intros [= -> ->].
Qed.

Lemma cancel_steps_apps t K s s' :
  cancel_steps t K s s' →
  ∀ k, (∀ h, (k, h) ∉ K) → apps s' !! k = apps s !! k.
Proof.
  induction 1 as [s|s k h app p v s' Hin Happ Hh Hp _ IH]; [done|].
  intros k' Hnin. rewrite IH by done.
  apply Cancel_state_lookup_ne. intros ->. by eapply Hnin.
Qed.

Lemma cancel_steps_arrs t K s s' : cancel_steps t K s s' → arrs s' = arrs s.
Proof.
  induction 1 as [s|s k h app p v s' Hin Happ Hh Hp _ IH]; [done|].
  by rewrite IH.
Qed.

Lemma cancel_steps_objs t K s s' :
  cancel_steps t K s s' →
  ∀ l w, objs s !! l = Some w →
  ∃ w', objs s' !! l = Some w'
        ∧ set_LatestTimestamp 0 w' = set_LatestTimestamp 0 w.
Proof.
  induction 1 as [s|s k h app p v s' Hin Happ Hh Hp _ IH]; intros l w Hl;
    [by exists w|].
  destruct (IH l (if decide (l = p) then set_LatestTimestamp t v else w))
    as (w' & Hw' & Heq).
  { simpl. by rewrite (lookup_update_snoc_old _ _ _ _ _ _ Hl). }
  exists w'. split; [done|]. rewrite Heq.
  destruct (decide (l = p)) as [->|]; [|done].
  assert (w = v) by congruence. by subst.
Qed.

Lemma cancel_steps_nil t s s' : cancel_steps t [] s s' → s' = s.
Proof.
  induction 1 as [s|s k h app p v s' Hin Happ Hh Hp _ IH]; [done|].
  by apply elem_of_nil in Hin.
Qed.

Lemma filter_none {A} (P : A → Prop) `{∀ x, Decision (P x)} (l : list A) :
  (∀ x, x ∈ l → ¬ P x) → filter P l = [].
Proof.
  induction l as [|x l IH]; intros Hl; [done|].
  rewrite filter_cons, decide_False by (apply Hl; by left).
  apply IH. intros y Hy. apply Hl. by right.
Qed.

Section EvictionSteps.

Context (now : Z) (rnd : nat → nat).

(** The keys of the instances that are expired at [now]. *)
Lemma expired_keys_elem s k h :
  (k, h) ∈ (filter (λ ent, expired_at now s ent.2 = true) (entries s)).*1
  ↔ ∃ p, stored s k h p ∧ expired_at now s p = true.
Proof.
  rewrite list_elem_of_fmap. split.
  - intros ([[k0 h0] p] & Heq & [Hexp Hin]%list_elem_of_filter).
    simpl in *. simplify_eq. exists p. by rewrite <- elem_of_entries.
  - intros (p & Hs & Hexp). exists (k, h, p). split; [done|].
    apply list_elem_of_filter. by rewrite elem_of_entries.
Qed.

(** The loop cancels instances of the pending keys and nothing else. *)
Lemma evict_loop_steps L0 n : ∀ done PV s,
  (n ≤ length PV)%nat → pending L0 s PV →
  ∃ rs s',
    evict_loop now rnd n (length done) (done ++ PV.*1) s = Done rs s'
    ∧ cancel_steps now ((λ ev, key_of ev.2) <$> PV) s s'.
Proof.
  induction n as [|n IH]; intros dn PV s Hn Hpend.
  - exists [], s. split; [done | constructor].
  - cbn [evict_loop].
    assert (Hlen : (length (dn ++ PV.*1) - length dn = length PV)%nat).
    { rewrite length_app, length_fmap. lia. }
    rewrite Hlen. destruct (length PV) as [|m] eqn:Hm; [lia|].
    unfold Intn. rewrite bind_eq. unfold mret at 1, M_ret at 1.
    set (k := (rnd (length dn) mod S m)%nat).
    assert (Hk : (k < length PV)%nat)
      by (rewrite Hm; apply Nat.mod_upper_bound; lia).
    destruct (lookup_lt_is_Some_2 PV 0 ltac:(lia)) as [ev0 Hev0].
    destruct (lookup_lt_is_Some_2 PV k Hk) as [evk Hevk].
    assert (Hi0 : (dn ++ PV.*1) !! length dn = Some ev0.1).
    { rewrite lookup_app_r, Nat.sub_diag, list_lookup_fmap, Hev0 by lia. done. }
    assert (Hik : (dn ++ PV.*1) !! (length dn + k)%nat = Some evk.1).
    { rewrite lookup_app_r by lia.
      replace (length dn + k - length dn)%nat with k by lia.
      by rewrite list_lookup_fmap, Hevk. }
    unfold swap, index. rewrite bind_eq, bind_eq, Hi0. simpl.
    rewrite bind_eq, Hik. simpl. unfold mret at 1, M_ret at 1.
    set (PV' := <[k := ev0]> (<[0%nat := evk]> PV)).
    assert (Hes : <[(length dn + k)%nat := ev0.1]>
                    (<[length dn := evk.1]> (dn ++ PV.*1))
                  = dn ++ PV'.*1).
    { rewrite (insert_app_r_alt dn (PV.*1) (length dn)) by lia.
      rewrite Nat.sub_diag, insert_app_r. unfold PV'.
      by rewrite !list_fmap_insert. }
    rewrite Hes.
    assert (Hperm : PV ≡ₚ PV') by (symmetry; by apply Permutation_insert_swap).
    assert (Hhd : PV' !! 0%nat = Some evk).
    { unfold PV'. destruct (decide (k = 0%nat)) as [Hz|Hz].
      - rewrite Hz in *.
        rewrite list_lookup_insert_eq by (rewrite length_insert; lia).
        congruence.
      - rewrite list_lookup_insert_ne by done.
        by rewrite list_lookup_insert_eq by lia. }
    destruct PV' as [|ev rest] eqn:EPV; [done|]. simpl in Hhd. simplify_eq.
    pose proof (pending_Permutation _ _ _ _ Hperm Hpend) as Hpend'.
    destruct Hpend' as (H1 & H2 & H3 & H4).
    pose proof (Forall_inv H3) as (Hle & Hv & p & app & Happ & Hh).
    assert (Hidx : (dn ++ (evk :: rest).*1) !! length dn = Some evk.1).
    { by rewrite lookup_app_r, Nat.sub_diag by lia. }
    rewrite bind_eq, Hidx. simpl.
    rewrite (bind_Done _ _ _ _ _ (deref_Some _ _ _ Hv)).
    assert (Hplt : (p < length (objs s))%nat).
    { assert (p < L0)%nat by (eapply H1; by exists app). lia. }
    destruct (lookup_lt_is_Some_2 _ _ Hplt) as [w Hw].
    rewrite (bind_Done _ _ _ _ _ (Cancel_stored _ _ _ _ now _ _ _ Happ Hh Hw)).
    set (s1 := Cancel_state _ _ _ _ _ _ _).
    assert (Hpend1 : pending L0 s1 rest).
    { eapply pending_Cancel; [|reflexivity|done..]. by repeat split. }
    destruct (IH (dn ++ [evk.1]) rest s1) as (rs & s' & Hrun & Hsteps).
    { apply Permutation_length in Hperm. simpl in Hperm. lia. }
    { done. }
    rewrite length_app in Hrun. simpl in Hrun.
    rewrite Nat.add_1_r, <- app_assoc in Hrun. simpl in Hrun.
    exists ((Some (length (objs s)), None) :: rs), s'.
    split; [by rewrite (bind_Done _ _ _ _ _ Hrun)|].
    eapply (cancel_steps_step _ _ _ (key_of evk.2).1 (key_of evk.2).2);
      [|exact Happ|exact Hh|exact Hw|].
    + apply list_elem_of_fmap. exists evk. split; [done|].
      rewrite Hperm. by left.
    + eapply cancel_steps_mono; [|exact Hsteps].
      intros x (ev & -> & Hin)%list_elem_of_fmap.
      apply list_elem_of_fmap. exists ev. split; [done|].
      rewrite Hperm. by right.
Qed.

(** The pass copies the instances, then cancels expired ones only. *)
Lemma evict_steps s :
  wf s →
  ∃ rs cs s',
    evict now rnd s = Done rs s'
    ∧ cancel_steps now
        ((filter (λ ent, expired_at now s ent.2 = true) (entries s)).*1)
        (set_objs (λ o, o ++ cs) s) s'.
Proof.
  intros Hwf. unfold evict, getAllApplications.
  unfold mbind at 1, M_bind at 1, gets at 1.
  destruct (evict_scan_spec now s (map_to_list (apps s)) 0 [] s)
    as (new & cs & Hscan & Hrel & Hcs); [done | by apply wf_valid_apps |].
  rewrite bind_eq, Hscan. simpl.
  fold (entries s). fold (total s).
  destruct (copies_values _ _ _ _ Hrel) as (PV & HPV & Hvals).
  set (s1 := set_objs (λ o, o ++ cs) s).
  assert (Hkeys : Forall2 (λ ev ent, key_of ev.2 = ent.1
                                     ∧ stored s ent.1.1 ent.1.2 ent.2)
                    PV (filter (λ ent, expired_at now s ent.2 = true)
                          (entries s))).
  { apply Forall2_same_length_lookup_2; [by eapply Forall2_length|].
    intros j ev [[k h] p] Hev Hent.
    destruct (Forall2_lookup_lr _ _ _ _ _ _ Hvals Hev Hent) as (_ & _ & Hp).
    apply list_elem_of_lookup_2, list_elem_of_filter in Hent as [_ Hent].
    apply elem_of_entries in Hent.
    destruct (wf_stored _ Hwf _ _ _ Hent) as (v & Hv & Hk & Hh).
    simpl in *. split; [|done]. assert (v = ev.2) by congruence. subst v.
    unfold key_of. by rewrite Hk, Hh. }
  assert (Heq : (λ ev, key_of ev.2) <$> PV
                = (filter (λ ent, expired_at now s ent.2 = true)
                     (entries s)).*1).
  { apply list_eq_Forall2, Forall2_fmap.
    eapply Forall2_impl; [exact Hkeys|]. by intros ev ent [? _]. }
  assert (Hpend : pending (length (objs s)) s1 PV).
  { split; [|split; [|split]].
    - intros k h p Hs. destruct (wf_stored _ Hwf k h p Hs) as (v & Hv & _).
      by eapply lookup_lt_Some.
    - simpl. rewrite length_app. lia.
    - apply Forall_lookup. intros j ev Hev.
      destruct (Forall2_lookup_l _ _ _ _ _ Hvals Hev)
        as (ent & Hent & Hle & Ho & Hp).
      destruct (Forall2_lookup_lr _ _ _ _ _ _ Hkeys Hev Hent) as (Hk & Hs).
      split; [done|]. split; [done|]. exists ent.2. by rewrite Hk.
    - rewrite Heq. apply NoDup_expired_keys. }
  set (limit := evictionLimit (Z.of_nat (total s))).
  set (expiredLen := if Z.of_nat (length new) >? limit
                     then limit else Z.of_nat (length new)).
  destruct (evict_loop_steps (length (objs s)) (Z.to_nat expiredLen) [] PV s1)
    as (rs & s' & Hrun & Hsteps); [|done|].
  { rewrite <- (length_fmap fst), HPV. unfold expiredLen.
    destruct (Z.gtb_spec (Z.of_nat (length new)) limit); lia. }
  simpl in Hrun. rewrite HPV in Hrun. rewrite Heq in Hsteps.
  exists rs, cs, s'. split; [|done].
  destruct (Z.eqb_spec expiredLen 0) as [Hz|Hz]; [|done].
  rewrite Hz in Hrun. simpl in Hrun. done.
Qed.

End EvictionSteps.

Lemma expired_at_ext now s s' l v v' :
  objs s !! l = Some v → objs s' !! l = Some v' →
  set_LatestTimestamp 0 v' = set_LatestTimestamp 0 v →
  expired_at now s' l = expired_at now s l.
Proof.
  intros Hv Hv' Heq. unfold expired_at. rewrite Hv, Hv'. unfold expired.
  by rewrite (f_equal RenewTimestamp Heq : RenewTimestamp v' = RenewTimestamp v).
Qed.

(** X17.  An eviction pass removes expired instances only, and adds
    none: an instance that is not expired at the time of the pass is still
    registered afterwards, under the same pointer, and an application none
    of whose instances is expired is left as it is, its [latestTimestamp]
    included.  The pass allocates no array and writes no field of any
    object but [LatestTimestamp]. *)
Theorem X17_evict_removes_expired_instances_only now rnd s :
  wf s →
  ∃ rs s',
    evict now rnd s = Done rs s'
    ∧ (∀ k h p, stored s' k h p → stored s k h p)
    ∧ (∀ k h p, stored s k h p → expired_at now s p = false → stored s' k h p)
    ∧ (∀ k, (∀ h p, stored s k h p → expired_at now s p = false) →
         apps s' !! k = apps s !! k)
    ∧ arrs s' = arrs s
    ∧ (∀ l v, objs s !! l = Some v →
         ∃ v', objs s' !! l = Some v'
               ∧ set_LatestTimestamp 0 v' = set_LatestTimestamp 0 v).
Proof.
  intros Hwf.
  destruct (evict_steps now rnd s Hwf) as (rs & cs & s' & Hrun & Hsteps).
  exists rs, s'. split; [done|].
  split; [exact (cancel_steps_stored _ _ _ _ Hsteps)|].
  split.
  { intros k h p Hs Hexp. apply (cancel_steps_keeps _ _ _ _ Hsteps); [done|].
    intros (p' & Hs' & Hexp')%expired_keys_elem.
    assert (p' = p) by (destruct Hs as (a & ? & ?), Hs' as (a' & ? & ?);
                        congruence).
    congruence. }
  split.
  { intros k Hk. apply (cancel_steps_apps _ _ _ _ Hsteps).
    intros h (p & Hs & Hexp)%expired_keys_elem.
    rewrite (Hk h p Hs) in Hexp. done. }
  split; [exact (cancel_steps_arrs _ _ _ _ Hsteps)|].
  intros l v Hl. apply (cancel_steps_objs _ _ _ _ Hsteps). simpl. lookup_old.
Qed.

Lemma X17_witness :
  ∃ rs s',
    evict (200 * 1000000000) (λ _, 1%nat) st_three = Done rs s'
    ∧ (∀ k h p, stored s' k h p → stored st_three k h p)
    ∧ (∀ k h p, stored st_three k h p →
         expired_at (200 * 1000000000) st_three p = false → stored s' k h p)
    ∧ (∀ k, (∀ h p, stored st_three k h p →
                    expired_at (200 * 1000000000) st_three p = false) →
         apps s' !! k = apps st_three !! k)
    ∧ arrs s' = arrs st_three
    ∧ (∀ l v, objs st_three !! l = Some v →
         ∃ v', objs s' !! l = Some v'
               ∧ set_LatestTimestamp 0 v' = set_LatestTimestamp 0 v).
Proof.
  refine (X17_evict_removes_expired_instances_only _ _ st_three _).
  apply reachable_invariant. unfold st_three. apply reachable_run.
Defined.

(** X18.  When no instance is expired an eviction pass cancels nothing:
    the map of applications and the arrays are the same afterwards, and
    the existing objects are unchanged (the copies the scan took are
    added). *)
Theorem X18_evict_without_expired_instances_cancels_nothing now rnd s :
  wf s →
  (∀ k h p, stored s k h p → expired_at now s p = false) →
  ∃ s',
    evict now rnd s = Done [] s'
    ∧ apps s' = apps s
    ∧ arrs s' = arrs s
    ∧ objs s `prefix_of` objs s'.
Proof.
  intros Hwf Hno.
  destruct (evict_steps now rnd s Hwf) as (rs & cs & s' & Hrun & Hsteps).
  destruct (evict_spec now rnd s Hwf) as (rs2 & s2 & Hrun2 & Hlen & _).
  rewrite Hrun in Hrun2. injection Hrun2 as <- <-.
  assert (Hnil : filter (λ ent, expired_at now s ent.2 = true) (entries s) = []).
  { apply filter_none. intros [[k h] p] Hin%elem_of_entries Hexp. simpl in Hexp.
    by rewrite (Hno k h p Hin) in Hexp. }
  unfold expired_total in Hlen. rewrite Hnil in Hlen, Hsteps.
  apply cancel_steps_nil in Hsteps. subst s'.
  assert (rs = []) by (apply nil_length_inv; simpl in Hlen; lia). subst rs.
  eexists. split; [done|]. split; [done|]. split; [done|].
  by apply prefix_app_r.
Qed.

Lemma X18_witness :
  ∃ s',
    evict (50 * 1000000000) (λ _, 0%nat) st_three = Done [] s'
    ∧ apps s' = apps st_three
    ∧ arrs s' = arrs st_three
    ∧ objs st_three `prefix_of` objs s'.
Proof.
  refine (X18_evict_without_expired_instances_cancels_nothing _ _ st_three _ _).
  - apply reachable_invariant. unfold st_three. apply reachable_run.
  - intros k h p Hin%elem_of_entries.
    assert (He : entries st_three
                 = [("svc.a-test", "h1", 0%nat); ("svc.a-test", "h2", 2%nat);
                    ("svc.b-test", "h3", 4%nat)]) by (vm_compute; reflexivity).
    rewrite He in Hin.
    repeat (apply elem_of_cons in Hin as [[= -> -> ->]|Hin];
            [vm_compute; reflexivity|]).
    apply elem_of_nil in Hin. destruct Hin.
Defined.

(** X19.  When the number of expired instances does not exceed the cap,
    one eviction pass removes all of them and nothing else: the instances
    registered afterwards are exactly those that were not expired, and
    none of them is expired. *)
Theorem X19_evict_removes_every_expired_instance_within_the_cap now rnd s :
  wf s →
  Z.of_nat (expired_total now s) ≤ evictionLimit (Z.of_nat (total s)) →
  ∃ rs s',
    evict now rnd s = Done rs s'
    ∧ length rs = expired_total now s
    ∧ (∀ k h p, stored s' k h p
                ↔ stored s k h p ∧ expired_at now s p = false)
    ∧ expired_total now s' = 0%nat.
Proof.
  intros Hwf Hcap.
  destruct (evict_steps now rnd s Hwf) as (rs & cs & s' & Hrun & Hsteps).
  destruct (evict_spec now rnd s Hwf) as (rs2 & s2 & Hrun2 & Hlen & _ & Htot & _).
  rewrite Hrun in Hrun2. injection Hrun2 as <- <-.
  assert (Hrs : length rs = expired_total now s) by lia.
  exists rs, s'. split; [done|]. split; [done|].
  assert (Hkeep : ∀ k h p, stored s k h p → expired_at now s p = false →
            stored s' k h p).
  { intros k h p Hs Hexp. apply (cancel_steps_keeps _ _ _ _ Hsteps); [done|].
    intros (p' & Hs' & Hexp')%expired_keys_elem.
    assert (p' = p) by (destruct Hs as (a & ? & ?), Hs' as (a' & ? & ?);
                        congruence).
    congruence. }
  set (A := filter (λ ent, ¬ expired_at now s ent.2 = true) (entries s)).
  assert (HA : (length A + expired_total now s = total s)%nat).
  { unfold A, expired_total, total.
    rewrite <- (Permutation_length
                  (filter_app_complement
                     (λ ent, expired_at now s ent.2 = true) (entries s))).
    rewrite length_app. lia. }
  assert (Hperm : A ≡ₚ entries s').
  { apply submseteq_length_Permutation.
    - apply NoDup_submseteq; [apply NoDup_filter, NoDup_entries|].
      intros [[k h] p] [Hexp Hin%elem_of_entries]%list_elem_of_filter.
      apply elem_of_entries. apply Hkeep; [done|]. simpl in Hexp.
      by destruct (expired_at now s p).
    - fold (total s'). lia. }
  assert (Hiff : ∀ k h p, stored s' k h p
                          ↔ stored s k h p ∧ expired_at now s p = false).
  { intros k h p. split; [|by intros [? ?]; apply Hkeep].
    intros Hs. split; [exact (cancel_steps_stored _ _ _ _ Hsteps _ _ _ Hs)|].
    apply elem_of_entries in Hs. rewrite <- Hperm in Hs.
    apply list_elem_of_filter in Hs as [Hexp _]. simpl in Hexp.
    by destruct (expired_at now s p). }
  split; [done|].
  unfold expired_total. rewrite filter_none; [done|].
  intros [[k h] p] Hin%elem_of_entries. simpl.
  apply Hiff in Hin as [Hs Hexp].
  destruct (wf_stored _ Hwf _ _ _ Hs) as (v & Hv & _).
  destruct (cancel_steps_objs _ _ _ _ Hsteps p v) as (v' & Hv' & Heq);
    [simpl; lookup_old|].
  rewrite (expired_at_ext now s s' p v v') by done. by rewrite Hexp.
Qed.

Lemma X19_witness :
  ∃ rs s',
    evict (200 * 1000000000) (λ _, 0%nat) st_one = Done rs s'
    ∧ length rs = expired_total (200 * 1000000000) st_one
    ∧ (∀ k h p, stored s' k h p
                ↔ stored st_one k h p
                  ∧ expired_at (200 * 1000000000) st_one p = false)
    ∧ expired_total (200 * 1000000000) s' = 0%nat.
Proof.
  refine (X19_evict_removes_every_expired_instance_within_the_cap _ _ st_one
            _ _).
  - apply reachable_invariant. unfold st_one. apply reachable_run.
  - vm_compute. discriminate.
Defined.

(** X20.  A renewal protects an instance: after a [Renew] at time [t0],
    an eviction pass that runs no later than 90 seconds after [t0] leaves
    the instance registered, whatever else it evicts. *)
Theorem X20_a_renewed_instance_survives_the_next_pass
    s env appid h t0 now rnd app p v :
  wf s →
  apps s !! getKey appid env = Some app →
  instances app !! h = Some p →
  objs s !! p = Some v →
  0 ≤ now - t0 ≤ 90 * 1000000000 →
  ∃ q s1 rs s2,
    Renew env appid h t0 s = Done (Some q, None) s1
    ∧ evict now rnd s1 = Done rs s2
    ∧ stored s2 (getKey appid env) h p.
Proof.
  intros Hwf Happ Hh Hp Hnow.
  rewrite (Renew_stored s env appid h t0 app p v Happ Hh Hp).
  set (s1 := Renew_state p v t0 s).
  assert (Hwf1 : wf s1) by (by apply wf_Renew_state).
  destruct (evict_steps now rnd s1 Hwf1) as (rs & cs & s2 & Hrun & Hsteps).
  eexists _, s1, rs, s2. split; [reflexivity|]. split; [done|].
  assert (Hs1 : stored s1 (getKey appid env) h p) by (by exists app).
  apply (cancel_steps_keeps _ _ _ _ Hsteps); [done|].
  intros (p' & Hs' & Hexp)%expired_keys_elem.
  assert (p' = p) by (destruct Hs1 as (a & ? & ?), Hs' as (a' & ? & ?);
                      congruence).
  subst p'. unfold expired_at, s1, Renew_state, copy_state in Hexp.
  simpl in Hexp.
  rewrite lookup_app_l in Hexp
    by (rewrite length_insert; by eapply lookup_lt_Some).
  rewrite list_lookup_insert_eq in Hexp by (by eapply lookup_lt_Some).
  rewrite expired_no_overflow in Hexp by (simpl; lia).
  simpl in Hexp. lia.
Qed.

Lemma X20_witness :
  ∃ q s1 rs s2,
    Renew "test" "svc.a" "h1" (150 * 1000000000) st_three
    = Done (Some q, None) s1
    ∧ evict (200 * 1000000000) (λ _, 0%nat) s1 = Done rs s2
    ∧ stored s2 (getKey "svc.a" "test") "h1" 0%nat.
Proof.
  refine (X20_a_renewed_instance_survives_the_next_pass st_three
            "test" "svc.a" "h1" (150 * 1000000000) (200 * 1000000000)
            (λ _, 0%nat)
            (mkApplication "svc.a" {[ "h1" := 0%nat; "h2" := 2%nat ]} 11)
            0%nat (example_Instance "test" "svc.a" "h1" 1 5 100) _ _ _ _ _).
  - apply reachable_invariant. unfold st_three. apply reachable_run.
  - vm_compute. reflexivity.
  - vm_compute. reflexivity.
  - reflexivity.
  - lia.
Defined.



(** ** Cancel and Fetch *)

(** What a [Fetch] that returns has returned. *)
Lemma Fetch_Done_inv s env appid m since qs e s' :
  wf s →
  Fetch env appid m since s = Done (qs, e) s' →
  (apps s !! getKey appid env = None ∧ qs = [])
  ∨ ∃ app, apps s !! getKey appid env = Some app
           ∧ ∀ q, q ∈ qs → ∃ h l v, selected m s app h l v
                                    ∧ view s' q = view s l.
Proof.
  intros Hwf Hrun. destruct (apps s !! getKey appid env) as [app|] eqn:Happ.
  - right. exists app. split; [done|].
    destruct (Z.le_gt_cases (latestTimestamp app) since) as [Ht|Ht].
    { rewrite (Fetch_not_fresh _ _ _ _ _ app) in Hrun by done. done. }
    pose proof (wf_live _ _ _ Hwf Happ) as Hl.
    rewrite (Fetch_fresh _ _ _ _ _ app) in Hrun by (done || lia).
    destruct (bool_decide _); [done|]. injection Hrun as <- <- <-.
    intros q [Hge Hlt]%elem_of_seq.
    destruct (lookup_lt_is_Some_2 (matching m s (map_to_list (instances app)))
                (q - length (objs s))) as [v Hv]; [lia|].
    assert (Hin : v ∈ matching m s (map_to_list (instances app)))
      by (by eapply list_elem_of_lookup_2).
    apply matching_selected in Hin as (h & l & Hs). exists h, l, v.
    split; [done|]. destruct Hs as (_ & Hlv & _). unfold view at 2.
    rewrite Hlv. simpl.
    replace q with (length (objs s) + (q - length (objs s)))%nat at 1 by lia.
    by apply view_fetch_state.
  - left. rewrite Fetch_no_app in Hrun by done. by injection Hrun as <- _ _.
Qed.

(** X22.  Once an instance has been cancelled, no [Fetch] returns it:
    whatever the mask and the timestamp, none of the instances that a
    [Fetch] for its application returns has its hostname. *)
Theorem X22_a_cancelled_instance_is_not_fetched
    s env appid h t app p m since qs e s2 q vq :
  wf s →
  apps s !! getKey appid env = Some app →
  instances app !! h = Some p →
  Fetch env appid m since (state_of (Cancel env appid h t s)) = Done (qs, e) s2 →
  q ∈ qs → objs s2 !! q = Some vq →
  Hostname vq ≠ h.
Proof.
  intros Hwf Happ Hh Hrun Hq Hvq.
  destruct (wf_stored _ Hwf (getKey appid env) h p) as (v & Hp & _);
    [by exists app|].
  rewrite (Cancel_stored s env appid h t app p v Happ Hh Hp) in Hrun.
  simpl in Hrun.
  set (s1 := Cancel_state (getKey appid env) h app p v t s) in *.
  assert (Hwf1 : wf s1) by (by apply wf_Cancel_state).
  destruct (Fetch_Done_inv _ _ _ _ _ _ _ _ Hwf1 Hrun)
    as [[_ ->]|(app1 & Happ1 & Hsel)]; [by apply elem_of_nil in Hq|].
  destruct (Hsel q Hq) as (h1 & l & w & (Hh1 & Hw & _) & Hview).
  assert (Hs1 : stored s1 (getKey appid env) h1 l) by (by exists app1).
  destruct (wf_stored _ Hwf1 _ _ _ Hs1) as (w' & Hw' & _ & Hhost).
  assert (w' = w) by congruence. subst w'.
  apply stored_Cancel_state in Hs1 as [_ Hne]; [|done].
  unfold view in Hview. rewrite Hvq, Hw in Hview. simpl in Hview.
  assert (Hf : set_Addrs 0%nat vq = set_Addrs 0%nat w) by congruence.
  assert (Hostname vq = Hostname w)
    by exact (f_equal Hostname Hf).
  congruence.
Qed.

Lemma X22_witness :
  Hostname (set_Addrs 3%nat (example_Instance "test" "svc.a" "h2" 1 5 100))
  ≠ "h1".
Proof.
  refine (X22_a_cancelled_instance_is_not_fetched st_three "test" "svc.a" "h1"
            50 (mkApplication "svc.a" {[ "h1" := 0%nat; "h2" := 2%nat ]} 11)
            0%nat 1 0 [7%nat] None
            (state_of (Fetch "test" "svc.a" 1 0
                         (state_of (Cancel "test" "svc.a" "h1" 50 st_three))))
            7%nat _ _ _ _ _ _ _).
  - apply reachable_invariant. unfold st_three. apply reachable_run.
  - vm_compute. reflexivity.
  - vm_compute. reflexivity.
  - vm_compute. reflexivity.
  - by left.
  - vm_compute. reflexivity.
Defined.

(** ** What no operation writes *)

Lemma payload_LatestTimestamp v v' :
  set_LatestTimestamp 0 v' = set_LatestTimestamp 0 v → payload v' = payload v.
Proof.
  intros H.
  change (payload (set_LatestTimestamp 0 v') = payload (set_LatestTimestamp 0 v)).
  by rewrite H.
Qed.

Lemma payload_UpTimestamp v v' :
  set_UpTimestamp 0 v' = set_UpTimestamp 0 v → payload v' = payload v.
Proof.
  intros H.
  change (set_RenewTimestamp 0 (set_LatestTimestamp 0 (set_UpTimestamp 0 v'))
          = set_RenewTimestamp 0 (set_LatestTimestamp 0 (set_UpTimestamp 0 v))).
  by rewrite H.
Qed.

Lemma payload_update_snoc (o : list Instance) p v0 v1 w l v :
  o !! p = Some v0 → payload v1 = payload v0 → o !! l = Some v →
  ∃ v', (<[p := v1]> o ++ [w]) !! l = Some v' ∧ payload v' = payload v.
Proof.
  intros Hp Hpay Hl. rewrite (lookup_update_snoc_old _ _ _ _ _ _ Hl).
  destruct (decide (l = p)) as [->|]; [|by exists v].
  exists v1. split; [done|]. congruence.
Qed.

(** X23.  No operation of the registry rewrites an instance: whatever
    the call (building an instance, [Register], [Fetch], [Cancel], [Renew]
    or an eviction pass) and whether it returns or panics, every object
    keeps its [Env], [AppId], [Hostname], address list, [Version],
    [Status], [RegTimestamp] and [DirtyTimestamp] (only [UpTimestamp],
    [RenewTimestamp] and [LatestTimestamp] are ever written), and every
    array keeps its elements. *)
Theorem X23_no_operation_rewrites_an_instance o s :
  wf s →
  (∀ l v, objs s !! l = Some v →
     ∃ v', objs (exec o s) !! l = Some v' ∧ payload v' = payload v)
  ∧ arrs s `prefix_of` arrs (exec o s).
Proof.
  intros Hwf. destruct o as [i addrs|p t|env appid status t|env appid h t
                            |env appid h now|now rnd]; cbn [exec].
  - rewrite new_caller_Instance_eq. simpl. split; [|by apply prefix_app_r].
    intros l v Hl. exists v. split; [lookup_old | done].
  - destruct (objs s !! p) as [i|] eqn:Hp.
    + destruct (Register_effect s p t i Hwf Hp) as (q & i' & w & -> & Hi' & _).
      simpl. split; [|done]. intros l v Hl.
      apply (payload_update_snoc _ _ i); [done | by apply payload_UpTimestamp
                                         | done].
    + rewrite Register_nil by done. simpl. split; [|done].
      intros l v Hl. by exists v.
  - destruct (Fetch_state s env appid status t Hwf) as (ms & -> & _).
    simpl. split; [|by apply prefix_app_r].
    intros l v Hl. exists v. split; [lookup_old | done].
  - destruct (Cancel_cases s env appid h t Hwf)
      as [->|[->|(app & p & v0 & Happ & Hh & Hp & ->)]]; simpl;
      [split; [intros l v Hl; by exists v | done]..|].
    split; [|done]. intros l v Hl. by apply (payload_update_snoc _ _ v0).
  - destruct (Renew_cases s env appid h now Hwf)
      as [->|[->|(app & p & v0 & Happ & Hh & Hp & ->)]]; simpl;
      [split; [intros l v Hl; by exists v | done]..|].
    split; [|by apply prefix_app_r].
    intros l v Hl. by apply (payload_update_snoc _ _ v0).
  - destruct (evict_steps now rnd s Hwf) as (rs & cs & s' & -> & Hsteps).
    simpl. rewrite (cancel_steps_arrs _ _ _ _ Hsteps). split; [|done].
    intros l v Hl.
    destruct (cancel_steps_objs _ _ _ _ Hsteps l v) as (v' & Hv' & Heq);
      [simpl; lookup_old|].
    exists v'. split; [done | by apply payload_LatestTimestamp].
Qed.

Lemma X23_witness :
  (∀ l v, objs st_three !! l = Some v →
     ∃ v', objs (exec (OpEvict (200 * 1000000000) (λ _, 0%nat)) st_three) !! l
           = Some v'
           ∧ payload v' = payload v)
  ∧ arrs st_three
    `prefix_of` arrs (exec (OpEvict (200 * 1000000000) (λ _, 0%nat)) st_three).
Proof.
  refine (X23_no_operation_rewrites_an_instance
            (OpEvict (200 * 1000000000) (λ _, 0%nat)) st_three _).
  apply reachable_invariant. unfold st_three. apply reachable_run.
Defined.

(** ** Reachable states *)

(** X24.  In every state reached by the operations, each entry of the
    registry is consistent with the instance it points to: the pointer is
    live, the instance carries the hostname it is stored under and its
    [AppId] and [Env] give the key of its application, and its address
    list is a live array; so a pointer is stored under one key and one
    hostname at most. *)
Theorem X24_entries_agree_with_their_instances s :
  reachable s →
  (∀ k h l, stored s k h l →
     ∃ v, objs s !! l = Some v ∧ Hostname v = h
          ∧ getKey (AppId v) (Env v) = k ∧ is_Some (arrs s !! Addrs v))
  ∧ (∀ k h k' h' l, stored s k h l → stored s k' h' l → k = k' ∧ h = h').
Proof.
  intros [Hwf _]%reachable_invariant.
  assert (H1 : ∀ k h l, stored s k h l →
            ∃ v, objs s !! l = Some v ∧ Hostname v = h
                 ∧ getKey (AppId v) (Env v) = k ∧ is_Some (arrs s !! Addrs v)).
  { intros k h l Hs. destruct (wf_stored _ Hwf _ _ _ Hs) as (v & Hv & Hk & Hh).
    exists v. split; [done|]. split; [done|]. split; [done|].
    apply lookup_lt_is_Some_2. by eapply wf_addrs. }
  split; [done|].
  intros k h k' h' l Hs Hs'.
  destruct (H1 _ _ _ Hs) as (v & Hv & <- & <- & _).
  destruct (H1 _ _ _ Hs') as (v' & Hv' & <- & <- & _).
  assert (v' = v) by congruence. by subst.
Qed.

Lemma X24_witness :
  (∀ k h l, stored st_three k h l →
     ∃ v, objs st_three !! l = Some v ∧ Hostname v = h
          ∧ getKey (AppId v) (Env v) = k
          ∧ is_Some (arrs st_three !! Addrs v))
  ∧ (∀ k h k' h' l, stored st_three k h l → stored st_three k' h' l →
       k = k' ∧ h = h').
Proof.
  refine (X24_entries_agree_with_their_instances st_three _).
  unfold st_three. apply reachable_run.
Defined.

(** ** The eviction cap and the expiry test *)

(** X25.  For every registry size [n] below [2^47] the cap that [evict]
    computes in binary64 is the integer [n - floor(85*n/100)], which is
    15% of [n] rounded up: it lies between 0 and [n], is at least 1 as
    soon as the registry is not empty, and grows with [n]. *)
Theorem X25_evictionLimit_is_15_percent_rounded_up n :
  0 ≤ n < 2 ^ 47 →
  evictionLimit n = (15 * n + 99) / 100
  ∧ 0 ≤ evictionLimit n ≤ n
  ∧ (1 ≤ n → 1 ≤ evictionLimit n)
  ∧ (∀ m, 0 ≤ m ≤ n → evictionLimit m ≤ evictionLimit n).
Proof.
  assert (Hceil : ∀ k, 0 ≤ k < 2 ^ 47 → evictionLimit k = (15 * k + 99) / 100).
  { intros k Hk. rewrite evictionLimit_floor by done.
    apply (Z.div_unique _ _ _ (99 - (85 * k) mod 100)).
    - pose proof (Z.mod_pos_bound (85 * k) 100 ltac:(lia)). lia.
    - pose proof (Z.div_mod (85 * k) 100 ltac:(lia)). lia. }
  intros Hn. split; [by apply Hceil|].
  rewrite (Hceil n Hn). split.
  { split; [apply Z.div_pos; lia|].
    assert ((15 * n + 99) / 100 < n + 1)
      by (apply Z.div_lt_upper_bound; lia).
    lia. }
  split.
  { intros H1. apply Z.div_le_lower_bound; lia. }
  intros m Hm. rewrite (Hceil m) by lia. apply Z.div_le_mono; lia.
Qed.

Lemma X25_witness :
  evictionLimit 7 = (15 * 7 + 99) / 100
  ∧ 0 ≤ evictionLimit 7 ≤ 7
  ∧ (1 ≤ 7 → 1 ≤ evictionLimit 7)
  ∧ (∀ m, 0 ≤ m ≤ 7 → evictionLimit m ≤ evictionLimit 7).
Proof.
  refine (X25_evictionLimit_is_15_percent_rounded_up 7 _). lia.
Defined.

(** X26.  The expiry test of [evict] is computed in [int64]: for
    timestamps in the range of [int64], an instance is expired at [now]
    exactly when [now - RenewTimestamp] is more than 90 seconds (in
    nanoseconds), or is so far below zero that the subtraction wraps
    around to more than 90 seconds.  An instance renewed exactly 90
    seconds ago is not expired, and for timestamps that are not negative
    no wrap-around is possible. *)
Theorem X26_expired_is_more_than_90_seconds_in_int64 now v :
  - 2 ^ 63 ≤ now < 2 ^ 63 →
  - 2 ^ 63 ≤ RenewTimestamp v < 2 ^ 63 →
  (expired now v = true
   ↔ 90 * 1000000000 < now - RenewTimestamp v < 2 ^ 63
     ∨ 90 * 1000000000 - 2 ^ 64 < now - RenewTimestamp v < - 2 ^ 63)
  ∧ (0 ≤ now → 0 ≤ RenewTimestamp v →
     (expired now v = true ↔ 90 * 1000000000 < now - RenewTimestamp v)).
Proof.
  intros Hnow Hr. unfold expired, wrap64.
  set (d := now - RenewTimestamp v).
  assert (Hd : - 2 ^ 64 < d < 2 ^ 64) by (unfold d; lia).
  assert (Hw : (d + 2 ^ 63) mod 2 ^ 64
               = if decide (d < - 2 ^ 63) then d + 2 ^ 63 + 2 ^ 64
                 else if decide (d < 2 ^ 63) then d + 2 ^ 63
                 else d + 2 ^ 63 - 2 ^ 64).
  { destruct (decide (d < - 2 ^ 63)); [|destruct (decide (d < 2 ^ 63))].
    - symmetry. apply (Z.mod_unique _ _ (-1)); lia.
    - symmetry. apply (Z.mod_unique _ _ 0); lia.
    - symmetry. apply (Z.mod_unique _ _ 1); lia. }
  rewrite Hw.
  destruct (decide (d < - 2 ^ 63)); [|destruct (decide (d < 2 ^ 63))];
    (split; [|intros ? ?]; (destruct (Z.gtb_spec (d + 2 ^ 63 + 2 ^ 64 - 2 ^ 63)
                                        (90 * 1000000000))
                            || destruct (Z.gtb_spec (d + 2 ^ 63 - 2 ^ 63)
                                           (90 * 1000000000))
                            || destruct (Z.gtb_spec (d + 2 ^ 63 - 2 ^ 64 - 2 ^ 63)
                                           (90 * 1000000000)));
     split; intros; try discriminate; try reflexivity; unfold d in *; lia).
Qed.

Lemma X26_witness :
  (expired (200 * 1000000000) (example_Instance "test" "svc.a" "h1" 1 5 100)
   = true
   ↔ 90 * 1000000000
     < 200 * 1000000000
       - RenewTimestamp (example_Instance "test" "svc.a" "h1" 1 5 100)
     < 2 ^ 63
     ∨ 90 * 1000000000 - 2 ^ 64
       < 200 * 1000000000
         - RenewTimestamp (example_Instance "test" "svc.a" "h1" 1 5 100)
       < - 2 ^ 63)
  ∧ (0 ≤ 200 * 1000000000 →
     0 ≤ RenewTimestamp (example_Instance "test" "svc.a" "h1" 1 5 100) →
     (expired (200 * 1000000000) (example_Instance "test" "svc.a" "h1" 1 5 100)
      = true
      ↔ 90 * 1000000000
        < 200 * 1000000000
          - RenewTimestamp (example_Instance "test" "svc.a" "h1" 1 5 100))).
Proof.
  refine (X26_expired_is_more_than_90_seconds_in_int64 (200 * 1000000000)
            (example_Instance "test" "svc.a" "h1" 1 5 100) _ _).
  - lia.
  - simpl. lia.
Defined.

(** ** Keys *)

Lemma dash_free_getKey x y : dash_free (getKey x y) = false.
Proof.
  unfold getKey. induction x as [|c r IH]; simpl; [done|].
  rewrite IH. apply andb_false_r.
Qed.

(** X27.  [getKey] tells two pairs apart as soon as neither application
    identifier has a dash, or neither environment has one: for such pairs
    equal keys mean the same application identifier and the same
    environment. *)
Theorem X27_getKey_is_injective_without_dashes a1 e1 a2 e2 :
  (dash_free a1 = true ∧ dash_free a2 = true)
  ∨ (dash_free e1 = true ∧ dash_free e2 = true) →
  getKey a1 e1 = getKey a2 e2 → a1 = a2 ∧ e1 = e2.
Proof.
  intros [[H1 H2]|[H1 H2]]; [by apply getKey_inj|].
  revert a2.
  induction a1 as [|c r IH]; intros [|c' r'] Heq; unfold getKey in Heq.
  - injection Heq as Heq. split; [done | exact Heq].
  - injection Heq as _ Heq.
    assert (Hf : dash_free e1 = false).
    { change e1 with ("" +:+ e1). rewrite Heq. apply dash_free_getKey. }
    congruence.
  - injection Heq as _ Heq.
    assert (Hf : dash_free e2 = false).
    { change e2 with ("" +:+ e2). rewrite <- Heq. apply dash_free_getKey. }
    congruence.
  - injection Heq as -> Heq. destruct (IH r' Heq) as [-> ->]. done.
Qed.

Lemma X27_witness : "svc.a" = "svc.a" ∧ "te-st" = "te-st".
Proof.
  refine (X27_getKey_is_injective_without_dashes "svc.a" "te-st" "svc.a" "te-st"
            _ _).
  - left. split; reflexivity.
  - reflexivity.
Defined.

(** ** NewInstance, Register and the eviction pass *)

Lemma wf_NewInstance req now s :
  wf s → (reqAddrs req < length (arrs s))%nat →
  wf (state_of (NewInstance req now s)).
Proof.
  intros Hwf Ha. unfold NewInstance, new_Instance. simpl.
  apply (wf_intro s); [done| | |].
  - intros k h l Hs. by left.
  - intros l v Hv. exists v. simpl. split; [lookup_old | done].
  - intros l v Hv. simpl in *. apply lookup_app_Some in Hv as [Hv|[_ Hv]].
    + by eapply wf_addrs.
    + apply list_lookup_singleton_Some in Hv as [_ <-]. done.
Qed.

(** X28.  A new registration is safe from the next eviction pass: when an
    instance is built by [NewInstance] at time [now0] and registered, and
    the application holds no instance of that hostname with a
    [DirtyTimestamp] above [now0], an eviction pass that runs no later
    than 90 seconds after [now0] leaves it registered, under the pointer
    that [NewInstance] returned. *)
Theorem X28_a_new_registration_survives_the_next_pass s req now0 t now rnd :
  wf s →
  (reqAddrs req < length (arrs s))%nat →
  (∀ l0 a, stored s (getKey (reqAppId req) (reqEnv req)) (reqHostname req) l0 →
           objs s !! l0 = Some a → DirtyTimestamp a ≤ now0) →
  0 ≤ now - now0 ≤ 90 * 1000000000 →
  ∃ p s0 app' s1 rs s2,
    NewInstance req now0 s = Done p s0
    ∧ Register p t s0 = Done (app', None) s1
    ∧ evict now rnd s1 = Done rs s2
    ∧ stored s2 (getKey (reqAppId req) (reqEnv req)) (reqHostname req) p.
Proof.
  intros Hwf Ha Hfresh Hnow.
  pose proof (wf_NewInstance req now0 s Hwf Ha) as Hwf0.
  unfold NewInstance, new_Instance in *. simpl in Hwf0.
  set (i := mkInstance (reqEnv req) (reqAppId req) (reqHostname req)
              (reqAddrs req) (reqVersion req) (reqStatus req)
              now0 now0 now0 now0 now0) in *.
  set (s0 := set_objs (λ h, h ++ [i]) s) in *.
  set (p := length (objs s)).
  assert (Hp0 : objs s0 !! p = Some i).
  { simpl. unfold p. by rewrite lookup_app_r, Nat.sub_diag. }
  destruct (Register_effect s0 p t i Hwf0 Hp0) as (q & i' & w & Hreg & Hi' & Hq).
  assert (q = p) as ->.
  { destruct Hq as [Hq|(a & Hh & Hqa & Hlt)]; [done|].
    apply app_of_stored in Hh.
    destruct (wf_stored _ Hwf _ _ _ Hh) as (a' & Ha' & _).
    assert (a = a').
    { simpl in Hqa. rewrite lookup_app_l in Hqa by (by eapply lookup_lt_Some).
      congruence. }
    subst a'. pose proof (Hfresh q a Hh Ha'). simpl in Hlt. lia. }
  set (s1 := mkState _ _ _) in Hreg.
  assert (Hwf1 : wf s1).
  { destruct (Register_cases s0 p t Hwf0)
      as [Hc|(app' & s' & Hc & Hwf' & _)]; rewrite Hreg in Hc; [done|].
    by injection Hc as _ <-. }
  destruct (evict_steps now rnd s1 Hwf1) as (rs & cs & s2 & Hrun & Hsteps).
  eexists p, s0, _, s1, rs, s2. split; [reflexivity|]. split; [exact Hreg|].
  split; [done|].
  assert (Hs1 : stored s1 (getKey (reqAppId req) (reqEnv req))
                  (reqHostname req) p).
  { apply (stored_Register_iff s0 i). by left. }
  apply (cancel_steps_keeps _ _ _ _ Hsteps); [done|].
  intros (p' & Hs' & Hexp)%expired_keys_elem.
  assert (p' = p) by (destruct Hs1 as (a1 & ? & ?), Hs' as (a2 & ? & ?);
                      congruence).
  subst p'. unfold expired_at in Hexp.
  assert (Hp1 : objs s1 !! p = Some i').
  { simpl. rewrite (lookup_update_snoc_old _ _ _ _ _ _ Hp0).
    by rewrite decide_True. }
  rewrite Hp1 in Hexp.
  assert (Hr : RenewTimestamp i' = now0)
    by exact (f_equal RenewTimestamp Hi').
  rewrite expired_no_overflow in Hexp by (rewrite Hr; lia).
  rewrite Hr in Hexp. lia.
Qed.

Lemma X28_witness :
  ∃ p s0 app' s1 rs s2,
    NewInstance (mkRequestRegister "test" "svc.a" "h7" 0%nat 1 "v1.0.0" 0 0 false)
      (150 * 1000000000) st_one = Done p s0
    ∧ Register p 30 s0 = Done (app', None) s1
    ∧ evict (200 * 1000000000) (λ _, 0%nat) s1 = Done rs s2
    ∧ stored s2 (getKey "svc.a" "test") "h7" p.
Proof.
  refine (X28_a_new_registration_survives_the_next_pass st_one
            (mkRequestRegister "test" "svc.a" "h7" 0%nat 1 "v1.0.0" 0 0 false)
            (150 * 1000000000) 30 (200 * 1000000000) (λ _, 0%nat) _ _ _ _).
  - apply reachable_invariant. unfold st_one. apply reachable_run.
  - vm_compute. lia.
  - intros l0 a (app & Happ & Hl). vm_compute in Happ. injection Happ as <-.
    vm_compute in Hl. discriminate.
  - lia.
Defined.
